(** * EMIR accuracy reporting: schema, validation queries, scoring and infrastructure

    A shallow embedding of the EMIR REFIT accuracy-reporting repository:
    - the Glue table schema of [lib/emir-glue-catalog.ts];
    - the Athena validation queries and the scoring logic of
      [emir-accuracy-report-guide.md];
    - the configuration, naming, storage, database and stack constructs
      of [lib/];
    - the pipeline state machine, which the repository does not contain
      yet, after the specification.

    SQL values are modelled with [option] ([None] is SQL NULL) and SQL
    conditions with three-valued logic.  JavaScript numbers are rationals
    extended with the two infinities and NaN.  The arithmetic of module
    [JS] is exact; module [Binary64] rounds every result to the nearest
    double, and the facts that depend on rounding are stated about the
    definitions that use it. *)

From Stdlib Require Import ZArith QArith Qminmax Qabs Qround Qpower Lia Lqa Ascii.
From stdpp Require Import base list strings gmap.

Close Scope Q_scope.
Open Scope Z_scope.

(* ===================================================================== *)
(** ** The Glue Data Catalog ([lib/emir-glue-catalog.ts])                 *)
(* ===================================================================== *)

Module GlueCatalog.

(** One element of the array returned by [getEmirFieldSchema]:
    [{ name: string; type: string; comment?: string }]. *)
Record Column := {
  name : string;
  type : string;
  comment : option string;
}.

(** [tableInput] of the [CfnTable] built in the constructor (the fields
    that carry the schema; the SerDe parameters are constants). *)
Record TableInput := {
  tableName : string;
  description : string;
  tableType : string;
  location : string;
  columns : list Column;
  partitionKeys : list Column;
}.

Record CfnTable := {
  catalogId : string;
  databaseName : string;
  tableInput : TableInput;
}.

(** [getEmirFieldSchema()], the literal of the source, entry by entry and
    in the source's order, with the source's section comments. *)
Definition getEmirFieldSchema : list Column :=
  [
    (* ===== Critical Identifiers (6 fields) ===== *)
      {| name := "uti"; type := "string"; comment := Some "Unique Transaction Identifier" |}
    ; {| name := "report_tracking_number"; type := "string"; comment := Some "Report tracking number" |}
    ; {| name := "counterparty_1"; type := "string"; comment := Some "Reporting counterparty LEI (20 chars)" |}
    ; {| name := "counterparty_2"; type := "string"; comment := Some "Other counterparty LEI (20 chars)" |}
    ; {| name := "report_submitting_entity_id"; type := "string"; comment := Some "Submitting entity LEI" |}
    ; {| name := "entity_responsible_reporting"; type := "string"; comment := Some "Responsible entity LEI" |}
    (* ===== Critical Trade Information (10 fields) ===== *)
    ; {| name := "action_type"; type := "string"; comment := Some "NEW, MODIFY, CANCEL, ERROR, etc." |}
    ; {| name := "event_type"; type := "string"; comment := Some "Trade event type" |}
    ; {| name := "event_date"; type := "date"; comment := Some "Event occurrence date" |}
    ; {| name := "execution_timestamp"; type := "timestamp"; comment := Some "Trade execution timestamp" |}
    ; {| name := "effective_date"; type := "date"; comment := Some "Contract effective date" |}
    ; {| name := "expiration_date"; type := "date"; comment := Some "Contract expiration/maturity date" |}
    ; {| name := "early_termination_date"; type := "date"; comment := Some "Early termination date if applicable" |}
    ; {| name := "direction"; type := "string"; comment := Some "BUY or SELL" |}
    ; {| name := "venue_identification"; type := "string"; comment := Some "Trading venue MIC code" |}
    ; {| name := "master_agreement_type"; type := "string"; comment := Some "ISDA, NAFTA, etc." |}
    (* ===== Product Information (15 fields) ===== *)
    ; {| name := "isin"; type := "string"; comment := Some "ISIN code (12 characters)" |}
    ; {| name := "upi"; type := "string"; comment := Some "Unique Product Identifier" |}
    ; {| name := "asset_class"; type := "string"; comment := Some "EQUITY, COMMODITY, FX, INTEREST_RATE, CREDIT" |}
    ; {| name := "product_classification"; type := "string"; comment := Some "CFI code" |}
    ; {| name := "product_name"; type := "string"; comment := Some "Product name/description" |}
    ; {| name := "underlying_isin"; type := "string"; comment := Some "Underlying asset ISIN" |}
    ; {| name := "underlying_index"; type := "string"; comment := Some "Underlying index name" |}
    ; {| name := "underlying_currency"; type := "string"; comment := Some "Underlying currency ISO 4217" |}
    ; {| name := "notional_currency_1"; type := "string"; comment := Some "Notional currency 1 (ISO 4217)" |}
    ; {| name := "notional_amount_1"; type := "decimal(18,2)"; comment := Some "Notional amount leg 1" |}
    ; {| name := "notional_currency_2"; type := "string"; comment := Some "Notional currency 2 (ISO 4217)" |}
    ; {| name := "notional_amount_2"; type := "decimal(18,2)"; comment := Some "Notional amount leg 2" |}
    ; {| name := "price_currency"; type := "string"; comment := Some "Price currency" |}
    ; {| name := "price"; type := "decimal(18,6)"; comment := Some "Trade price" |}
    ; {| name := "price_notation"; type := "string"; comment := Some "Price notation type" |}
    (* ===== Clearing & Settlement (10 fields) ===== *)
    ; {| name := "cleared"; type := "boolean"; comment := Some "Cleared indicator" |}
    ; {| name := "central_counterparty"; type := "string"; comment := Some "CCP LEI" |}
    ; {| name := "clearing_timestamp"; type := "timestamp"; comment := Some "Clearing acceptance timestamp" |}
    ; {| name := "clearing_obligation"; type := "boolean"; comment := Some "Subject to clearing obligation" |}
    ; {| name := "clearing_threshold"; type := "boolean"; comment := Some "Clearing threshold indicator" |}
    ; {| name := "clearing_member"; type := "string"; comment := Some "Clearing member LEI" |}
    ; {| name := "intragroup"; type := "boolean"; comment := Some "Intragroup transaction" |}
    ; {| name := "post_trade_risk_reduction"; type := "boolean"; comment := Some "Post-trade risk reduction" |}
    ; {| name := "settlement_date"; type := "date"; comment := Some "Settlement date" |}
    ; {| name := "settlement_currency"; type := "string"; comment := Some "Settlement currency" |}
    (* ===== Counterparty Details (15 fields) ===== *)
    ; {| name := "counterparty_1_nature"; type := "string"; comment := Some "CP1 nature: F=Financial, N=Non-Financial" |}
    ; {| name := "counterparty_2_nature"; type := "string"; comment := Some "CP2 nature" |}
    ; {| name := "counterparty_1_sector"; type := "string"; comment := Some "CP1 corporate sector" |}
    ; {| name := "counterparty_2_sector"; type := "string"; comment := Some "CP2 corporate sector" |}
    ; {| name := "counterparty_1_country"; type := "string"; comment := Some "CP1 country ISO 3166" |}
    ; {| name := "counterparty_2_country"; type := "string"; comment := Some "CP2 country ISO 3166" |}
    ; {| name := "execution_agent_id"; type := "string"; comment := Some "Execution agent LEI" |}
    ; {| name := "execution_agent_country"; type := "string"; comment := Some "Execution agent country" |}
    ; {| name := "broker_id"; type := "string"; comment := Some "Broker LEI" |}
    ; {| name := "broker_country"; type := "string"; comment := Some "Broker country" |}
    ; {| name := "trading_capacity"; type := "string"; comment := Some "PRINCIPAL or AGENT" |}
    ; {| name := "beneficiary_id"; type := "string"; comment := Some "Beneficiary LEI" |}
    ; {| name := "directly_linked_to_commercial_activity"; type := "boolean"; comment := Some "Commercial hedge" |}
    ; {| name := "collateralisation"; type := "string"; comment := Some "UNCOLLATERALISED, PARTIALLY, FULLY" |}
    ; {| name := "collateral_portfolio"; type := "boolean"; comment := Some "Portfolio-based collateral" |}
    (* ===== Valuation & Reporting (12 fields) ===== *)
    ; {| name := "valuation_amount"; type := "decimal(18,2)"; comment := Some "Mark-to-market valuation" |}
    ; {| name := "valuation_currency"; type := "string"; comment := Some "Valuation currency" |}
    ; {| name := "valuation_timestamp"; type := "timestamp"; comment := Some "Valuation timestamp" |}
    ; {| name := "valuation_method"; type := "string"; comment := Some "Valuation method" |}
    ; {| name := "delta"; type := "decimal(10,6)"; comment := Some "Option delta" |}
    ; {| name := "report_timestamp"; type := "timestamp"; comment := Some "Report submission timestamp" |}
    ; {| name := "report_status"; type := "string"; comment := Some "Report status" |}
    ; {| name := "level"; type := "string"; comment := Some "Reporting level: T=Trade, P=Position" |}
    ; {| name := "confirmation_means"; type := "string"; comment := Some "Confirmation method" |}
    ; {| name := "confirmation_timestamp"; type := "timestamp"; comment := Some "Confirmation timestamp" |}
    ; {| name := "prior_uti"; type := "string"; comment := Some "Prior UTI for lifecycle events" |}
    ; {| name := "subsequent_position"; type := "boolean"; comment := Some "Is subsequent position report" |}
    (* ===== Derivative Specifics - Options (10 fields) ===== *)
    ; {| name := "option_type"; type := "string"; comment := Some "CALL or PUT" |}
    ; {| name := "option_style"; type := "string"; comment := Some "EUROPEAN, AMERICAN, ASIAN, etc." |}
    ; {| name := "option_exercise_date"; type := "date"; comment := Some "Exercise date" |}
    ; {| name := "strike_price"; type := "decimal(18,6)"; comment := Some "Strike price" |}
    ; {| name := "strike_price_currency"; type := "string"; comment := Some "Strike price currency" |}
    ; {| name := "strike_price_notation"; type := "string"; comment := Some "Strike notation" |}
    ; {| name := "delivery_type"; type := "string"; comment := Some "CASH or PHYSICAL" |}
    ; {| name := "barrier_type"; type := "string"; comment := Some "Barrier option type" |}
    ; {| name := "barrier_level"; type := "decimal(18,6)"; comment := Some "Barrier level" |}
    ; {| name := "premium_amount"; type := "decimal(18,2)"; comment := Some "Option premium" |}
    (* ===== Derivative Specifics - Swaps Leg 1 (15 fields) ===== *)
    ; {| name := "leg1_fixed_rate"; type := "decimal(10,6)"; comment := Some "Leg 1 fixed rate" |}
    ; {| name := "leg1_floating_rate"; type := "string"; comment := Some "Leg 1 floating rate index" |}
    ; {| name := "leg1_floating_rate_term"; type := "string"; comment := Some "Leg 1 floating rate term" |}
    ; {| name := "leg1_floating_rate_reset_frequency"; type := "string"; comment := Some "Reset frequency" |}
    ; {| name := "leg1_payment_frequency"; type := "string"; comment := Some "Payment frequency" |}
    ; {| name := "leg1_payment_dates"; type := "string"; comment := Some "Payment dates" |}
    ; {| name := "leg1_spread"; type := "decimal(10,6)"; comment := Some "Leg 1 spread" |}
    ; {| name := "leg1_day_count_convention"; type := "string"; comment := Some "Day count convention" |}
    ; {| name := "leg1_notional_amount"; type := "decimal(18,2)"; comment := Some "Leg 1 notional" |}
    ; {| name := "leg1_notional_currency"; type := "string"; comment := Some "Leg 1 currency" |}
    ; {| name := "leg1_notional_schedule"; type := "string"; comment := Some "Notional schedule" |}
    ; {| name := "leg1_initial_exchange"; type := "boolean"; comment := Some "Initial notional exchange" |}
    ; {| name := "leg1_final_exchange"; type := "boolean"; comment := Some "Final notional exchange" |}
    ; {| name := "leg1_payer"; type := "string"; comment := Some "Leg 1 payer LEI" |}
    ; {| name := "leg1_receiver"; type := "string"; comment := Some "Leg 1 receiver LEI" |}
    (* ===== Derivative Specifics - Swaps Leg 2 (15 fields) ===== *)
    ; {| name := "leg2_fixed_rate"; type := "decimal(10,6)"; comment := Some "Leg 2 fixed rate" |}
    ; {| name := "leg2_floating_rate"; type := "string"; comment := Some "Leg 2 floating rate index" |}
    ; {| name := "leg2_floating_rate_term"; type := "string"; comment := Some "Leg 2 floating rate term" |}
    ; {| name := "leg2_floating_rate_reset_frequency"; type := "string"; comment := Some "Reset frequency" |}
    ; {| name := "leg2_payment_frequency"; type := "string"; comment := Some "Payment frequency" |}
    ; {| name := "leg2_payment_dates"; type := "string"; comment := Some "Payment dates" |}
    ; {| name := "leg2_spread"; type := "decimal(10,6)"; comment := Some "Leg 2 spread" |}
    ; {| name := "leg2_day_count_convention"; type := "string"; comment := Some "Day count convention" |}
    ; {| name := "leg2_notional_amount"; type := "decimal(18,2)"; comment := Some "Leg 2 notional" |}
    ; {| name := "leg2_notional_currency"; type := "string"; comment := Some "Leg 2 currency" |}
    ; {| name := "leg2_notional_schedule"; type := "string"; comment := Some "Notional schedule" |}
    ; {| name := "leg2_initial_exchange"; type := "boolean"; comment := Some "Initial notional exchange" |}
    ; {| name := "leg2_final_exchange"; type := "boolean"; comment := Some "Final notional exchange" |}
    ; {| name := "leg2_payer"; type := "string"; comment := Some "Leg 2 payer LEI" |}
    ; {| name := "leg2_receiver"; type := "string"; comment := Some "Leg 2 receiver LEI" |}
    (* ===== Margin & Collateral (12 fields) ===== *)
    ; {| name := "initial_margin_posted"; type := "decimal(18,2)"; comment := Some "Initial margin posted" |}
    ; {| name := "initial_margin_received"; type := "decimal(18,2)"; comment := Some "Initial margin received" |}
    ; {| name := "variation_margin_posted"; type := "decimal(18,2)"; comment := Some "Variation margin posted" |}
    ; {| name := "variation_margin_received"; type := "decimal(18,2)"; comment := Some "Variation margin received" |}
    ; {| name := "margin_currency"; type := "string"; comment := Some "Margin currency" |}
    ; {| name := "collateral_type"; type := "string"; comment := Some "Collateral type" |}
    ; {| name := "collateral_value"; type := "decimal(18,2)"; comment := Some "Collateral value" |}
    ; {| name := "collateral_currency"; type := "string"; comment := Some "Collateral currency" |}
    ; {| name := "segregation_type"; type := "string"; comment := Some "Segregation type" |}
    ; {| name := "excess_collateral"; type := "decimal(18,2)"; comment := Some "Excess collateral" |}
    ; {| name := "collateral_quality"; type := "string"; comment := Some "Collateral quality rating" |}
    ; {| name := "rehypothecation"; type := "boolean"; comment := Some "Rehypothecation allowed" |}
    (* ===== Risk & Regulatory (10 fields) ===== *)
    ; {| name := "exchange_rate"; type := "decimal(10,6)"; comment := Some "FX rate if applicable" |}
    ; {| name := "exchange_rate_basis"; type := "string"; comment := Some "Exchange rate basis" |}
    ; {| name := "package_indicator"; type := "boolean"; comment := Some "Part of package transaction" |}
    ; {| name := "package_transaction_price"; type := "decimal(18,6)"; comment := Some "Package price" |}
    ; {| name := "contingent_event"; type := "string"; comment := Some "Contingent event type" |}
    ; {| name := "compression_indicator"; type := "boolean"; comment := Some "Portfolio compression" |}
    ; {| name := "price_accuracy"; type := "string"; comment := Some "Price accuracy indicator" |}
    ; {| name := "execution_venue"; type := "string"; comment := Some "Execution venue type" |}
    ; {| name := "hybrid_indicator"; type := "boolean"; comment := Some "Hybrid instrument" |}
    ; {| name := "cross_currency_indicator"; type := "boolean"; comment := Some "Cross-currency swap" |}
    (* ===== Additional Fields (38 fields - remaining to reach 203) ===== *)
    ; {| name := "fixed_float_indicator"; type := "string"; comment := Some "Fixed or floating leg indicator" |}
    ; {| name := "fixed_rate_day_count"; type := "string"; comment := Some "Fixed rate day count" |}
    ; {| name := "floating_rate_day_count"; type := "string"; comment := Some "Floating rate day count" |}
    ; {| name := "embedded_option"; type := "boolean"; comment := Some "Embedded option indicator" |}
    ; {| name := "optional_termination_date"; type := "date"; comment := Some "Optional termination date" |}
    ; {| name := "spread_notation"; type := "string"; comment := Some "Spread notation" |}
    ; {| name := "index_factor"; type := "decimal(10,6)"; comment := Some "Index factor" |}
    ; {| name := "attachment_point"; type := "decimal(10,4)"; comment := Some "Attachment point" |}
    ; {| name := "detachment_point"; type := "decimal(10,4)"; comment := Some "Detachment point" |}
    ; {| name := "quantity"; type := "decimal(18,2)"; comment := Some "Contract quantity" |}
    ; {| name := "quantity_unit"; type := "string"; comment := Some "Quantity unit" |}
    ; {| name := "delivery_point"; type := "string"; comment := Some "Delivery location" |}
    ; {| name := "load_type"; type := "string"; comment := Some "Load type for energy" |}
    ; {| name := "delivery_start_date"; type := "date"; comment := Some "Delivery start" |}
    ; {| name := "delivery_end_date"; type := "date"; comment := Some "Delivery end" |}
    ; {| name := "duration"; type := "string"; comment := Some "Contract duration" |}
    ; {| name := "frequency"; type := "string"; comment := Some "General frequency" |}
    ; {| name := "commodity_base"; type := "string"; comment := Some "Commodity base type" |}
    ; {| name := "commodity_details"; type := "string"; comment := Some "Commodity details" |}
    ; {| name := "notional_amount_schedule"; type := "string"; comment := Some "Notional schedule" |}
    ; {| name := "step_up_step_down"; type := "boolean"; comment := Some "Step up/down indicator" |}
    ; {| name := "callable_puttable"; type := "string"; comment := Some "Callable or puttable" |}
    ; {| name := "knock_in_out"; type := "string"; comment := Some "Knock-in or knock-out" |}
    ; {| name := "reference_entity"; type := "string"; comment := Some "Credit reference entity LEI" |}
    ; {| name := "reference_obligation"; type := "string"; comment := Some "Reference obligation ISIN" |}
    ; {| name := "seniority"; type := "string"; comment := Some "Seniority of debt" |}
    ; {| name := "index_series"; type := "string"; comment := Some "Index series" |}
    ; {| name := "index_version"; type := "string"; comment := Some "Index version" |}
    ; {| name := "tranche"; type := "string"; comment := Some "Tranche identifier" |}
    ; {| name := "basket_identifier"; type := "string"; comment := Some "Basket identifier" |}
    ; {| name := "basket_constituents"; type := "string"; comment := Some "Basket constituents" |}
    ; {| name := "custom_basket"; type := "boolean"; comment := Some "Custom basket indicator" |}
    ; {| name := "settlement_location"; type := "string"; comment := Some "Settlement location" |}
    ; {| name := "transaction_id"; type := "string"; comment := Some "Internal transaction ID" |}
    ; {| name := "venue_transaction_id"; type := "string"; comment := Some "Venue transaction ID" |}
    ; {| name := "platform"; type := "string"; comment := Some "Trading platform" |}
    ; {| name := "taxonomy"; type := "string"; comment := Some "Product taxonomy version" |}
    ; {| name := "additional_data"; type := "string"; comment := Some "Additional data field" |}
  ].

(** [new CfnTable(this, 'TradesTable', {...})] in the constructor of
    [EmirGlueCatalog]; [account], the database name, the table name and
    the bucket name come from [config], [naming] and [rawDataBucket]. *)
Definition tradesTable (account dbName tblName bucketName : string) : CfnTable :=
  {| catalogId := account;
     databaseName := dbName;
     tableInput :=
       {| tableName := tblName;
          description := "EMIR REFIT trade data - 203 fields";
          tableType := "EXTERNAL_TABLE";
          location := "s3://" +:+ bucketName +:+ "/";
          columns := getEmirFieldSchema;
          partitionKeys :=
            [ {| name := "year"; type := "string"; comment := Some "Partition by year" |};
              {| name := "month"; type := "string"; comment := Some "Partition by month" |};
              {| name := "day"; type := "string"; comment := Some "Partition by day" |} ] |} |}.

(** The field names of a schema, in order. *)
Definition fieldNames (cols : list Column) : list string := map name cols.

(** The error the specification names for a rejected schema. *)
Inductive SchemaLoadError := SchemaLoadErr.

(** Modelled from the spec: the contract of [load], which the source does
    not have: a schema is accepted only when it has 203 fields with
    pairwise distinct names. *)
Definition load_contract (cols : list Column) : SchemaLoadError + list Column :=
  if bool_decide (length cols = 203%nat ∧ NoDup (fieldNames cols))
  then inr cols else inl SchemaLoadErr.

End GlueCatalog.

(* ===================================================================== *)
(** ** JavaScript numbers                                                 *)
(* ===================================================================== *)

Module JS.

(** A JavaScript number: a finite value, one of the two infinities, or
    NaN.  A finite value is a rational; zero stands for both zeros (the
    code modelled here divides by values that are not negative only).
    The operations of this module compute without rounding: they agree
    with the doubles of JavaScript as long as every result is a double,
    as for integers below [2^53]; comparisons are always exact. *)
Inductive number := Fin (q : Q) | PosInf | NegInf | NaN.

Definition of_Z (z : Z) : number := Fin (inject_Z z).
Definition of_N (n : N) : number := of_Z (Z.of_N n).

(** Sign of a finite value against zero. *)
Definition sign (q : Q) : comparison := (q ?= 0)%Q.

Definition neg (a : number) : number :=
  match a with
  | Fin x => Fin (- x)%Q
  | PosInf => NegInf
  | NegInf => PosInf
  | NaN => NaN
  end.

(** [a + b] *)
Definition add (a b : number) : number :=
  match a, b with
  | NaN, _ | _, NaN => NaN
  | Fin x, Fin y => Fin (x + y)%Q
  | PosInf, NegInf | NegInf, PosInf => NaN
  | PosInf, _ | _, PosInf => PosInf
  | NegInf, _ | _, NegInf => NegInf
  end.

(** [a - b] *)
Definition sub (a b : number) : number := add a (neg b).

(** An infinity with the sign of [s], NaN when [s] is zero. *)
Definition signed_inf (s : comparison) : number :=
  match s with Eq => NaN | Gt => PosInf | Lt => NegInf end.

(** [a * b] *)
Definition mul (a b : number) : number :=
  match a, b with
  | NaN, _ | _, NaN => NaN
  | Fin x, Fin y => Fin (x * y)%Q
  | Fin x, PosInf | PosInf, Fin x => signed_inf (sign x)
  | Fin x, NegInf | NegInf, Fin x => signed_inf (CompOpp (sign x))
  | PosInf, PosInf | NegInf, NegInf => PosInf
  | PosInf, NegInf | NegInf, PosInf => NegInf
  end.

(** [a / b]: a finite nonzero value over zero is an infinity of its
    sign, [0 / 0] is NaN. *)
Definition div (a b : number) : number :=
  match a, b with
  | NaN, _ | _, NaN => NaN
  | Fin x, Fin y =>
      if Qeq_bool y 0 then signed_inf (sign x) else Fin (x / y)%Q
  | Fin _, PosInf | Fin _, NegInf => Fin 0
  | PosInf, Fin y => if Qle_bool 0 y then PosInf else NegInf
  | NegInf, Fin y => if Qle_bool 0 y then NegInf else PosInf
  | _, _ => NaN
  end.

(** [a <= b]; every comparison with NaN is false. *)
Definition leb (a b : number) : bool :=
  match a, b with
  | NaN, _ | _, NaN => false
  | Fin x, Fin y => Qle_bool x y
  | NegInf, _ | _, PosInf => true
  | _, _ => false
  end.

(** [a >= b] *)
Definition geb (a b : number) : bool := leb b a.

(** [a < b] *)
Definition ltb (a b : number) : bool :=
  match a, b with
  | NaN, _ | _, NaN => false
  | _, _ => negb (leb b a)
  end.

(** [Math.max(a, b)]: NaN when an argument is NaN. *)
Definition Math_max (a b : number) : number :=
  match a, b with
  | NaN, _ | _, NaN => NaN
  | _, _ => if leb a b then b else a
  end.

(** Equality of numbers up to the representation of the rational. *)
Definition eqb (a b : number) : bool :=
  match a, b with
  | Fin x, Fin y => Qeq_bool x y
  | PosInf, PosInf | NegInf, NegInf => true
  | _, _ => false
  end.

End JS.

(* ===================================================================== *)
(** ** Phase 5: scoring ([emir-accuracy-report-guide.md])                 *)
(* ===================================================================== *)

Module Scoring.
Import JS.

(** The scoring code with the exact arithmetic of [JS]; [Scoring64] below
    is the same code with the arithmetic of doubles. *)

(** One element of [validationResults]: the code reads [errorCount] and
    [severity] of it.  [errorCount] is a count of records. *)
Record ValidationResult := {
  errorCount : N;
  severity : string;
}.

(** The body of the [forEach] callback: the new value of [totalPenalty]. *)
Definition applyPenalty (totalPenalty : number) (result : ValidationResult) : number :=
  if String.eqb (severity result) "CRITICAL" then
    add totalPenalty (mul (of_N (errorCount result)) (of_Z 10))
  else if String.eqb (severity result) "MAJOR" then
    add totalPenalty (mul (of_N (errorCount result)) (of_Z 5))
  else if String.eqb (severity result) "MINOR" then
    add totalPenalty (mul (of_N (errorCount result)) (of_Z 2))
  else totalPenalty.

(** [totalPenalty] after the [forEach] loop. *)
Definition totalPenalty (validationResults : list ValidationResult) : number :=
  fold_left applyPenalty validationResults (of_Z 0).

(** [calculateAccuracyScore(validationResults, totalRecords)]. *)
Definition calculateAccuracyScore
    (validationResults : list ValidationResult) (totalRecords : N) : number :=
  let maxPossibleScore := mul (of_N totalRecords) (of_Z 100) in
  let totalPenalty := totalPenalty validationResults in
  let accuracyScore :=
    Math_max (of_Z 0)
      (mul (div (sub maxPossibleScore totalPenalty) maxPossibleScore) (of_Z 100)) in
  accuracyScore.

(** The object returned by [getTrafficLightStatus]. *)
Record TrafficLight := {
  status : string;
  color : string;
  message : string;
}.

(** [getTrafficLightStatus(accuracyScore)]. *)
Definition getTrafficLightStatus (accuracyScore : number) : TrafficLight :=
  if geb accuracyScore (of_Z 95) then
    {| status := "GREEN"; color := "#28a745"; message := "Excellent" |}
  else if geb accuracyScore (of_Z 85) then
    {| status := "AMBER"; color := "#ffc107"; message := "Needs Attention" |}
  else
    {| status := "RED"; color := "#dc3545"; message := "Critical Issues" |}.

(** The integer the penalty loop computes: the weighted sum of the error
    counts (used to state facts about [totalPenalty]). *)
Definition weight (sev : string) : Z :=
  if String.eqb sev "CRITICAL" then 10
  else if String.eqb sev "MAJOR" then 5
  else if String.eqb sev "MINOR" then 2
  else 0.

Definition penaltySum (validationResults : list ValidationResult) : Z :=
  foldr (fun r acc => Z.of_N (errorCount r) * weight (severity r) + acc) 0 validationResults.

(** The overall score as the specification writes it: 100 minus the total
    penalty over [totalRecords * 100], times 100, clamped to [0, 100]. *)
Definition overall_score_formula (penalty totalRecords : Z) : Q :=
  Qmax 0 (Qmin 100
    (100 - inject_Z penalty / (inject_Z totalRecords * 100) * 100))%Q.

(** The second result set has, entry by entry, the same severity and an
    error count at least as large. *)
Definition dominates (vr1 vr2 : list ValidationResult) : Prop :=
  Forall2 (fun r1 r2 => severity r1 = severity r2 ∧ (errorCount r1 <= errorCount r2)%N) vr1 vr2.

End Scoring.

(* ===================================================================== *)
(** ** Binary64 arithmetic                                                *)
(* ===================================================================== *)

Module Binary64.
Import JS.

Definition pow2 (e : Z) : Q := (2 ^ e)%Q.

(** [floor (log2 x)] for a positive rational. *)
Definition floor_log2 (x : Q) : Z :=
  let k := Z.log2 (Qnum x) - Z.log2 (Zpos (Qden x)) in
  if Qle_bool (pow2 k) x then k else k - 1.

(** The nearest integer, a tie going to the even one. *)
Definition round_half_even (q : Q) : Z :=
  let f := Qfloor q in
  match (q - inject_Z f ?= 1 # 2)%Q with
  | Lt => f
  | Gt => f + 1
  | Eq => if Z.even f then f else f + 1
  end.

(** The exponent of the smallest subnormal double, [2^-1074]. *)
Definition emin : Z := -1074.

(** The exponent of the last place of the doubles around a positive [x]:
    53 bits of precision, and no finer than [2^emin]. *)
Definition quantum (x : Q) : Z := Z.max (floor_log2 x - 52) emin.

Definition round_pos (x : Q) : Q :=
  (inject_Z (round_half_even (x / pow2 (quantum x))) * pow2 (quantum x))%Q.

(** Round to nearest, ties to even, with the exponent unbounded above. *)
Definition round (x : Q) : Q :=
  match (x ?= 0)%Q with
  | Eq => 0%Q
  | Gt => round_pos x
  | Lt => (- round_pos (- x))%Q
  end.

(** The doubles are below [2^1024] in magnitude. *)
Definition emax : Z := 1024.

(** The double that stores the real result [x]: the nearest one, or an
    infinity when that is out of range. *)
Definition to_number (x : Q) : number :=
  let r := round x in
  if Qle_bool (pow2 emax) r then PosInf
  else if Qle_bool r (- pow2 emax) then NegInf
  else Fin r.

(** An integer as a number. *)
Definition of_Z (z : Z) : number := to_number (inject_Z z).
Definition of_N (n : N) : number := of_Z (Z.of_N n).

(** [a + b], [a - b], [a * b] and [a / b]: the exact result of finite
    operands is rounded; the other cases are those of [JS]. *)
Definition add (a b : number) : number :=
  match a, b with
  | Fin x, Fin y => to_number (x + y)
  | _, _ => JS.add a b
  end.

Definition sub (a b : number) : number :=
  match a, b with
  | Fin x, Fin y => to_number (x - y)
  | _, _ => JS.sub a b
  end.

Definition mul (a b : number) : number :=
  match a, b with
  | Fin x, Fin y => to_number (x * y)
  | _, _ => JS.mul a b
  end.

Definition div (a b : number) : number :=
  match a, b with
  | Fin x, Fin y => if Qeq_bool y 0 then JS.div a b else to_number (x / y)
  | _, _ => JS.div a b
  end.

(** [Math.floor(a)] *)
Definition Math_floor (a : number) : number :=
  match a with
  | Fin x => Fin (inject_Z (Qfloor x))
  | _ => a
  end.

End Binary64.

(* ===================================================================== *)
(** ** Phase 5: scoring, in binary64 arithmetic                           *)
(* ===================================================================== *)

Module Scoring64.
Import JS Scoring.

(** The body of the [forEach] callback with the arithmetic of doubles;
    the literals 10, 5 and 2 are doubles. *)
Definition applyPenalty (totalPenalty : number) (result : ValidationResult) : number :=
  if String.eqb (severity result) "CRITICAL" then
    Binary64.add totalPenalty (Binary64.mul (Binary64.of_N (errorCount result)) (of_Z 10))
  else if String.eqb (severity result) "MAJOR" then
    Binary64.add totalPenalty (Binary64.mul (Binary64.of_N (errorCount result)) (of_Z 5))
  else if String.eqb (severity result) "MINOR" then
    Binary64.add totalPenalty (Binary64.mul (Binary64.of_N (errorCount result)) (of_Z 2))
  else totalPenalty.

Definition totalPenalty (validationResults : list ValidationResult) : number :=
  fold_left applyPenalty validationResults (of_Z 0).

(** [calculateAccuracyScore(validationResults, totalRecords)] with the
    arithmetic of doubles. *)
Definition calculateAccuracyScore
    (validationResults : list ValidationResult) (totalRecords : N) : number :=
  let maxPossibleScore := Binary64.mul (Binary64.of_N totalRecords) (of_Z 100) in
  let totalPenalty := totalPenalty validationResults in
  let accuracyScore :=
    Math_max (of_Z 0)
      (Binary64.mul
         (Binary64.div (Binary64.sub maxPossibleScore totalPenalty) maxPossibleScore)
         (of_Z 100)) in
  accuracyScore.

(** The two roundings of the score: of the quotient, and of its product
    with 100. *)
Definition rounded_score (x : Q) : Q :=
  Binary64.round (Binary64.round x * inject_Z 100).

End Scoring64.

(* ===================================================================== *)
(** ** SQL values and conditions                                          *)
(* ===================================================================== *)

Module Sql.

(** A SQL condition is TRUE, FALSE or NULL (unknown). *)
Definition tv := option bool.

Definition TRUE : tv := Some true.
Definition FALSE : tv := Some false.
Definition UNKNOWN : tv := None.

(** [a AND b] *)
Definition and3 (a b : tv) : tv :=
  match a, b with
  | Some false, _ | _, Some false => Some false
  | Some true, Some true => Some true
  | _, _ => None
  end.

(** [a OR b] *)
Definition or3 (a b : tv) : tv :=
  match a, b with
  | Some true, _ | _, Some true => Some true
  | Some false, Some false => Some false
  | _, _ => None
  end.

(** [NOT a] *)
Definition not3 (a : tv) : tv := negb <$> a.

(** [x IS NULL] and [x IS NOT NULL] are never unknown. *)
Definition is_null {A} (x : option A) : tv :=
  Some (match x with None => true | Some _ => false end).
Definition is_not_null {A} (x : option A) : tv :=
  Some (match x with None => false | Some _ => true end).

(** A comparison of two values: NULL when an operand is NULL. *)
Definition cmp {A} (f : A → A → bool) (x y : option A) : tv :=
  match x, y with
  | Some a, Some b => Some (f a b)
  | _, _ => None
  end.

(** A row passes [WHERE c] (or [HAVING c]) only when [c] is TRUE. *)
Definition holds (c : tv) : bool :=
  match c with Some true => true | _ => false end.

(** [COALESCE(x, d)] *)
Definition coalesce {A} (x : option A) (d : A) : A :=
  match x with Some a => a | None => d end.

(** [GREATEST(a, b)] on integers. *)
Definition greatest (a b : Z) : Z := Z.max a b.

(** [CASE WHEN c THEN a ELSE b END] *)
Definition case_when {A} (c : tv) (a b : A) : A := if holds c then a else b.

End Sql.

Infix "AND" := Sql.and3 (at level 72, right associativity, only parsing).
Infix "OR" := Sql.or3 (at level 74, right associativity, only parsing).

(* ===================================================================== *)
(** ** Findings                                                           *)
(* ===================================================================== *)

Inductive Phase := COMPLETENESS | FORMAT | LOGICAL.
Inductive Severity := CRITICAL | MAJOR | MINOR.

Global Instance Phase_eq_dec : EqDecision Phase.
Proof. solve_decision. Defined.
Global Instance Severity_eq_dec : EqDecision Severity.
Proof. solve_decision. Defined.

(** Section 5.1 of the guide: critical errors cost 10 points each, major
    errors 5, minor errors 2. *)
Definition severity_weight (s : Severity) : Z :=
  match s with CRITICAL => 10 | MAJOR => 5 | MINOR => 2 end.

(** The severity strings the scoring code compares with. *)
Definition severity_name (s : Severity) : string :=
  match s with CRITICAL => "CRITICAL" | MAJOR => "MAJOR" | MINOR => "MINOR" end.

(** One validation finding on one record.  [recordId] is the record's
    [uti] (NULL when the record has none); [fieldName] is absent for a
    rule on the whole record. *)
Record Finding := {
  recordId : option string;
  fieldName : option string;
  phase : Phase;
  ruleId : string;
  severity : Severity;
}.

(* ===================================================================== *)
(** ** The trade table [emir_trades]                                      *)
(* ===================================================================== *)

Module Trades.

(** A [timestamp] is a number of milliseconds and a [date] a number of
    days since the epoch. *)
Definition timestamp := Z.
Definition date := Z.

(** A date compared with a timestamp is coerced to midnight of that day. *)
Definition date_to_timestamp (d : date) : timestamp := d * 86400000.

(** The calendar day that a timestamp falls on. *)
Definition timestamp_to_date (ts : timestamp) : date := ts / 86400000.

(** [DATE_DIFF('day', a, b)]: whole days from [a] to [b], rounded towards
    zero. *)
Definition date_diff_day (a b : timestamp) : Z := Z.quot (b - a) 86400000.

(** A row of [emir_trades] within the partition of one report date: the
    columns that the validation and scoring queries read, with the type
    the Glue table declares for each (a [decimal] as a rational). *)
Record Trade := {
  uti : option string;
  report_tracking_number : option string;
  counterparty_1 : option string;
  counterparty_2 : option string;
  report_submitting_entity_id : option string;
  entity_responsible_reporting : option string;
  action_type : option string;
  event_type : option string;
  event_date : option date;
  execution_timestamp : option timestamp;
  effective_date : option date;
  expiration_date : option date;
  early_termination_date : option date;
  direction : option string;
  isin : option string;
  upi : option string;
  asset_class : option string;
  product_classification : option string;
  notional_currency_1 : option string;
  notional_amount_1 : option Q;
  cleared : option bool;
  central_counterparty : option string;
  clearing_timestamp : option timestamp;
  clearing_obligation : option bool;
  valuation_amount : option Q;
  valuation_currency : option string;
}.

(** A trade of report date 2025-09-25 that is complete and consistent:
    executed on the report date at 10:30, cleared an hour later,
    effective the next day, expiring a year after that. *)
Definition sample_trade : Trade :=
  {| uti := Some "UTI2025092500000001";
     report_tracking_number := Some "RTN0001";
     counterparty_1 := Some "5493001KJTIIGC8Y1R12";
     counterparty_2 := Some "549300E9PC51EN656011";
     report_submitting_entity_id := Some "5493001KJTIIGC8Y1R12";
     entity_responsible_reporting := Some "5493001KJTIIGC8Y1R12";
     action_type := Some "NEW";
     event_type := Some "TRADE";
     event_date := Some 20356;
     execution_timestamp := Some (20356 * 86400000 + 37800000);
     effective_date := Some 20357;
     expiration_date := Some 20722;
     early_termination_date := None;
     direction := Some "BUY";
     isin := Some "DE000A1EWWW0";
     upi := None;
     asset_class := Some "EQUITY";
     product_classification := Some "FFSCSX";
     notional_currency_1 := Some "EUR";
     notional_amount_1 := Some (inject_Z 1000000);
     cleared := Some true;
     central_counterparty := Some "529900LN3S50JPU47S06";
     clearing_timestamp := Some (20356 * 86400000 + 41400000);
     clearing_obligation := Some true;
     valuation_amount := Some (inject_Z 1000500);
     valuation_currency := Some "EUR" |}.

(** Copies of a row with one column replaced. *)
Definition set_uti (v : option string) (t : Trade) : Trade :=
  {| uti := v;
     report_tracking_number := report_tracking_number t;
     counterparty_1 := counterparty_1 t;
     counterparty_2 := counterparty_2 t;
     report_submitting_entity_id := report_submitting_entity_id t;
     entity_responsible_reporting := entity_responsible_reporting t;
     action_type := action_type t;
     event_type := event_type t;
     event_date := event_date t;
     execution_timestamp := execution_timestamp t;
     effective_date := effective_date t;
     expiration_date := expiration_date t;
     early_termination_date := early_termination_date t;
     direction := direction t;
     isin := isin t;
     upi := upi t;
     asset_class := asset_class t;
     product_classification := product_classification t;
     notional_currency_1 := notional_currency_1 t;
     notional_amount_1 := notional_amount_1 t;
     cleared := cleared t;
     central_counterparty := central_counterparty t;
     clearing_timestamp := clearing_timestamp t;
     clearing_obligation := clearing_obligation t;
     valuation_amount := valuation_amount t;
     valuation_currency := valuation_currency t |}.

Definition set_counterparty_1 (v : option string) (t : Trade) : Trade :=
  {| uti := uti t;
     report_tracking_number := report_tracking_number t;
     counterparty_1 := v;
     counterparty_2 := counterparty_2 t;
     report_submitting_entity_id := report_submitting_entity_id t;
     entity_responsible_reporting := entity_responsible_reporting t;
     action_type := action_type t;
     event_type := event_type t;
     event_date := event_date t;
     execution_timestamp := execution_timestamp t;
     effective_date := effective_date t;
     expiration_date := expiration_date t;
     early_termination_date := early_termination_date t;
     direction := direction t;
     isin := isin t;
     upi := upi t;
     asset_class := asset_class t;
     product_classification := product_classification t;
     notional_currency_1 := notional_currency_1 t;
     notional_amount_1 := notional_amount_1 t;
     cleared := cleared t;
     central_counterparty := central_counterparty t;
     clearing_timestamp := clearing_timestamp t;
     clearing_obligation := clearing_obligation t;
     valuation_amount := valuation_amount t;
     valuation_currency := valuation_currency t |}.

Definition set_execution_timestamp (v : option timestamp) (t : Trade) : Trade :=
  {| uti := uti t;
     report_tracking_number := report_tracking_number t;
     counterparty_1 := counterparty_1 t;
     counterparty_2 := counterparty_2 t;
     report_submitting_entity_id := report_submitting_entity_id t;
     entity_responsible_reporting := entity_responsible_reporting t;
     action_type := action_type t;
     event_type := event_type t;
     event_date := event_date t;
     execution_timestamp := v;
     effective_date := effective_date t;
     expiration_date := expiration_date t;
     early_termination_date := early_termination_date t;
     direction := direction t;
     isin := isin t;
     upi := upi t;
     asset_class := asset_class t;
     product_classification := product_classification t;
     notional_currency_1 := notional_currency_1 t;
     notional_amount_1 := notional_amount_1 t;
     cleared := cleared t;
     central_counterparty := central_counterparty t;
     clearing_timestamp := clearing_timestamp t;
     clearing_obligation := clearing_obligation t;
     valuation_amount := valuation_amount t;
     valuation_currency := valuation_currency t |}.

Definition set_clearing_timestamp (v : option timestamp) (t : Trade) : Trade :=
  {| uti := uti t;
     report_tracking_number := report_tracking_number t;
     counterparty_1 := counterparty_1 t;
     counterparty_2 := counterparty_2 t;
     report_submitting_entity_id := report_submitting_entity_id t;
     entity_responsible_reporting := entity_responsible_reporting t;
     action_type := action_type t;
     event_type := event_type t;
     event_date := event_date t;
     execution_timestamp := execution_timestamp t;
     effective_date := effective_date t;
     expiration_date := expiration_date t;
     early_termination_date := early_termination_date t;
     direction := direction t;
     isin := isin t;
     upi := upi t;
     asset_class := asset_class t;
     product_classification := product_classification t;
     notional_currency_1 := notional_currency_1 t;
     notional_amount_1 := notional_amount_1 t;
     cleared := cleared t;
     central_counterparty := central_counterparty t;
     clearing_timestamp := v;
     clearing_obligation := clearing_obligation t;
     valuation_amount := valuation_amount t;
     valuation_currency := valuation_currency t |}.

Definition set_valuation_currency (v : option string) (t : Trade) : Trade :=
  {| uti := uti t;
     report_tracking_number := report_tracking_number t;
     counterparty_1 := counterparty_1 t;
     counterparty_2 := counterparty_2 t;
     report_submitting_entity_id := report_submitting_entity_id t;
     entity_responsible_reporting := entity_responsible_reporting t;
     action_type := action_type t;
     event_type := event_type t;
     event_date := event_date t;
     execution_timestamp := execution_timestamp t;
     effective_date := effective_date t;
     expiration_date := expiration_date t;
     early_termination_date := early_termination_date t;
     direction := direction t;
     isin := isin t;
     upi := upi t;
     asset_class := asset_class t;
     product_classification := product_classification t;
     notional_currency_1 := notional_currency_1 t;
     notional_amount_1 := notional_amount_1 t;
     cleared := cleared t;
     central_counterparty := central_counterparty t;
     clearing_timestamp := clearing_timestamp t;
     clearing_obligation := clearing_obligation t;
     valuation_amount := valuation_amount t;
     valuation_currency := v |}.

End Trades.

(* ===================================================================== *)
(** ** Phase 2: completeness                                              *)
(* ===================================================================== *)

Module Completeness.
Import Sql Trades.

(** The condition of query 2.1, [(x IS NULL OR x = '')]: a text column is
    missing when it is NULL or the empty string. *)
Definition missing (x : option string) : tv :=
  is_null x OR cmp String.eqb x (Some "").

(** A mandatory field of section 2.1: its rule, the condition under which
    it is missing on a row, and the severity of the gap. *)
Record Mandatory := {
  field : string;
  rule : string;
  is_missing : Trade → tv;
  gap_severity : Severity;
}.

(** The mandatory fields of section 2.1.  Section 5.1 makes missing
    identifiers and a missing action or event type critical.
    Modelled from the spec: the guide gives no severity for the other
    mandatory fields; the specification makes them MAJOR. *)
Definition mandatory_fields : list Mandatory :=
  [ {| field := "uti"; rule := "MISSING_UTI";
       is_missing := λ t, missing (uti t); gap_severity := CRITICAL |};
    {| field := "report_tracking_number"; rule := "MISSING_REPORT_TRACKING_NUMBER";
       is_missing := λ t, missing (report_tracking_number t); gap_severity := CRITICAL |};
    {| field := "counterparty_1"; rule := "MISSING_COUNTERPARTY_1";
       is_missing := λ t, missing (counterparty_1 t); gap_severity := CRITICAL |};
    {| field := "counterparty_2"; rule := "MISSING_COUNTERPARTY_2";
       is_missing := λ t, missing (counterparty_2 t); gap_severity := CRITICAL |};
    {| field := "report_submitting_entity_id"; rule := "MISSING_REPORT_SUBMITTING_ENTITY_ID";
       is_missing := λ t, missing (report_submitting_entity_id t); gap_severity := CRITICAL |};
    {| field := "entity_responsible_reporting"; rule := "MISSING_ENTITY_RESPONSIBLE_REPORTING";
       is_missing := λ t, missing (entity_responsible_reporting t); gap_severity := CRITICAL |};
    {| field := "action_type"; rule := "MISSING_ACTION_TYPE";
       is_missing := λ t, missing (action_type t); gap_severity := CRITICAL |};
    {| field := "event_type"; rule := "MISSING_EVENT_TYPE";
       is_missing := λ t, missing (event_type t); gap_severity := CRITICAL |};
    {| field := "event_date"; rule := "MISSING_EVENT_DATE";
       is_missing := λ t, is_null (event_date t); gap_severity := MAJOR |};
    {| field := "execution_timestamp"; rule := "MISSING_EXECUTION_TIMESTAMP";
       is_missing := λ t, is_null (execution_timestamp t); gap_severity := MAJOR |};
    {| field := "direction"; rule := "MISSING_DIRECTION";
       is_missing := λ t, missing (direction t); gap_severity := MAJOR |};
    {| field := "isin"; rule := "MISSING_ISIN";
       is_missing := λ t, missing (isin t) AND missing (upi t); gap_severity := MAJOR |};
    {| field := "asset_class"; rule := "MISSING_ASSET_CLASS";
       is_missing := λ t, missing (asset_class t); gap_severity := MAJOR |};
    {| field := "product_classification"; rule := "MISSING_PRODUCT_CLASSIFICATION";
       is_missing := λ t, missing (product_classification t); gap_severity := MAJOR |} ].

(** The completeness findings of one row: one per mandatory field whose
    missing-condition is TRUE on the row. *)
Definition completeness_validator (t : Trade) : list Finding :=
  map (λ m, {| recordId := uti t; fieldName := Some (field m);
               phase := COMPLETENESS; ruleId := rule m;
               severity := gap_severity m |})
      (List.filter (λ m, holds (is_missing m t)) mandatory_fields).

(** Query 2.1 for one text column: the number of rows of the partition
    where the column is missing. *)
Definition missing_count (col : Trade → option string) (rows : list Trade) : nat :=
  length (List.filter (λ t, holds (missing (col t))) rows).

(** Every mandatory field other than [name] is present on the row. *)
Definition complete_except (name : string) (t : Trade) : bool :=
  forallb (λ m, String.eqb (field m) name || negb (holds (is_missing m t)))
          mandatory_fields.

End Completeness.

(* ===================================================================== *)
(** ** Phase 3: format validation, UTI uniqueness                         *)
(* ===================================================================== *)

Module Format.
Import Sql Trades.

(** [GROUP BY uti] with [COUNT( * )] over the rows where [uti IS NOT NULL]:
    the number of rows of each UTI value. *)
Definition uti_counts (rows : list Trade) : gmap string nat :=
  foldr (λ t m, match uti t with
                | Some u => <[u := S (default 0%nat (m !! u))]> m
                | None => m
                end) ∅ rows.

(** Query 3.1, UTI uniqueness check: the groups [HAVING COUNT( * ) > 1].
    Each result row is [(uti, duplicate_count)]; a map has one row per UTI
    value and no row order, as the query's result. *)
Definition uti_uniqueness_check (rows : list Trade) : gmap string nat :=
  filter (λ g, (1 < g.2)%nat) (uti_counts rows).

(** One finding per result row of the uniqueness check, carrying the UTI
    value of the group.
    Modelled from the spec: the guide gives the query and no severity or
    rule name for it; the specification makes a duplicate a MAJOR finding
    of the FORMAT phase. *)
Definition duplicate_finding (g : string * nat) : Finding :=
  {| recordId := Some g.1; fieldName := Some "uti"; phase := FORMAT;
     ruleId := "UTI_DUPLICATE"; severity := MAJOR |}.

Definition duplicate_findings (rows : list Trade) : list Finding :=
  duplicate_finding <$> map_to_list (uti_uniqueness_check rows).

(** The number of rows of the batch that carry the UTI value [u]. *)
Definition occurrences (u : string) (rows : list Trade) : nat :=
  length (filter (λ t, uti t = Some u) rows).


End Format.

(* ===================================================================== *)
(** ** Phase 4: logical validation                                        *)
(* ===================================================================== *)

Module Logical.
Import Sql Trades.

Definition Qltb (x y : Q) : bool := negb (Qle_bool y x).
Definition Qgtb (x y : Q) : bool := Qltb y x.

(** [ABS(DATE_DIFF('day', a, b))] on nullable timestamps. *)
Definition abs_date_diff_day (a b : option timestamp) : option Z :=
  match a, b with
  | Some x, Some y => Some (Z.abs (date_diff_day x y))
  | _, _ => None
  end.

(** The WHERE condition of the date sequence query
    ([error_type = 'DATE_SEQUENCE_ERROR']). *)
Definition date_sequence_error (t : Trade) : tv :=
  (* Execution must be before or equal to effective date *)
  cmp Z.gtb (execution_timestamp t) (date_to_timestamp <$> effective_date t)
  (* Effective date must be before expiration *)
  OR cmp Z.gtb (effective_date t) (expiration_date t)
  (* Early termination must be before expiration *)
  OR (is_not_null (early_termination_date t)
      AND cmp Z.geb (early_termination_date t) (expiration_date t))
  (* Clearing timestamp should be near execution timestamp *)
  OR (cmp Bool.eqb (cleared t) (Some true)
      AND is_not_null (clearing_timestamp t)
      AND cmp Z.gtb (abs_date_diff_day (execution_timestamp t) (clearing_timestamp t))
                    (Some 5)).

(** The WHERE condition of the clearing obligation query
    ([error_type = 'CLEARING_LOGIC_ERROR']). *)
Definition clearing_logic_error (t : Trade) : tv :=
  (cmp Bool.eqb (cleared t) (Some true)
   AND (is_null (central_counterparty t)
        OR cmp String.eqb (central_counterparty t) (Some "")))
  OR (cmp Bool.eqb (cleared t) (Some true) AND is_null (clearing_timestamp t))
  OR (cmp Bool.eqb (clearing_obligation t) (Some true)
      AND cmp Bool.eqb (cleared t) (Some false)).

(** The WHERE condition of the notional/valuation consistency query. *)
Definition notional_valuation_inconsistent (t : Trade) : tv :=
  (* Notional amount exists but currency missing *)
  (is_not_null (notional_amount_1 t) AND is_null (notional_currency_1 t))
  (* Notional currency exists but amount missing *)
  OR (is_null (notional_amount_1 t) AND is_not_null (notional_currency_1 t))
  (* Unrealistic values *)
  OR (cmp Qltb (notional_amount_1 t) (Some (inject_Z 0)))
  OR (cmp Qgtb (notional_amount_1 t) (Some (inject_Z 1000000000000)))
  (* Valuation inconsistencies *)
  OR (is_not_null (valuation_amount t) AND is_null (valuation_currency t)).

(** A logical rule: identifier, severity and WHERE condition. *)
Record Rule := {
  rule_id : string;
  rule_severity : Severity;
  condition : Trade → tv;
}.

(** The cross-field rules.  The guide's storage pattern makes the date
    sequence rule CRITICAL.
    Modelled from the spec: the guide names no severity for the clearing
    and notional queries and no rule name for the notional query; the
    specification makes both MAJOR. *)
Definition date_sequence_rule : Rule :=
  {| rule_id := "DATE_SEQUENCE_ERROR"; rule_severity := CRITICAL;
     condition := date_sequence_error |}.

Definition clearing_rule : Rule :=
  {| rule_id := "CLEARING_LOGIC_ERROR"; rule_severity := MAJOR;
     condition := clearing_logic_error |}.

Definition notional_rule : Rule :=
  {| rule_id := "NOTIONAL_CONSISTENCY"; rule_severity := MAJOR;
     condition := notional_valuation_inconsistent |}.

Definition rules : list Rule :=
  [ date_sequence_rule; clearing_rule; notional_rule ].

(** The finding of a rule on a row. *)
Definition finding_of (r : Rule) (t : Trade) : Finding :=
  {| recordId := uti t; fieldName := None; phase := LOGICAL;
     ruleId := rule_id r; severity := rule_severity r |}.

(** The logical findings of one row: one per rule whose condition is TRUE
    on the row. *)
Definition logical_validator (t : Trade) : list Finding :=
  map (λ r, finding_of r t) (List.filter (λ r, holds (condition r t)) rules).

(** The findings of one rule among a list of findings. *)
Definition of_rule (id : string) (fs : list Finding) : list Finding :=
  List.filter (λ f, String.eqb (ruleId f) id) fs.

(** [x] and [y] are both present and [rel x y] holds. *)
Definition both (rel : Z → Z → bool) (x y : option Z) : bool :=
  match x, y with
  | Some a, Some b => rel a b
  | _, _ => false
  end.

(** The ordering of the dates in the specification's words,
    "executionTimestamp <= effectiveDate <= expirationDate;
    earlyTerminationDate (if present) < expirationDate", violated: the
    trade was executed on a day after its effective date, or the
    effective date is later than the expiration date, or an early
    termination date is present and not before the expiration date.  A
    comparison with an absent date is not a violation. *)
Definition temporal_order_violated (t : Trade) : bool :=
  both Z.gtb (timestamp_to_date <$> execution_timestamp t) (effective_date t)
  || both Z.gtb (effective_date t) (expiration_date t)
  || both Z.geb (early_termination_date t) (expiration_date t).

(** The trade was executed on its effective date, after 00:00. *)
Definition executed_during_effective_date (t : Trade) : bool :=
  match execution_timestamp t, effective_date t with
  | Some e, Some d => (timestamp_to_date e =? d) && (date_to_timestamp d <? e)
  | _, _ => false
  end.

(** The trade is cleared and its clearing timestamp is more than 5 days
    away from its execution timestamp. *)
Definition clearing_far_from_execution (t : Trade) : bool :=
  match cleared t, execution_timestamp t, clearing_timestamp t with
  | Some true, Some e, Some c => Z.gtb (Z.abs (date_diff_day e c)) 5
  | _, _, _ => false
  end.

Definition present {A} (x : option A) : bool :=
  match x with Some _ => true | None => false end.

(** A text value is there: it is neither NULL nor the empty string, the
    two cases that the completeness query counts as missing. *)
Definition text_present (x : option string) : bool :=
  negb (holds (Completeness.missing x)).

(** The notional rule in the specification's words, "amount present
    implies currency present and vice versa; amount must be within
    [0, 1e12]", violated. *)
Definition notional_inconsistent (t : Trade) : bool :=
  (present (notional_amount_1 t) && negb (text_present (notional_currency_1 t)))
  || (negb (present (notional_amount_1 t)) && text_present (notional_currency_1 t))
  || match notional_amount_1 t with
     | Some a => Qltb a (inject_Z 0) || Qltb (inject_Z 1000000000000) a
     | None => false
     end.

(** The valuation amount is present without the valuation currency. *)
Definition valuation_without_currency (t : Trade) : bool :=
  present (valuation_amount t) && negb (text_present (valuation_currency t)).

End Logical.

(* ===================================================================== *)
(** ** Phase 5: per-record scores ([emir_record_scores])                  *)
(* ===================================================================== *)

Module RecordScores.
Import Sql Trades.

(** Modelled from the spec: the tables [format_errors] and
    [logical_errors] that the record-score query joins are not defined in
    the guide.  Following the specification, such a table holds, for each
    UTI with findings of the phase, the sum of the severity weights of
    those findings in its column [penalty_points]. *)
Definition penalty_table (ph : Phase) (findings : list Finding) : gmap string Z :=
  foldr (λ f m,
           if decide (phase f = ph) then
             match recordId f with
             | Some u => <[u := severity_weight (severity f) + default 0 (m !! u)]> m
             | None => m
             end
           else m) ∅ findings.

(** [LEFT JOIN tbl ON t.uti = tbl.uti], read at [tbl.penalty_points]: NULL
    when the row's [uti] is NULL or has no row in [tbl]. *)
Definition joined_penalty_points (tbl : gmap string Z) (t : Trade) : option Z :=
  match uti t with
  | Some u => tbl !! u
  | None => None
  end.

(** [CASE WHEN x IS NULL THEN 10 ELSE 0 END] *)
Definition null_penalty {A} (x : option A) : Z := case_when (is_null x) 10 0.

(** A row of [emir_record_scores]. *)
Record ScoreRow := {
  score_uti : option string;
  total_penalty : Z;
  accuracy_score : Z;
}.

(** The SELECT list of the record-score query on one row of
    [emir_trades] joined with the two penalty tables.  The score column
    repeats the penalty sum (the guide abbreviates the repetition). *)
Definition record_score (fmt log : gmap string Z) (t : Trade) : ScoreRow :=
  let penalty :=
    (* Completeness errors *)
    null_penalty (uti t) + null_penalty (counterparty_1 t) + null_penalty (action_type t)
    (* Format errors *)
    + coalesce (joined_penalty_points fmt t) 0
    (* Logical errors *)
    + coalesce (joined_penalty_points log t) 0 in
  {| score_uti := uti t;
     total_penalty := penalty;
     accuracy_score := greatest 0 (100 - penalty) |}.

(** [CREATE TABLE emir_record_scores AS SELECT ...] over the partition. *)
Definition emir_record_scores (rows : list Trade) (findings : list Finding) : list ScoreRow :=
  map (record_score (penalty_table FORMAT findings) (penalty_table LOGICAL findings)) rows.

(** [clamp(x, lo, hi)] as the specification writes the record score. *)
Definition clamp (x lo hi : Z) : Z := Z.max lo (Z.min x hi).

(** The completeness finding for a missing [counterparty_1]. *)
Definition missing_counterparty_1 (t : Trade) : Finding :=
  {| recordId := uti t; fieldName := Some "counterparty_1";
     phase := COMPLETENESS; ruleId := "MISSING_COUNTERPARTY_1";
     severity := CRITICAL |}.

End RecordScores.

(* ===================================================================== *)
(** ** The pipeline state machine                                         *)
(* ===================================================================== *)

Module Pipeline.

(** Modelled from the spec: the repository contains no state machine
    (the stack lists the Step Functions pipeline among its future
    phases), so the orchestrator follows section 4.6 of the
    specification.  A phase is retried up to 3 times before it is
    declared failed: [Running n] is the attempt after [n] retries of a
    branch of the parallel state, [Exhausted] a branch that has failed
    with its retries used up. *)
Inductive BranchState :=
  | Running (retries : nat)
  | Succeeded
  | Exhausted.

(** Modelled from the spec: the states
    INITIATED, COMPLETENESS, FORMAT_AND_LOGICAL (parallel), SCORING,
    COMPLETED and FAILED; a phase outside the parallel state carries the
    number of its retries. *)
Inductive State :=
  | INITIATED
  | COMPLETENESS (retries : nat)
  | FORMAT_AND_LOGICAL (format logical : BranchState)
  | SCORING (retries : nat)
  | COMPLETED
  | FAILED.

Global Instance BranchState_eq_dec : EqDecision BranchState.
Proof. solve_decision. Defined.
Global Instance State_eq_dec : EqDecision State.
Proof. solve_decision. Defined.

Definition maxRetries : nat := 3.

(** Modelled from the spec: what one branch can do next: succeed, fail
    and be retried, or fail with the retries used up. *)
Definition branch_next (b : BranchState) : list BranchState :=
  match b with
  | Running n =>
      Succeeded :: (if (n <? maxRetries)%nat then [Running (S n)] else [Exhausted])
  | Succeeded => []
  | Exhausted => []
  end.

Definition exhausted (b : BranchState) : bool :=
  match b with Exhausted => true | _ => false end.

Definition succeeded (b : BranchState) : bool :=
  match b with Succeeded => true | _ => false end.

(** Modelled from the spec: a phase outside the parallel state goes on to
    [ok] on success and is retried while it has retries left; FAILED is
    reachable from any state that is not terminal. *)
Definition phase_next (n : nat) (again : nat → State) (ok : State) : list State :=
  ok :: (if (n <? maxRetries)%nat then [again (S n)] else []) ++ [FAILED].

(** Modelled from the spec: the transitions.
    INITIATED -> COMPLETENESS -> FORMAT_AND_LOGICAL -> SCORING -> COMPLETED.
    In the parallel state the two branches advance independently;
    the state proceeds to SCORING only once both branches have reported
    success; FAILED is reachable from any state that is not terminal. *)
Definition next (s : State) : list State :=
  match s with
  | INITIATED => [COMPLETENESS 0; FAILED]
  | COMPLETENESS n =>
      phase_next n COMPLETENESS (FORMAT_AND_LOGICAL (Running 0) (Running 0))
  | FORMAT_AND_LOGICAL f l =>
      (if succeeded f && succeeded l then [SCORING 0] else [])
      ++ [FAILED]
      ++ ((λ f', FORMAT_AND_LOGICAL f' l) <$> branch_next f)
      ++ ((λ l', FORMAT_AND_LOGICAL f l') <$> branch_next l)
  | SCORING n => phase_next n SCORING COMPLETED
  | COMPLETED => []
  | FAILED => []
  end.

(** One transition. *)
Definition step (s s' : State) : Prop := s' ∈ next s.

Definition stepb (s s' : State) : bool := bool_decide (s' ∈ next s).

(** A run: a sequence of states that begins at [INITIATED] and follows
    the transitions. *)
Fixpoint chain (s : State) (rest : list State) : bool :=
  match rest with
  | [] => true
  | s' :: rest' => stepb s s' && chain s' rest'
  end.

Definition is_run (tr : list State) : bool :=
  match tr with
  | [] => false
  | s :: rest => bool_decide (s = INITIATED) && chain s rest
  end.

Definition is_completeness (s : State) : bool :=
  match s with COMPLETENESS _ => true | _ => false end.

Definition is_validation (s : State) : bool :=
  match s with FORMAT_AND_LOGICAL _ _ => true | _ => false end.

Definition is_scoring (s : State) : bool :=
  match s with SCORING _ => true | _ => false end.

(** The state has a branch that failed with its retries used up. *)
Definition branch_failed (s : State) : bool :=
  match s with
  | FORMAT_AND_LOGICAL f l => exhausted f || exhausted l
  | _ => false
  end.

(** The synchronisation barrier: both branches have reported success. *)
Definition barrier : State := FORMAT_AND_LOGICAL Succeeded Succeeded.

(** The run has not gone past the completeness phase. *)
Definition before_validation (s : State) : bool :=
  match s with INITIATED | COMPLETENESS _ => true | _ => false end.

(** The run has not gone past the parallel state. *)
Definition before_scoring (s : State) : bool :=
  match s with
  | INITIATED | COMPLETENESS _ | FORMAT_AND_LOGICAL _ _ => true
  | _ => false
  end.

(** The run has gone past the scoring phase, or has failed. *)
Definition after_scoring (s : State) : bool :=
  match s with COMPLETED | FAILED => true | _ => false end.

End Pipeline.

(* ===================================================================== *)
(** ** Regular expressions of the format queries                          *)
(* ===================================================================== *)

Module Regex.

(** The patterns of the guide's queries are anchored at the start and are
    sequences of items [c{n}], where [c] is a literal character, [\d],
    [[A-Z]] or [[A-Z0-9]]. *)
Inductive CharClass :=
  | Literal (c : Ascii.ascii)
  | Digit
  | Upper
  | UpperOrDigit.

Definition is_digit (c : Ascii.ascii) : bool :=
  Ascii.leb "0"%char c && Ascii.leb c "9"%char.
Definition is_upper (c : Ascii.ascii) : bool :=
  Ascii.leb "A"%char c && Ascii.leb c "Z"%char.

Definition in_class (k : CharClass) (c : Ascii.ascii) : bool :=
  match k with
  | Literal l => Ascii.eqb l c
  | Digit => is_digit c
  | Upper => is_upper c
  | UpperOrDigit => is_upper c || is_digit c
  end.

(** [c{n}] at the head of [s]: the rest of [s] after [n] characters of
    the class, when there are that many. *)
Fixpoint match_chars (k : CharClass) (n : nat) (s : string) : option string :=
  match n with
  | O => Some s
  | S n' =>
      match s with
      | String c rest => if in_class k c then match_chars k n' rest else None
      | EmptyString => None
      end
  end.

Fixpoint match_items (items : list (CharClass * nat)) (s : string) : option string :=
  match items with
  | [] => Some s
  | (k, n) :: items' =>
      match match_chars k n s with
      | Some rest => match_items items' rest
      | None => None
      end
  end.

(** [$]: the end of the input, or the position before a line feed that
    ends the input (Athena follows the Java pattern syntax). *)
Definition at_end (rest : string) : bool :=
  match rest with
  | EmptyString => true
  | String c EmptyString => Ascii.eqb c "010"%char
  | _ => false
  end.

(** A pattern [^ items] or [^ items $]. *)
Record Pattern := {
  items : list (CharClass * nat);
  dollar : bool;
}.

Definition regexp_like (s : string) (p : Pattern) : bool :=
  match match_items (items p) s with
  | Some rest => if dollar p then at_end rest else true
  | None => false
  end.

(** All characters of a string are of the class. *)
Definition all_in_class (k : CharClass) (s : string) : bool :=
  forallb (in_class k) (String.list_ascii_of_string s).

End Regex.

(* ===================================================================== *)
(** ** Phase 3: format queries on identifiers, dates and currencies       *)
(* ===================================================================== *)

Module FormatChecks.
Import Sql Regex.

(** [LENGTH(x)] *)
Definition LENGTH (x : option string) : option Z :=
  (λ s, Z.of_nat (String.length s)) <$> x.

(** [SUBSTR(x, start, len)], positions counted from 1. *)
Definition SUBSTR (x : option string) (start len : nat) : option string :=
  String.substring (start - 1) len <$> x.

(** [REGEXP_LIKE(x, p)] *)
Definition REGEXP_LIKE (x : option string) (p : Pattern) : tv :=
  (λ s, regexp_like s p) <$> x.

(** [a != b] on integers. *)
Definition neq (a b : option Z) : tv := cmp (λ x y, negb (x =? y)) a b.

(** [x NOT IN (codes)] for a list of literals. *)
Definition not_in (x : option string) (codes : list string) : tv :=
  (λ s, negb (bool_decide (s ∈ codes))) <$> x.

(** ['^[A-Z0-9]{20}$'] *)
Definition lei_pattern : Pattern :=
  {| items := [ (UpperOrDigit, 20%nat) ]; dollar := true |}.

(** The WHERE condition of the LEI format query on one LEI column (the
    guide writes it for [counterparty_1] and repeats it for the others). *)
Definition lei_format_error (lei : option string) : tv :=
  is_not_null lei
  AND (neq (LENGTH lei) (Some 20)
       OR not3 (REGEXP_LIKE lei lei_pattern)).

(** ['^[A-Z]{2}$'] and ['^[A-Z0-9]{9}$'] *)
Definition country_pattern : Pattern :=
  {| items := [ (Upper, 2%nat) ]; dollar := true |}.
Definition isin_body_pattern : Pattern :=
  {| items := [ (UpperOrDigit, 9%nat) ]; dollar := true |}.

(** The WHERE condition of the ISIN format query. *)
Definition isin_format_error (isin : option string) : tv :=
  is_not_null isin
  AND (neq (LENGTH isin) (Some 12)
       OR not3 (REGEXP_LIKE (SUBSTR isin 1 2) country_pattern)
       OR not3 (REGEXP_LIKE (SUBSTR isin 3 9) isin_body_pattern)).

(** ['^\d{4}-\d{2}-\d{2}T\d{2}:\d{2}:\d{2}'] (no [$]) and
    ['^\d{4}-\d{2}-\d{2}$'] *)
Definition timestamp_pattern : Pattern :=
  {| items := [ (Digit, 4%nat); (Literal "-"%char, 1%nat); (Digit, 2%nat);
                (Literal "-"%char, 1%nat); (Digit, 2%nat); (Literal "T"%char, 1%nat);
                (Digit, 2%nat); (Literal ":"%char, 1%nat); (Digit, 2%nat);
                (Literal ":"%char, 1%nat); (Digit, 2%nat) ];
     dollar := false |}.
Definition date_pattern : Pattern :=
  {| items := [ (Digit, 4%nat); (Literal "-"%char, 1%nat); (Digit, 2%nat);
                (Literal "-"%char, 1%nat); (Digit, 2%nat) ];
     dollar := true |}.

(** The WHERE condition of the date format query, on the text of the two
    columns. *)
Definition date_format_error (execution_timestamp effective_date : option string) : tv :=
  not3 (REGEXP_LIKE execution_timestamp timestamp_pattern)
  OR not3 (REGEXP_LIKE effective_date date_pattern).

(** ['^[A-Z]{3}$'] *)
Definition currency_pattern : Pattern :=
  {| items := [ (Upper, 3%nat) ]; dollar := true |}.

(** The WHERE condition of the currency query.  The guide abbreviates the
    list of ISO 4217 codes; it is the parameter [codes]. *)
Definition currency_format_error (codes : list string) (currency : option string) : tv :=
  is_not_null currency
  AND (neq (LENGTH currency) (Some 3)
       OR not3 (REGEXP_LIKE currency currency_pattern)
       OR not_in currency codes).

End FormatChecks.

(* ===================================================================== *)
(** ** Phase 3: the format findings of a batch                            *)
(* ===================================================================== *)

Module FormatFindings.
Import Sql Trades FormatChecks.

(** A finding of the format phase on one column of a row.
    Modelled from the spec: the format queries of the guide return
    counts and sample UTIs under the error type FORMAT_ERROR and name no
    severity; the specification makes one finding per record and rule,
    CRITICAL for an LEI or ISIN violation and MAJOR for a currency
    violation. *)
Definition format_finding (sev : Severity) (field_name : string) (t : Trade) : Finding :=
  {| recordId := uti t; fieldName := Some field_name; phase := FORMAT;
     ruleId := "FORMAT_ERROR"; severity := sev |}.

(** The format queries on the columns of one row: the LEI query on
    [counterparty_1], repeated on [counterparty_2], the ISIN query and
    the currency query with the list [codes] of valid codes.  (The date
    format query reads its two columns as text and has no counterpart on
    typed rows.) *)
Definition row_findings (codes : list string) (t : Trade) : list Finding :=
  (if holds (lei_format_error (counterparty_1 t))
   then [ format_finding CRITICAL "counterparty_1_lei" t ] else [])
  ++ (if holds (lei_format_error (counterparty_2 t))
      then [ format_finding CRITICAL "counterparty_2_lei" t ] else [])
  ++ (if holds (isin_format_error (isin t))
      then [ format_finding CRITICAL "isin" t ] else [])
  ++ (if holds (currency_format_error codes (notional_currency_1 t))
      then [ format_finding MAJOR "notional_currency_1" t ] else []).

(** The findings of the format phase on a batch: those of each row, and
    those of the UTI uniqueness check. *)
Definition format_validator (codes : list string) (rows : list Trade) : list Finding :=
  flat_map (row_findings codes) rows ++ Format.duplicate_findings rows.

End FormatFindings.

(* ===================================================================== *)
(** ** Phase 4: derivative-specific queries                               *)
(* ===================================================================== *)

Module Derivatives.
Import Sql.

(** The columns of [emir_trades] that the option and swap queries read. *)
Record DerivativeRow := {
  asset_class : option string;
  option_type : option string;
  option_style : option string;
  strike_price : option Q;
  leg1_fixed_rate : option Q;
  leg1_floating_rate : option string;
  leg2_fixed_rate : option Q;
  leg2_floating_rate : option string;
}.

(** The WHERE condition of the options query
    ([error_type = 'OPTION_INCOMPLETE_DATA']). *)
Definition option_incomplete_data (t : DerivativeRow) : tv :=
  cmp String.eqb (asset_class t) (Some "OPTION")
  AND (
    (* If one option field is populated, all should be *)
    (is_not_null (option_type t)
     AND (is_null (option_style t) OR is_null (strike_price t)))
    OR (is_not_null (option_style t)
        AND (is_null (option_type t) OR is_null (strike_price t)))
    OR (is_not_null (strike_price t)
        AND (is_null (option_type t) OR is_null (option_style t)))).

(** The WHERE condition of the swaps query. *)
Definition swap_rate_inconsistent (t : DerivativeRow) : tv :=
  cmp String.eqb (asset_class t) (Some "SWAP")
  AND (
    (* Each leg should have either fixed or floating rate, not both or neither *)
    ((is_not_null (leg1_fixed_rate t) AND is_not_null (leg1_floating_rate t))
     OR (is_null (leg1_fixed_rate t) AND is_null (leg1_floating_rate t)))
    OR
    ((is_not_null (leg2_fixed_rate t) AND is_not_null (leg2_floating_rate t))
     OR (is_null (leg2_fixed_rate t) AND is_null (leg2_floating_rate t)))).

(** The values of [asset_class] that the schema documents in the comment
    of the column. *)
Definition documented_asset_classes : list string :=
  [ "EQUITY"; "COMMODITY"; "FX"; "INTEREST_RATE"; "CREDIT" ].

Definition populated {A} (x : option A) : bool :=
  match x with Some _ => true | None => false end.

End Derivatives.

(* ===================================================================== *)
(** ** Phase 1 counts and Phase 5 category scores                         *)
(* ===================================================================== *)

Module Aggregates.
Import Sql Trades.

(** Query 1.1: [COUNT( * )] and [COUNT(DISTINCT uti)] over the partition;
    the distinct count leaves NULLs out. *)
Definition total_records (rows : list Trade) : nat := length rows.

Definition unique_utis (rows : list Trade) : nat :=
  length (remove_dups (omap uti rows)).

(** [AVG] of a column of integers: NULL on no rows.  The quotient is
    exact. *)
Definition AVG (xs : list Z) : option Q :=
  match xs with
  | [] => None
  | _ => Some (Qdiv (inject_Z (foldr Z.add 0 xs)) (inject_Z (Z.of_nat (length xs))))
  end.

(** The category score of the critical identifiers:
    [AVG(CASE WHEN uti IS NOT NULL AND counterparty_1 IS NOT NULL
              THEN 100 ELSE 0 END)]. *)
Definition identifiers_valid (t : Trade) : tv :=
  is_not_null (uti t) AND is_not_null (counterparty_1 t).

Definition critical_identifiers_score (rows : list Trade) : option Q :=
  AVG (map (λ t, case_when (identifiers_valid t) 100 0) rows).

(** The category score of the trade information:
    [AVG(CASE WHEN action_type IS NOT NULL AND event_type IS NOT NULL
              THEN 100 ELSE 0 END)]. *)
Definition trade_information_valid (t : Trade) : tv :=
  is_not_null (action_type t) AND is_not_null (event_type t).

Definition trade_information_score (rows : list Trade) : option Q :=
  AVG (map (λ t, case_when (trade_information_valid t) 100 0) rows).

End Aggregates.

(* ===================================================================== *)
(** ** JavaScript strings                                                 *)
(* ===================================================================== *)

Module JSString.

(** Strings are sequences of ASCII characters; the case conversions are
    those of ASCII letters (the names handled here are ASCII). *)
Definition is_lower (c : Ascii.ascii) : bool :=
  Ascii.leb "a"%char c && Ascii.leb c "z"%char.

Definition char_toUpperCase (c : Ascii.ascii) : Ascii.ascii :=
  if is_lower c then Ascii.ascii_of_nat (Ascii.nat_of_ascii c - 32) else c.

Definition char_toLowerCase (c : Ascii.ascii) : Ascii.ascii :=
  if Regex.is_upper c then Ascii.ascii_of_nat (Ascii.nat_of_ascii c + 32) else c.

(** [s.toUpperCase()] and [s.toLowerCase()] *)
Fixpoint toUpperCase (s : string) : string :=
  match s with
  | EmptyString => EmptyString
  | String c rest => String (char_toUpperCase c) (toUpperCase rest)
  end.

Fixpoint toLowerCase (s : string) : string :=
  match s with
  | EmptyString => EmptyString
  | String c rest => String (char_toLowerCase c) (toLowerCase rest)
  end.

(** [s.charAt(0)]: the empty string when [s] is empty. *)
Definition charAt0 (s : string) : string :=
  match s with
  | EmptyString => EmptyString
  | String c _ => String c EmptyString
  end.

(** [s.slice(1)] *)
Definition slice1 (s : string) : string :=
  match s with
  | EmptyString => EmptyString
  | String _ rest => rest
  end.

(** [s.split(sep)] for a separator of one character: never empty. *)
Fixpoint split (sep : Ascii.ascii) (s : string) : list string :=
  match s with
  | EmptyString => [ EmptyString ]
  | String c rest =>
      if Ascii.eqb c sep then EmptyString :: split sep rest
      else match split sep rest with
           | part :: parts => String c part :: parts
           | [] => [ String c EmptyString ]
           end
  end.

(** [a || b] on strings: [a] unless it is undefined or empty. *)
Definition or_else (a : option string) (b : string) : string :=
  match a with
  | Some (String c r) => String c r
  | _ => b
  end.

(** The string has no character [c]. *)
Definition free_of (c : Ascii.ascii) (s : string) : bool :=
  forallb (λ x, negb (Ascii.eqb x c)) (String.list_ascii_of_string s).

End JSString.

(* ===================================================================== *)
(** ** Configuration and naming ([lib/emir-config.ts])                    *)
(* ===================================================================== *)

Module Config.
Import JSString.

Record LambdaMemorySizes := {
  dataLoader : N;
  completenessValidator : N;
  formatValidator : N;
  logicalValidator : N;
  scoringEngine : N;
  reportGenerator : N;
}.

(** The settings that [ENVIRONMENT_CONFIGS] gives to an environment. *)
Record EnvSettings := {
  enableMonitoring : bool;
  enableAlarms : bool;
  enableDetailedLogging : bool;
  logRetentionDays : N;
  reportRetentionDays : N;
  lambdaMemorySizes : LambdaMemorySizes;
  athenaDataScanLimitGB : N;
}.

Definition dev_settings : EnvSettings :=
  {| enableMonitoring := false;
     enableAlarms := false;
     enableDetailedLogging := true;
     logRetentionDays := 30;
     reportRetentionDays := 90;
     lambdaMemorySizes :=
       {| dataLoader := 512; completenessValidator := 1024;
          formatValidator := 1024; logicalValidator := 1536;
          scoringEngine := 512; reportGenerator := 3008 |};
     athenaDataScanLimitGB := 100 |}.

Definition staging_settings : EnvSettings :=
  {| enableMonitoring := true;
     enableAlarms := false;
     enableDetailedLogging := true;
     logRetentionDays := 60;
     reportRetentionDays := 365;
     lambdaMemorySizes :=
       {| dataLoader := 512; completenessValidator := 1536;
          formatValidator := 1536; logicalValidator := 2048;
          scoringEngine := 1024; reportGenerator := 3008 |};
     athenaDataScanLimitGB := 200 |}.

Definition prod_settings : EnvSettings :=
  {| enableMonitoring := true;
     enableAlarms := true;
     enableDetailedLogging := false;
     logRetentionDays := 90;
     reportRetentionDays := 730;
     lambdaMemorySizes :=
       {| dataLoader := 1024; completenessValidator := 2048;
          formatValidator := 2048; logicalValidator := 3008;
          scoringEngine := 1024; reportGenerator := 3008 |};
     athenaDataScanLimitGB := 500 |}.

(** [ENVIRONMENT_CONFIGS[environment]]: undefined for a name that is not a
    key of the table. *)
Definition ENVIRONMENT_CONFIGS : gmap string EnvSettings :=
  list_to_map [ ("dev", dev_settings); ("staging", staging_settings);
                ("prod", prod_settings) ].

(** An [EmirConfig] at run time.  The settings come from the spread of
    the table entry: all of them are defined, or (for an environment the
    table does not know) none is. *)
Record EmirConfig := {
  environment : string;
  region : string;
  account : string;
  settings : option EnvSettings;
}.

(** [getEmirConfig(stack, environment)]; [stack.region] and
    [stack.account] are the first two arguments. *)
Definition getEmirConfig (stack_region stack_account environment : string) : EmirConfig :=
  {| environment := environment;
     region := stack_region;
     account := stack_account;
     settings := ENVIRONMENT_CONFIGS !! environment |}.

(** The two tables of [getRegionCode].  Property names that every
    JavaScript object inherits ([constructor], [toString], ...) are not
    keys of the model. *)
Definition regionMap : gmap string string :=
  list_to_map [ ("us", "us"); ("eu", "eu"); ("ap", "ap"); ("ca", "ca"); ("sa", "sa") ].

Definition directionMap : gmap string string :=
  list_to_map [ ("east", "e"); ("west", "w"); ("central", "c"); ("north", "n");
                ("south", "s"); ("northeast", "ne"); ("southeast", "se") ].

(** The names that an object literal inherits from [Object.prototype]. *)
Definition inherited_keys : list string :=
  [ "constructor"; "hasOwnProperty"; "isPrototypeOf"; "propertyIsEnumerable";
    "toLocaleString"; "toString"; "valueOf"; "__proto__";
    "__defineGetter__"; "__defineSetter__"; "__lookupGetter__";
    "__lookupSetter__" ].

(** [getRegionCode(region)] *)
Definition getRegionCode (region : string) : string :=
  match split "-" region with
  | [ part0; part1; part2 ] =>
      let prefix := or_else (regionMap !! part0) part0 in
      let direction := or_else (directionMap !! part1) (charAt0 part1) in
      let number := part2 in
      prefix +:+ direction +:+ number
  | _ => region
  end.

(** The naming helper: the configuration and the region code computed in
    the constructor. *)
Record EmirNaming := {
  config : EmirConfig;
  regionCode : string;
}.

(** [createNaming(config)], that is [new EmirNaming(config)]. *)
Definition createNaming (cfg : EmirConfig) : EmirNaming :=
  {| config := cfg; regionCode := getRegionCode (region cfg) |}.

(** [getEnvSuffix()] *)
Definition getEnvSuffix (nm : EmirNaming) : string :=
  toUpperCase (charAt0 (environment (config nm)))
  +:+ slice1 (environment (config nm)).

Definition bucket (nm : EmirNaming) (purpose : string) : string :=
  "emir-" +:+ purpose +:+ "-" +:+ environment (config nm) +:+ "-"
  +:+ region (config nm) +:+ "-" +:+ account (config nm).

Definition table (nm : EmirNaming) (purpose : string) : string :=
  "Emir" +:+ purpose +:+ "-" +:+ getEnvSuffix nm +:+ "-"
  +:+ toUpperCase (regionCode nm).

Definition lambda (nm : EmirNaming) (purpose : string) : string :=
  "emir-" +:+ purpose +:+ "-" +:+ environment (config nm) +:+ "-"
  +:+ region (config nm).

Definition stateMachine (nm : EmirNaming) (purpose : string) : string :=
  "Emir" +:+ purpose +:+ "-" +:+ getEnvSuffix nm +:+ "-"
  +:+ toUpperCase (regionCode nm).

Definition glueDatabase (nm : EmirNaming) : string :=
  "emir_reporting_" +:+ environment (config nm) +:+ "_"
  +:+ toLowerCase (regionCode nm).

Definition glueTable (nm : EmirNaming) (tableName : string) : string :=
  toLowerCase tableName.

Definition athenaWorkgroup (nm : EmirNaming) : string :=
  "emir-analytics-" +:+ environment (config nm).

Definition eventBus (nm : EmirNaming) : string :=
  "emir-event-bus-" +:+ environment (config nm).

Definition snsTopic (nm : EmirNaming) (purpose : string) : string :=
  "emir-" +:+ purpose +:+ "-" +:+ environment (config nm).

Definition logGroup (nm : EmirNaming) (service purpose : string) : string :=
  "/aws/" +:+ service +:+ "/emir-" +:+ purpose +:+ "-"
  +:+ environment (config nm) +:+ "-" +:+ region (config nm).

Definition iamRole (nm : EmirNaming) (purpose : string) : string :=
  "Emir" +:+ purpose +:+ "Role-" +:+ getEnvSuffix nm.

Definition apiGateway (nm : EmirNaming) : string :=
  "emir-reporting-api-" +:+ environment (config nm).

Definition dashboard (nm : EmirNaming) : string :=
  "EMIR-Reporting-" +:+ getEnvSuffix nm.

(** The abbreviation of a direction word: its entry in the table, or its
    first letter. *)
Definition direction_code (word : string) : string :=
  or_else (directionMap !! word) (charAt0 word).

End Config.

(* ===================================================================== *)
(** ** Storage ([lib/emir-storage.ts])                                    *)
(* ===================================================================== *)

Module Storage.
Import Config.

Inductive RemovalPolicy := DESTROY | RETAIN.

Global Instance RemovalPolicy_eq_dec : EqDecision RemovalPolicy.
Proof. solve_decision. Defined.

(** [Duration.days(n)]: the number of days; [None] when the argument is
    undefined. *)
Definition Duration := option N.

Record Transition := {
  storageClass : string;
  transitionAfter : Duration;
}.

Record LifecycleRule := {
  id : string;
  enabled : bool;
  prefix : option string;
  transitions : list Transition;
  expiration : option Duration;
}.

Record CorsRule := {
  allowedMethods : list string;
  allowedOrigins : list string;
  allowedHeaders : list string;
  maxAge : N;
}.

(** The properties passed to [new Bucket]. *)
Record BucketProps := {
  bucketName : string;
  encryption : string;
  blockPublicAccess : string;
  versioned : bool;
  lifecycleRules : list LifecycleRule;
  removalPolicy : RemovalPolicy;
  autoDeleteObjects : bool;
  cors : list CorsRule;
}.

(** The properties passed to [new CfnWorkGroup]. *)
Record WorkGroupProps := {
  name : string;
  description : string;
  outputLocation : string;
  encryptionOption : string;
  enforceWorkGroupConfiguration : bool;
  publishCloudWatchMetricsEnabled : option bool;
  bytesScannedCutoffPerQuery : JS.number;
  requesterPaysEnabled : bool;
  selectedEngineVersion : string;
}.

(** [config.environment === 'dev'] and [=== 'prod'] *)
Definition is_dev (cfg : EmirConfig) : bool := String.eqb (environment cfg) "dev".
Definition is_prod (cfg : EmirConfig) : bool := String.eqb (environment cfg) "prod".

(** [getRawDataLifecycleRules(config)] *)
Definition getRawDataLifecycleRules (cfg : EmirConfig) : list LifecycleRule :=
  if is_prod cfg then
    (* Production: Archive to Glacier after 90 days, delete after 2 years *)
    [ {| id := "ArchiveOldData"; enabled := true; prefix := None;
         transitions := [ {| storageClass := "GLACIER"; transitionAfter := Some 90%N |} ];
         expiration := Some (Some 730%N) |};
      (* Move failed files to separate prefix *)
      {| id := "CleanupFailedFiles"; enabled := true; prefix := Some "failed/";
         transitions := [];
         expiration := Some (Some 90%N) |} ]
  else
    (* Dev/Staging: Keep for shorter period *)
    [ {| id := "DeleteOldDevData"; enabled := true; prefix := None;
         transitions := [];
         expiration := Some (Some 90%N) |} ].

(** [getReportsLifecycleRules(config)] *)
Definition getReportsLifecycleRules (cfg : EmirConfig) : list LifecycleRule :=
  [ {| id := "ManageReportRetention"; enabled := true; prefix := None;
       transitions := [];
       expiration := Some (reportRetentionDays <$> settings cfg) |} ].

(** A setting read as a number: NaN when it is undefined. *)
Definition to_number (x : option N) : JS.number :=
  match x with
  | Some n => JS.of_N n
  | None => JS.NaN
  end.

(** The value of [config.athenaDataScanLimitGB * 1024 * 1024 * 1024]. *)
Definition scanCutoffBytes (cfg : EmirConfig) : JS.number :=
  JS.mul (JS.mul (JS.mul (to_number (athenaDataScanLimitGB <$> settings cfg))
                         (JS.of_Z 1024))
                 (JS.of_Z 1024))
         (JS.of_Z 1024).

(** The properties that the constructor of [EmirStorage] computes and
    passes to [new Bucket] and [new CfnWorkGroup].  Whether the
    constructs accept them (a bucket name can be rejected) is not part
    of the model. *)
Record EmirStorage := {
  rawDataBucket : BucketProps;
  reportsBucket : BucketProps;
  athenaResultsBucket : BucketProps;
  athenaWorkgroupProps : WorkGroupProps;
}.

Definition new_EmirStorage (cfg : EmirConfig) (naming : EmirNaming) : EmirStorage :=
  let athenaResults :=
    {| bucketName := bucket naming "athena-results";
       encryption := "S3_MANAGED";
       blockPublicAccess := "BLOCK_ALL";
       versioned := false;
       lifecycleRules :=
         [ {| id := "DeleteOldQueryResults"; enabled := true; prefix := None;
              transitions := [];
              expiration := Some (Some 30%N) |} ];
       removalPolicy := DESTROY;
       autoDeleteObjects := true;
       cors := [] |} in
  {| rawDataBucket :=
       {| bucketName := bucket naming "raw-data";
          encryption := "S3_MANAGED";
          blockPublicAccess := "BLOCK_ALL";
          versioned := true;
          lifecycleRules := getRawDataLifecycleRules cfg;
          removalPolicy := if is_dev cfg then DESTROY else RETAIN;
          autoDeleteObjects := is_dev cfg;
          cors := [] |};
     reportsBucket :=
       {| bucketName := bucket naming "reports";
          encryption := "S3_MANAGED";
          blockPublicAccess := "BLOCK_ALL";
          versioned := false;
          lifecycleRules := getReportsLifecycleRules cfg;
          removalPolicy := if is_dev cfg then DESTROY else RETAIN;
          autoDeleteObjects := is_dev cfg;
          cors := [ {| allowedMethods := [ "GET" ]; allowedOrigins := [ "*" ];
                       allowedHeaders := [ "*" ]; maxAge := 3000 |} ] |};
     athenaResultsBucket := athenaResults;
     athenaWorkgroupProps :=
       {| name := athenaWorkgroup naming;
          description := "Athena workgroup for EMIR accuracy reporting - "
                         +:+ environment cfg;
          outputLocation := "s3://" +:+ bucketName athenaResults +:+ "/queries/";
          encryptionOption := "SSE_S3";
          enforceWorkGroupConfiguration := true;
          publishCloudWatchMetricsEnabled := enableMonitoring <$> settings cfg;
          bytesScannedCutoffPerQuery :=
            JS.mul (JS.mul (JS.mul (to_number (athenaDataScanLimitGB <$> settings cfg))
                                   (JS.of_Z 1024))
                           (JS.of_Z 1024))
                   (JS.of_Z 1024);
          requesterPaysEnabled := false;
          selectedEngineVersion := "Athena engine version 3" |} |}.

(** The three buckets of the construct. *)
Definition buckets (st : EmirStorage) : list BucketProps :=
  [ rawDataBucket st; reportsBucket st; athenaResultsBucket st ].

Definition days_of (d : option Duration) : option N :=
  match d with Some (Some n) => Some n | _ => None end.

(** The rule expires objects, and after every transition it makes. *)
Definition rule_well_formed (r : LifecycleRule) : bool :=
  enabled r
  && match days_of (expiration r) with
     | Some e =>
         forallb (λ t, match transitionAfter t with
                       | Some a => (a <? e)%N
                       | None => false
                       end) (transitions r)
     | None => false
     end.

End Storage.

(* ===================================================================== *)
(** ** Database ([lib/emir-database.ts])                                  *)
(* ===================================================================== *)

Module Database.
Import Config.

Inductive AttributeType := STRING | NUMBER.
Inductive ProjectionType := ALL | KEYS_ONLY.

Global Instance AttributeType_eq_dec : EqDecision AttributeType.
Proof. solve_decision. Defined.

Record Attribute := {
  attr_name : string;
  attr_type : AttributeType;
}.

Record GlobalSecondaryIndex := {
  indexName : string;
  index_partitionKey : Attribute;
  index_sortKey : Attribute;
  projectionType : ProjectionType;
}.

(** The properties of a table and the indexes added to it. *)
Record Table := {
  tableName : string;
  partitionKey : Attribute;
  sortKey : Attribute;
  billingMode : string;
  timeToLiveAttribute : string;
  pointInTimeRecovery : bool;
  removalPolicy : Storage.RemovalPolicy;
  globalSecondaryIndexes : list GlobalSecondaryIndex;
}.

Record EmirDatabase := {
  reportRunsTable : Table;
  validationResultsTable : Table;
  accuracyScoresTable : Table;
  recordScoresTable : Table;
}.

Definition attr (n : string) (t : AttributeType) : Attribute :=
  {| attr_name := n; attr_type := t |}.

(** The part of the table properties that is the same for the four
    tables. *)
Definition new_Table (cfg : EmirConfig) (nm pk sk : string)
    (gsis : list GlobalSecondaryIndex) : Table :=
  {| tableName := nm;
     partitionKey := attr pk STRING;
     sortKey := attr sk STRING;
     billingMode := "PAY_PER_REQUEST";
     timeToLiveAttribute := "ttl";
     pointInTimeRecovery := Storage.is_prod cfg;
     removalPolicy := if Storage.is_dev cfg then Storage.DESTROY else Storage.RETAIN;
     globalSecondaryIndexes := gsis |}.

(** What the constructor of [EmirDatabase] builds. *)
Definition new_EmirDatabase (cfg : EmirConfig) (naming : EmirNaming) : EmirDatabase :=
  {| reportRunsTable :=
       new_Table cfg (table naming "ReportRuns") "reportDate" "executionId"
         [ {| indexName := "StatusIndex";
              index_partitionKey := attr "status" STRING;
              index_sortKey := attr "startTime" STRING;
              projectionType := ALL |} ];
     validationResultsTable :=
       new_Table cfg (table naming "ValidationResults") "reportExecutionId" "validationKey"
         [ {| indexName := "SeverityIndex";
              index_partitionKey := attr "reportExecutionId" STRING;
              index_sortKey := attr "errorSeverity" STRING;
              projectionType := ALL |};
           {| indexName := "ValidationTypeIndex";
              index_partitionKey := attr "validationType" STRING;
              index_sortKey := attr "validationTimestamp" STRING;
              projectionType := KEYS_ONLY |} ];
     accuracyScoresTable :=
       new_Table cfg (table naming "AccuracyScores") "reportExecutionId" "scoreType"
         [ {| indexName := "CategoryIndex";
              index_partitionKey := attr "categoryName" STRING;
              index_sortKey := attr "calculationTimestamp" STRING;
              projectionType := ALL |};
           {| indexName := "TimeSeriesIndex";
              index_partitionKey := attr "scoreType" STRING;
              index_sortKey := attr "calculationTimestamp" STRING;
              projectionType := ALL |} ];
     recordScoresTable :=
       new_Table cfg (table naming "RecordScores") "reportExecutionId" "uti"
         [ {| indexName := "AccuracyScoreIndex";
              index_partitionKey := attr "reportExecutionId" STRING;
              index_sortKey := attr "accuracyScore" NUMBER;
              projectionType := ALL |} ] |}.

(** [calculateTTL(days)] in the arithmetic of doubles, with the value of
    [Date.now()] (milliseconds) as first argument. *)
Definition calculateTTL (date_now days : JS.number) : JS.number :=
  let now := Binary64.Math_floor (Binary64.div date_now (JS.of_Z 1000)) in
  Binary64.add now
    (Binary64.mul (Binary64.mul (Binary64.mul days (JS.of_Z 24)) (JS.of_Z 60)) (JS.of_Z 60)).

Definition tables (db : EmirDatabase) : list Table :=
  [ reportRunsTable db; validationResultsTable db; accuracyScoresTable db;
    recordScoresTable db ].

(** The attributes that the keys of a table and of its indexes define. *)
Definition key_attributes (t : Table) : list Attribute :=
  partitionKey t :: sortKey t
  :: flat_map (λ g, [ index_partitionKey g; index_sortKey g ])
              (globalSecondaryIndexes t).

(** No attribute name is defined with two types. *)
Definition types_consistent (attrs : list Attribute) : bool :=
  forallb (λ a, forallb (λ b, negb (String.eqb (attr_name a) (attr_name b))
                              || bool_decide (attr_type a = attr_type b)) attrs) attrs.

End Database.

(* ===================================================================== *)
(** ** The stack and the entry point ([lib/emir-stack.ts], [bin/])        *)
(* ===================================================================== *)

Module Stack.
Import Config.

Record CfnOutput := {
  output_id : string;
  value : string;
  exportName : option string;
}.

Definition exported (stackName id suffix val : string) : CfnOutput :=
  {| output_id := id; value := val;
     exportName := Some (stackName +:+ "-" +:+ suffix) |}.

(** [createOutputs(naming)] *)
Definition createOutputs (stackName : string) (st : Storage.EmirStorage)
    (db : Database.EmirDatabase) (glueDb glueTbl : string) : list CfnOutput :=
  [ exported stackName "RawDataBucketName" "RawDataBucket"
      (Storage.bucketName (Storage.rawDataBucket st));
    exported stackName "ReportsBucketName" "ReportsBucket"
      (Storage.bucketName (Storage.reportsBucket st));
    exported stackName "AthenaResultsBucketName" "AthenaResultsBucket"
      (Storage.bucketName (Storage.athenaResultsBucket st));
    exported stackName "ReportRunsTableName" "ReportRunsTable"
      (Database.tableName (Database.reportRunsTable db));
    exported stackName "ValidationResultsTableName" "ValidationResultsTable"
      (Database.tableName (Database.validationResultsTable db));
    exported stackName "AccuracyScoresTableName" "AccuracyScoresTable"
      (Database.tableName (Database.accuracyScoresTable db));
    exported stackName "GlueDatabaseName" "GlueDatabase" glueDb;
    exported stackName "GlueTableName" "GlueTable" glueTbl;
    exported stackName "AthenaWorkgroupName" "AthenaWorkgroup"
      (Storage.name (Storage.athenaWorkgroupProps st));
    {| output_id := "NextSteps";
       value := "Infrastructure deployed! Next: Upload CSV to raw-data bucket to test";
       exportName := None |};
    {| output_id := "UploadCommand";
       value := "aws s3 cp your-file.csv s3://"
                +:+ Storage.bucketName (Storage.rawDataBucket st)
                +:+ "/year=2025/month=11/day=05/";
       exportName := None |} ].

(** [bin/aws-microservices.ts]: the environment of the EMIR stack,
    [app.node.tryGetContext('env') || 'dev']; the context value may be
    undefined. *)
Definition app_environment (context_env : option string) : string :=
  JSString.or_else context_env "dev".

End Stack.

(* ===================================================================== *)
(** ** The columns of the trades table                                    *)
(* ===================================================================== *)

Module QueryColumns.

(** Name and type of the columns of a table, partition keys included. *)
Definition declared_columns (t : GlueCatalog.CfnTable) : list (string * string) :=
  map (λ c, (GlueCatalog.name c, GlueCatalog.type c))
      (GlueCatalog.columns (GlueCatalog.tableInput t)
       ++ GlueCatalog.partitionKeys (GlueCatalog.tableInput t)).

End QueryColumns.

(* ===================================================================== *)
(** * Properties                                                          *)
(* ===================================================================== *)

(** ** The schema *)

Section SchemaFacts.
Import GlueCatalog.

(** The literal of [getEmirFieldSchema] has 168 entries: the field counts
    in its section comments (6, 10, 15, 10, 15, 12, 10, 15, 15, 12, 10 and
    38) add up to 168, not to the 203 of the description. *)
Lemma schema_field_count : length getEmirFieldSchema = 168%nat.
Proof. reflexivity. Qed.

Lemma schema_names_distinct : NoDup (fieldNames getEmirFieldSchema).
Proof. apply (bool_decide_unpack _). vm_compute. exact I. Qed.

(** C1: for every configuration the table is created with the 168
    columns of the literal, pairwise distinct in name, although its own
    description says 203 fields; the schema is one that the contract of
    [load] rejects, and nothing in the constructor rejects it. *)
Theorem C1_schema_has_168_fields_not_203 (account dbName tblName bucketName : string) :
  let tbl := tableInput (tradesTable account dbName tblName bucketName) in
  description tbl = "EMIR REFIT trade data - 203 fields"
  ∧ length (columns tbl) = 168%nat
  ∧ length (columns tbl) ≠ 203%nat
  ∧ NoDup (fieldNames (columns tbl))
  ∧ load_contract (columns tbl) = inl SchemaLoadErr.
Proof.
  cbn zeta. cbn [tableInput tradesTable description columns].
  split; [ reflexivity |].
  split; [ exact schema_field_count |].
  split; [ rewrite schema_field_count; lia |].
  split; [ exact schema_names_distinct |].
  unfold load_contract. rewrite bool_decide_false; [ reflexivity |].
  intros [H _]. rewrite schema_field_count in H. lia.
Qed.

End SchemaFacts.

(** ** JavaScript numbers and the overall score *)

Section ScoringFacts.
Import JS Scoring.

Lemma Qle_bool_false (x y : Q) : Qle_bool x y = false ↔ (y < x)%Q.
Proof.
  split; intros H.
  - apply Qnot_le_lt. intros Hle. apply Qle_bool_iff in Hle. congruence.
  - destruct (Qle_bool x y) eqn:E; [| reflexivity ].
    apply Qle_bool_iff in E. apply Qle_not_lt in E. contradiction.
Qed.

Lemma weight_nonneg (sev : string) : 0 <= weight sev.
Proof. unfold weight. repeat case_match; lia. Qed.

Lemma penaltySum_nonneg vr : 0 <= penaltySum vr.
Proof.
  induction vr as [| r vr IH ]; simpl; [ lia |].
  pose proof (weight_nonneg (Scoring.severity r)). nia.
Qed.

(** One turn of the loop adds the weighted error count. *)
Lemma applyPenalty_fin (q : Q) (r : ValidationResult) :
  ∃ q', applyPenalty (Fin q) r = Fin q'
        ∧ (q' == q + inject_Z (Z.of_N (errorCount r) * weight (Scoring.severity r)))%Q.
Proof.
  unfold applyPenalty, weight.
  repeat case_match; simpl; eexists; (split; [ reflexivity |]);
    rewrite ?inject_Z_mult; try reflexivity.
  change (inject_Z 0) with 0%Q. ring.
Qed.

Lemma fold_applyPenalty_fin vr : ∀ q,
  ∃ q', fold_left applyPenalty vr (Fin q) = Fin q'
        ∧ (q' == q + inject_Z (penaltySum vr))%Q.
Proof.
  induction vr as [| r vr IH ]; intros q; simpl.
  - exists q. split; [ reflexivity | unfold inject_Z; ring ].
  - destruct (applyPenalty_fin q r) as (q1 & -> & H1).
    destruct (IH q1) as (q2 & -> & H2).
    exists q2. split; [ reflexivity |].
    rewrite H2, H1, inject_Z_plus. ring.
Qed.

(** The loop computes the weighted sum of the error counts. *)
Lemma totalPenalty_fin vr :
  ∃ p, totalPenalty vr = Fin p ∧ (p == inject_Z (penaltySum vr))%Q.
Proof.
  destruct (fold_applyPenalty_fin vr (inject_Z 0)) as (p & Hp & Heq).
  exists p. split; [ exact Hp |]. rewrite Heq. unfold inject_Z at 1. ring.
Qed.

(** For a batch that is not empty the code computes the formula. *)
Lemma calculateAccuracyScore_formula vr (n : N) :
  (0 < n)%N →
  ∃ q, calculateAccuracyScore vr n = Fin q
       ∧ (q == overall_score_formula (penaltySum vr) (Z.of_N n))%Q.
Proof.
  intros Hn. unfold calculateAccuracyScore.
  destruct (totalPenalty_fin vr) as (p & -> & Hp).
  pose proof (penaltySum_nonneg vr) as Hnn.
  set (P := penaltySum vr) in *.
  assert (HM : (0 < inject_Z (Z.of_N n) * inject_Z 100)%Q).
  { rewrite <- inject_Z_mult. replace 0%Q with (inject_Z 0) by reflexivity.
    rewrite <- Zlt_Qlt. lia. }
  simpl.
  destruct (Qeq_bool _ _) eqn:E.
  { apply Qeq_bool_iff in E. rewrite E in HM. exfalso. revert HM. apply Qlt_irrefl. }
  simpl.
  set (M := (inject_Z (Z.of_N n) * inject_Z 100)%Q) in *.
  assert (Hp0 : (0 <= p)%Q).
  { rewrite Hp. replace 0%Q with (inject_Z 0) by reflexivity. rewrite <- Zle_Qle. exact Hnn. }
  assert (Hval : ((M + - p) / M * inject_Z 100 == 100 - inject_Z P / (inject_Z (Z.of_N n) * 100) * 100)%Q).
  { rewrite <- Hp. subst M. change (inject_Z 100) with 100%Q. field.
    intros H0. change (inject_Z 100) with 100%Q in HM. rewrite H0 in HM.
    revert HM. apply Qlt_irrefl. }
  assert (Hle100 : (100 - inject_Z P / (inject_Z (Z.of_N n) * 100) * 100 <= 100)%Q).
  { change (inject_Z 100) with 100%Q in HM.
    assert (0 <= inject_Z P / (inject_Z (Z.of_N n) * 100))%Q.
    { rewrite <- Hp. apply Qle_shift_div_l; [ exact HM |]. rewrite Qmult_0_l. exact Hp0. }
    set (X := (inject_Z P / (inject_Z (Z.of_N n) * 100))%Q) in *. clearbody X.
    clear -H. lra. }
  unfold overall_score_formula.
  set (V := (100 - inject_Z P / (inject_Z (Z.of_N n) * 100) * 100)%Q) in *.
  set (W := ((M + - p) / M * inject_Z 100)%Q) in *.
  pose proof (Q.min_spec 100 V) as Hmin. pose proof (Q.max_spec 0 (Qmin 100 V)) as Hmax.
  set (mn := Qmin 100 V) in *. set (mx := Qmax 0 mn) in *.
  change (inject_Z 0) with 0%Q.
  destruct (Qle_bool 0 W) eqn:E2; eexists; (split; [ reflexivity |]).
  - apply Qle_bool_iff in E2. clearbody mx mn W V. lra.
  - apply Qle_bool_false in E2. change (inject_Z 0) with 0%Q.
    clearbody mx mn W V. lra.
Qed.

Lemma penaltySum_app vr extra :
  penaltySum (vr ++ extra) = penaltySum vr + penaltySum extra.
Proof. induction vr as [| r vr IH ]; simpl; [ reflexivity | rewrite IH; ring ]. Qed.

Lemma penaltySum_dominates vr1 vr2 :
  dominates vr1 vr2 → penaltySum vr1 <= penaltySum vr2.
Proof.
  induction 1 as [| r1 r2 vr1 vr2 [Hs Hc] _ IH ]; simpl; [ lia |].
  rewrite Hs. pose proof (weight_nonneg (Scoring.severity r2)). nia.
Qed.

(** The formula does not increase when the penalty grows. *)
Lemma overall_score_formula_antitone (P1 P2 n : Z) :
  0 < n → P1 <= P2 →
  (overall_score_formula P2 n <= overall_score_formula P1 n)%Q.
Proof.
  intros Hn HP. unfold overall_score_formula.
  apply Q.max_le_compat_l, Q.min_le_compat_l.
  assert (HM : (0 < inject_Z n * 100)%Q).
  { change 100%Q with (inject_Z 100). rewrite <- inject_Z_mult.
    change 0%Q with (inject_Z 0). rewrite <- Zlt_Qlt. lia. }
  assert (Hdiv : (inject_Z P1 / (inject_Z n * 100) <= inject_Z P2 / (inject_Z n * 100))%Q).
  { unfold Qdiv. apply Qmult_le_compat_r; [ rewrite <- Zle_Qle; exact HP |].
    apply Qlt_le_weak, Qinv_lt_0_compat, HM. }
  set (X1 := (inject_Z P1 / (inject_Z n * 100))%Q) in *.
  set (X2 := (inject_Z P2 / (inject_Z n * 100))%Q) in *.
  clearbody X1 X2. lra.
Qed.

(** On a batch that is not empty, a larger total penalty never gives a
    larger overall score. *)
Lemma calculateAccuracyScore_antitone vr1 vr2 (n : N) :
  (0 < n)%N → penaltySum vr1 <= penaltySum vr2 →
  leb (calculateAccuracyScore vr2 n) (calculateAccuracyScore vr1 n) = true.
Proof.
  intros Hn HP.
  destruct (calculateAccuracyScore_formula vr1 n Hn) as (q1 & -> & H1).
  destruct (calculateAccuracyScore_formula vr2 n Hn) as (q2 & -> & H2).
  simpl. apply Qle_bool_iff. rewrite H1, H2.
  apply overall_score_formula_antitone; [ lia | exact HP ].
Qed.

(** C7: a finite score of at least 95 is GREEN, a score of at least 85 and
    below 95 is AMBER, a score below 85 is RED. *)
Theorem C7_traffic_light_thresholds (s : Q) :
  ((95 <= s)%Q → status (getTrafficLightStatus (Fin s)) = "GREEN")
  ∧ ((85 <= s < 95)%Q → status (getTrafficLightStatus (Fin s)) = "AMBER")
  ∧ ((s < 85)%Q → status (getTrafficLightStatus (Fin s)) = "RED").
Proof.
  unfold getTrafficLightStatus, geb, leb, of_Z.
  change (inject_Z 95) with 95%Q. change (inject_Z 85) with 85%Q.
  destruct (Qle_bool 95 s) eqn:E95; destruct (Qle_bool 85 s) eqn:E85;
    try apply Qle_bool_iff in E95; try apply Qle_bool_iff in E85;
    try apply Qle_bool_false in E95; try apply Qle_bool_false in E85;
    repeat split; intros; simpl; try reflexivity; exfalso; lra.
Qed.

(** C7 at the boundaries: the scores 95 and 85 are GREEN and AMBER; 84 is
    RED. *)
Lemma C7_traffic_light_boundaries :
  status (getTrafficLightStatus (Fin 95)) = "GREEN"
  ∧ status (getTrafficLightStatus (Fin 85)) = "AMBER"
  ∧ status (getTrafficLightStatus (Fin 84)) = "RED".
Proof.
  split; [| split ].
  - apply (proj1 (C7_traffic_light_thresholds 95)). discriminate.
  - apply (proj1 (proj2 (C7_traffic_light_thresholds 85))).
    split; [ discriminate | reflexivity ].
  - apply (proj2 (proj2 (C7_traffic_light_thresholds 84))). reflexivity.
Defined.

(** The classification of the values that are not finite. *)
Lemma traffic_light_not_finite :
  status (getTrafficLightStatus PosInf) = "GREEN"
  ∧ status (getTrafficLightStatus NegInf) = "RED"
  ∧ status (getTrafficLightStatus NaN) = "RED".
Proof. repeat split. Qed.

(** C10, counterexample: for an empty batch ([totalRecords = 0]) the score
    is NaN, and a NaN is not less than or equal to anything: the score of
    a result set is not even less than or equal to itself. *)
Lemma C10_empty_batch_not_monotone :
  let vr := [ {| errorCount := 0; Scoring.severity := "CRITICAL" |} ] in
  dominates vr vr
  ∧ calculateAccuracyScore vr 0 = NaN
  ∧ leb (calculateAccuracyScore vr 0) (calculateAccuracyScore vr 0) = false.
Proof.
  split; [| split; reflexivity ].
  constructor; [ split; [ reflexivity | lia ] | constructor ].
Qed.

(** C10, amended: for a batch with at least one record, raising error
    counts entry by entry, or adding entries, never raises the overall
    score. *)
Theorem C10_score_monotone_in_errors (totalRecords : N) :
  (0 < totalRecords)%N →
  (∀ vr1 vr2, dominates vr1 vr2 →
     leb (calculateAccuracyScore vr2 totalRecords)
         (calculateAccuracyScore vr1 totalRecords) = true)
  ∧ (∀ vr extra,
       leb (calculateAccuracyScore (vr ++ extra) totalRecords)
           (calculateAccuracyScore vr totalRecords) = true).
Proof.
  intros Hn. split.
  - intros vr1 vr2 Hdom. apply calculateAccuracyScore_antitone; [ exact Hn |].
    apply penaltySum_dominates, Hdom.
  - intros vr extra. apply calculateAccuracyScore_antitone; [ exact Hn |].
    rewrite penaltySum_app. pose proof (penaltySum_nonneg extra). lia.
Qed.

(** C10 at a batch of 1,000 records: 7 major errors score no higher than
    3 major errors. *)
Lemma C10_score_monotone_witness :
  (0 < 1000)%N
  ∧ leb (calculateAccuracyScore [ {| errorCount := 7; Scoring.severity := "MAJOR" |} ] 1000)
        (calculateAccuracyScore [ {| errorCount := 3; Scoring.severity := "MAJOR" |} ] 1000) = true.
Proof.
  assert (H : (0 < 1000)%N) by reflexivity.
  split; [ exact H |].
  apply (proj1 (C10_score_monotone_in_errors 1000 H)).
  constructor; [ split; [ reflexivity | discriminate ] | constructor ].
Defined.

End ScoringFacts.

(** ** Per-record scores *)

Section RecordScoreFacts.
Import Sql Trades Completeness RecordScores.

Lemma severity_weight_pos (s : Severity) : 0 < severity_weight s.
Proof. destruct s; reflexivity. Qed.

(** The penalty points of a table row are a sum of weights. *)
Lemma penalty_table_nonneg ph (fs : list Finding) (u : string) (z : Z) :
  penalty_table ph fs !! u = Some z → 0 <= z.
Proof.
  revert u z. induction fs as [| f fs IH ]; intros u z; simpl.
  - rewrite lookup_empty. discriminate.
  - case_decide; [| apply IH ].
    destruct (recordId f) as [ k |]; [| apply IH ].
    destruct (decide (k = u)) as [ -> | Hne ].
    + rewrite lookup_insert_eq. intros [= <-].
      pose proof (severity_weight_pos (severity f)).
      destruct (penalty_table ph fs !! u) as [ z' |] eqn:E; simpl; [| lia ].
      apply IH in E. lia.
    + rewrite lookup_insert_ne by exact Hne. apply IH.
Qed.

Lemma joined_penalty_points_nonneg ph fs (t : Trade) :
  0 <= coalesce (joined_penalty_points (penalty_table ph fs) t) 0.
Proof.
  unfold joined_penalty_points.
  destruct (uti t) as [ u |]; simpl; [| lia ].
  destruct (penalty_table ph fs !! u) as [ z |] eqn:E; simpl; [| lia ].
  eapply penalty_table_nonneg, E.
Qed.

Lemma null_penalty_nonneg {A} (x : option A) : 0 <= null_penalty x.
Proof. destruct x; cbn; lia. Qed.

(** C9: in every row of [emir_record_scores], whatever the trades and the
    findings, the penalty is not negative, the score lies between 0 and
    100, and the score is [clamp (100 - penalty) 0 100]. *)
Theorem C9_record_score_bounds (rows : list Trade) (findings : list Finding) :
  Forall (λ sr, 0 <= total_penalty sr
                ∧ 0 <= accuracy_score sr <= 100
                ∧ accuracy_score sr = clamp (100 - total_penalty sr) 0 100)
         (emir_record_scores rows findings).
Proof.
  unfold emir_record_scores. apply Forall_map, Forall_forall. intros t _.
  unfold record_score, clamp, greatest. simpl.
  pose proof (null_penalty_nonneg (uti t)).
  pose proof (null_penalty_nonneg (counterparty_1 t)).
  pose proof (null_penalty_nonneg (action_type t)).
  pose proof (joined_penalty_points_nonneg FORMAT findings t).
  pose proof (joined_penalty_points_nonneg LOGICAL findings t).
  lia.
Qed.

(** On a row complete except for one field, only that field can give a
    completeness finding. *)
Lemma filter_complete_except (name : string) (t : Trade) (l : list Mandatory) :
  forallb (λ m, String.eqb (field m) name || negb (holds (is_missing m t))) l = true →
  List.filter (λ m, holds (is_missing m t)) l
  = List.filter (λ m, String.eqb (field m) name && holds (is_missing m t)) l.
Proof.
  induction l as [| m l IH ]; [ reflexivity |].
  cbn [forallb List.filter]. intros [H1 H2]%andb_prop. rewrite (IH H2).
  destruct (String.eqb (field m) name); cbn [orb andb] in *; [ reflexivity |].
  apply negb_true_iff in H1. rewrite H1. reflexivity.
Qed.

Lemma complete_except_present (name : string) (t : Trade) (m : Mandatory) :
  complete_except name t = true → In m mandatory_fields →
  String.eqb (field m) name = false → holds (is_missing m t) = false.
Proof.
  intros Hc Hin Hne. unfold complete_except in Hc.
  rewrite forallb_forall in Hc. specialize (Hc m Hin).
  rewrite Hne in Hc. apply negb_true_iff. exact Hc.
Qed.

Lemma duplicate_findings_single (t : Trade) : Format.duplicate_findings [t] = [].
Proof.
  unfold Format.duplicate_findings, Format.uti_uniqueness_check.
  cbn [Format.uti_counts foldr].
  destruct (uti t) as [ u |].
  - rewrite lookup_empty. cbn [default]. rewrite insert_empty.
    rewrite map_filter_singleton_False by (cbn; lia).
    rewrite map_to_list_empty. reflexivity.
  - rewrite map_filter_empty, map_to_list_empty. reflexivity.
Qed.

(** The completeness findings do not enter the penalty tables of the
    other phases. *)
Lemma penalty_table_completeness ph (t : Trade) (fs : list Finding) :
  ph ≠ COMPLETENESS →
  penalty_table ph (completeness_validator t ++ fs) = penalty_table ph fs.
Proof.
  intros Hph. unfold completeness_validator.
  induction (List.filter (λ m, holds (is_missing m t)) mandatory_fields) as [| m l IH ];
    [ reflexivity |].
  cbn [map app penalty_table foldr phase]. fold (penalty_table ph).
  rewrite decide_False by congruence. exact IH.
Qed.

(** C5: a record whose [counterparty_1] is missing (NULL or the empty
    string), complete otherwise, with no other format finding and no
    logical finding, has exactly one completeness finding, critical (10
    points), and the score 90.  For NULL the 10 points come from the
    [IS NULL] test of the record-score query; for the empty string they
    come from the LEI format finding, through the join with the format
    errors. *)
Theorem C5_missing_counterparty_1_scores_90 (codes : list string) (t : Trade) :
  holds (missing (counterparty_1 t)) = true →
  complete_except "counterparty_1" t = true →
  forallb (λ f, bool_decide (fieldName f = Some "counterparty_1_lei"))
          (FormatFindings.format_validator codes [t]) = true →
  Logical.logical_validator t = [] →
  completeness_validator t = [ missing_counterparty_1 t ]
  ∧ severity (missing_counterparty_1 t) = CRITICAL
  ∧ severity_weight (severity (missing_counterparty_1 t)) = 10
  ∧ emir_record_scores [t]
      (completeness_validator t ++ FormatFindings.format_validator codes [t]
       ++ Logical.logical_validator t)
    = [ {| score_uti := uti t; total_penalty := 10; accuracy_score := 90 |} ].
Proof.
  intros Hm Hc Hfmt Hlog.
  assert (Hu : holds (missing (uti t)) = false).
  { apply (complete_except_present "counterparty_1" t
             {| field := "uti"; rule := "MISSING_UTI";
                is_missing := λ t, missing (uti t); gap_severity := CRITICAL |} Hc);
      [ cbn; tauto | reflexivity ]. }
  assert (Ha : holds (missing (action_type t)) = false).
  { apply (complete_except_present "counterparty_1" t
             {| field := "action_type"; rule := "MISSING_ACTION_TYPE";
                is_missing := λ t, missing (action_type t); gap_severity := CRITICAL |} Hc);
      [ cbn; tauto | reflexivity ]. }
  assert (Hcomp : completeness_validator t = [ missing_counterparty_1 t ]).
  { unfold completeness_validator.
    rewrite (filter_complete_except "counterparty_1" t _ Hc).
    unfold mandatory_fields. cbn -[missing]. rewrite Hm. reflexivity. }
  split; [ exact Hcomp |]. split; [ reflexivity |]. split; [ reflexivity |].
  assert (Hcp : counterparty_1 t = None ∨ counterparty_1 t = Some "").
  { destruct (counterparty_1 t) as [ s |]; [ right | left; reflexivity ].
    cbn in Hm. destruct (String.eqb_spec s ""); [ congruence | discriminate ]. }
  unfold emir_record_scores.
  rewrite !penalty_table_completeness by discriminate.
  rewrite Hlog, app_nil_r.
  unfold FormatFindings.format_validator in *.
  rewrite duplicate_findings_single, app_nil_r in *.
  cbn [flat_map] in *. rewrite app_nil_r in *.
  unfold FormatFindings.row_findings in *.
  destruct (uti t) as [ u |] eqn:Eu; [| discriminate Hu ].
  destruct (action_type t) as [ act |] eqn:Eact; [| discriminate Ha ].
  destruct (holds (FormatChecks.lei_format_error (counterparty_2 t)));
    [ destruct (holds (FormatChecks.lei_format_error (counterparty_1 t)));
      discriminate Hfmt |].
  destruct (holds (FormatChecks.isin_format_error (isin t)));
    [ destruct (holds (FormatChecks.lei_format_error (counterparty_1 t)));
      discriminate Hfmt |].
  destruct (holds (FormatChecks.currency_format_error codes (notional_currency_1 t)));
    [ destruct (holds (FormatChecks.lei_format_error (counterparty_1 t)));
      discriminate Hfmt |].
  cbn [app].
  destruct Hcp as [ Hcp | Hcp ]; rewrite Hcp; cbn [map].
  - assert (Hlei : holds (FormatChecks.lei_format_error None) = false) by reflexivity.
    rewrite Hlei. cbn [app penalty_table foldr].
    unfold record_score, joined_penalty_points.
    rewrite Eu, Eact, Hcp, !lookup_empty. reflexivity.
  - assert (Hlei : holds (FormatChecks.lei_format_error (Some "")) = true) by reflexivity.
    rewrite Hlei. unfold FormatFindings.format_finding.
    cbn [app penalty_table foldr phase recordId severity].
    rewrite decide_True by reflexivity.
    rewrite decide_False by discriminate.
    unfold record_score, joined_penalty_points.
    rewrite Eu, Eact, Hcp, lookup_insert_eq, !lookup_empty. reflexivity.
Qed.

(** C5 at a record whose [counterparty_1] is the empty string and at one
    where it is NULL. *)
Lemma C5_missing_counterparty_1_witness :
  let codes := [ "USD"; "EUR"; "GBP"; "JPY" ] in
  let t1 := set_counterparty_1 (Some "") sample_trade in
  let t2 := set_counterparty_1 None sample_trade in
  emir_record_scores [t1]
    (completeness_validator t1 ++ FormatFindings.format_validator codes [t1]
     ++ Logical.logical_validator t1)
  = [ {| score_uti := uti t1; total_penalty := 10; accuracy_score := 90 |} ]
  ∧ emir_record_scores [t2]
      (completeness_validator t2 ++ FormatFindings.format_validator codes [t2]
       ++ Logical.logical_validator t2)
    = [ {| score_uti := uti t2; total_penalty := 10; accuracy_score := 90 |} ].
Proof.
  intros codes t1 t2.
  assert (A1 : holds (missing (counterparty_1 t1)) = true) by reflexivity.
  assert (B1 : complete_except "counterparty_1" t1 = true) by (vm_compute; reflexivity).
  assert (C1 : forallb (λ f, bool_decide (fieldName f = Some "counterparty_1_lei"))
                 (FormatFindings.format_validator codes [t1]) = true)
    by (vm_compute; reflexivity).
  assert (D1 : Logical.logical_validator t1 = []) by (vm_compute; reflexivity).
  assert (A2 : holds (missing (counterparty_1 t2)) = true) by reflexivity.
  assert (B2 : complete_except "counterparty_1" t2 = true) by (vm_compute; reflexivity).
  assert (C2 : forallb (λ f, bool_decide (fieldName f = Some "counterparty_1_lei"))
                 (FormatFindings.format_validator codes [t2]) = true)
    by (vm_compute; reflexivity).
  assert (D2 : Logical.logical_validator t2 = []) by (vm_compute; reflexivity).
  split.
  - exact (proj2 (proj2 (proj2 (C5_missing_counterparty_1_scores_90 codes t1 A1 B1 C1 D1)))).
  - exact (proj2 (proj2 (proj2 (C5_missing_counterparty_1_scores_90 codes t2 A2 B2 C2 D2)))).
Defined.

End RecordScoreFacts.

(** ** Logical validation *)

Section LogicalFacts.
Import Sql Trades Logical.

Ltac case_bools :=
  repeat match goal with
         | |- context [ Z.gtb ?a ?b ] => destruct (Z.gtb a b)
         | |- context [ Z.geb ?a ?b ] => destruct (Z.geb a b)
         | |- context [ Qltb ?a ?b ] => destruct (Qltb a b)
         end.

(** Comparing a timestamp with midnight of a date: the timestamp is
    later when its day is later, or when it falls on that date after
    00:00. *)
Lemma later_than_midnight (e d : Z) :
  (e >? date_to_timestamp d)
  = (timestamp_to_date e >? d)
    || ((timestamp_to_date e =? d) && (date_to_timestamp d <? e)).
Proof.
  unfold timestamp_to_date, date_to_timestamp.
  pose proof (Z.div_mod e 86400000 ltac:(lia)) as Hd.
  pose proof (Z.mod_pos_bound e 86400000 ltac:(lia)) as Hm.
  destruct (Z.gtb_spec e (d * 86400000)), (Z.gtb_spec (e / 86400000) d),
    (Z.eqb_spec (e / 86400000) d), (Z.ltb_spec (d * 86400000) e);
    cbn; try reflexivity; lia.
Qed.

(** The date sequence condition is TRUE exactly when the ordering of the
    dates is violated, or the trade was executed during its effective
    date, or the clearing timestamp is far from the execution
    timestamp. *)
Lemma holds_date_sequence_error (t : Trade) :
  holds (date_sequence_error t)
  = temporal_order_violated t || executed_during_effective_date t
    || clearing_far_from_execution t.
Proof.
  unfold date_sequence_error, temporal_order_violated, executed_during_effective_date,
    clearing_far_from_execution, abs_date_diff_day, both.
  destruct (execution_timestamp t) as [ e |], (effective_date t) as [ d |];
    cbn [fmap option_fmap option_map cmp];
    rewrite ?later_than_midnight;
    destruct (expiration_date t), (early_termination_date t), (cleared t) as [ [] |],
      (clearing_timestamp t);
    cbn -[Z.mul Z.div timestamp_to_date date_to_timestamp];
    repeat match goal with
           | |- context [ Z.gtb ?a ?b ] => destruct (Z.gtb a b)
           | |- context [ Z.geb ?a ?b ] => destruct (Z.geb a b)
           | |- context [ Z.eqb ?a ?b ] => destruct (Z.eqb a b)
           | |- context [ Z.ltb ?a ?b ] => destruct (Z.ltb a b)
           end; reflexivity.
Qed.

(** A trade executed during its effective date is selected by the date
    sequence query, against the query's comment "Execution must be
    before or equal to effective date". *)
Lemma execution_during_effective_date_is_flagged :
  let t := set_execution_timestamp (Some (20357 * 86400000 + 37800000)) sample_trade in
  temporal_order_violated t = false
  ∧ clearing_far_from_execution t = false
  ∧ holds (date_sequence_error t) = true.
Proof. repeat split. Qed.

(** On text values that are not the empty string, present means not
    NULL. *)
Lemma text_present_not_empty (x : option string) :
  x ≠ Some "" → text_present x = present x.
Proof.
  intros H. destruct x as [ s |]; [| reflexivity ].
  unfold text_present, present. cbn.
  destruct (String.eqb_spec s ""); [ congruence | reflexivity ].
Qed.

(** Without empty strings in the two currency columns, the notional
    condition is TRUE exactly when the notional rule is violated or the
    valuation amount has no currency. *)
Lemma holds_notional_valuation_inconsistent (t : Trade) :
  notional_currency_1 t ≠ Some "" → valuation_currency t ≠ Some "" →
  holds (notional_valuation_inconsistent t)
  = notional_inconsistent t || valuation_without_currency t.
Proof.
  intros H1 H2.
  unfold notional_valuation_inconsistent, notional_inconsistent,
    valuation_without_currency, Qgtb.
  rewrite (text_present_not_empty _ H1), (text_present_not_empty _ H2).
  unfold present.
  destruct (notional_amount_1 t), (notional_currency_1 t),
    (valuation_amount t), (valuation_currency t);
    cbn -[Qltb inject_Z]; case_bools; reflexivity.
Qed.

(** An amount whose currency is the empty string is not selected by the
    notional query, although the completeness and clearing queries count
    an empty string as missing. *)
Lemma empty_currency_is_not_flagged :
  let t := set_valuation_currency (Some "") sample_trade in
  valuation_without_currency t = true
  ∧ holds (notional_valuation_inconsistent t) = false.
Proof. split; reflexivity. Qed.

(** The findings of a rule of the catalog: one when its condition is
    TRUE on the row, none otherwise. *)
Lemma of_rule_date_sequence (t : Trade) :
  of_rule "DATE_SEQUENCE_ERROR" (logical_validator t)
  = if holds (date_sequence_error t) then [ finding_of date_sequence_rule t ] else [].
Proof.
  unfold logical_validator, rules, of_rule. simpl.
  destruct (holds (date_sequence_error t)), (holds (clearing_logic_error t)),
    (holds (notional_valuation_inconsistent t)); reflexivity.
Qed.

Lemma of_rule_notional (t : Trade) :
  of_rule "NOTIONAL_CONSISTENCY" (logical_validator t)
  = if holds (notional_valuation_inconsistent t) then [ finding_of notional_rule t ] else [].
Proof.
  unfold logical_validator, rules, of_rule. simpl.
  destruct (holds (date_sequence_error t)), (holds (clearing_logic_error t)),
    (holds (notional_valuation_inconsistent t)); reflexivity.
Qed.

(** C4, counterexample: a cleared trade whose dates are in order and
    whose clearing timestamp is six days after its execution timestamp
    receives a DATE_SEQUENCE_ERROR finding. *)
Lemma C4_finding_without_order_violation :
  let t := set_clearing_timestamp (Some (20362 * 86400000 + 37800000)) sample_trade in
  temporal_order_violated t = false
  ∧ of_rule "DATE_SEQUENCE_ERROR" (logical_validator t)
    = [ finding_of date_sequence_rule t ].
Proof. split; reflexivity. Qed.

(** C4, amended: a record that was not executed during its effective
    date receives a DATE_SEQUENCE_ERROR finding, which is critical and of
    the logical phase, exactly when the ordering of its dates is violated
    (a comparison with an absent date not counting as a violation) or it
    is cleared with a clearing timestamp more than 5 days away from the
    execution timestamp; it then receives exactly one.  In particular a
    record executed on a day after its effective date receives exactly
    one such finding. *)
Theorem C4_date_sequence_finding (t : Trade) :
  (executed_during_effective_date t = false →
   of_rule "DATE_SEQUENCE_ERROR" (logical_validator t)
   = (if temporal_order_violated t || clearing_far_from_execution t
      then [ {| recordId := uti t; fieldName := None; phase := LOGICAL;
                ruleId := "DATE_SEQUENCE_ERROR"; severity := CRITICAL |} ]
      else []))
  ∧ (∀ e d, execution_timestamp t = Some e → effective_date t = Some d →
            d < timestamp_to_date e →
            of_rule "DATE_SEQUENCE_ERROR" (logical_validator t)
            = [ {| recordId := uti t; fieldName := None; phase := LOGICAL;
                   ruleId := "DATE_SEQUENCE_ERROR"; severity := CRITICAL |} ]).
Proof.
  rewrite of_rule_date_sequence, holds_date_sequence_error.
  split.
  - intros ->. rewrite orb_false_r. reflexivity.
  - intros e d He Hd Hlt.
    assert (Hv : temporal_order_violated t = true).
    { unfold temporal_order_violated, both. rewrite He, Hd. cbn [fmap option_fmap option_map].
      replace (timestamp_to_date e >? d) with true; [ reflexivity |].
      symmetry. apply Z.gtb_lt. exact Hlt. }
    rewrite Hv. reflexivity.
Qed.

(** C4 at a trade executed on 2025-09-27, a day after its effective
    date, and at the sample trade, executed the day before it. *)
Lemma C4_date_sequence_witness :
  let t := set_execution_timestamp (Some (20358 * 86400000 + 3600000)) sample_trade in
  of_rule "DATE_SEQUENCE_ERROR" (logical_validator t)
  = [ {| recordId := uti t; fieldName := None; phase := LOGICAL;
         ruleId := "DATE_SEQUENCE_ERROR"; severity := CRITICAL |} ]
  ∧ of_rule "DATE_SEQUENCE_ERROR" (logical_validator sample_trade) = [].
Proof.
  intros t. split.
  - apply (proj2 (C4_date_sequence_finding t) (20358 * 86400000 + 3600000) 20357);
      reflexivity.
  - apply (proj1 (C4_date_sequence_finding sample_trade)). reflexivity.
Defined.

(** C8, counterexample: a trade with notional amount and currency both
    present and the amount in range, whose valuation amount has no
    currency, receives the notional finding. *)
Lemma C8_finding_without_notional_violation :
  let t := set_valuation_currency None sample_trade in
  notional_inconsistent t = false
  ∧ of_rule "NOTIONAL_CONSISTENCY" (logical_validator t)
    = [ finding_of notional_rule t ].
Proof. split; reflexivity. Qed.

(** C8, amended: a record whose notional and valuation currency are not
    the empty string receives the notional/valuation finding, which is
    major, exactly when the notional amount is present without the
    notional currency, or the currency without the amount, or the amount
    is outside [0, 1e12], or the valuation amount is present without the
    valuation currency; it then receives exactly one. *)
Theorem C8_notional_finding (t : Trade) :
  notional_currency_1 t ≠ Some "" → valuation_currency t ≠ Some "" →
  of_rule "NOTIONAL_CONSISTENCY" (logical_validator t)
  = if notional_inconsistent t || valuation_without_currency t
    then [ {| recordId := uti t; fieldName := None; phase := LOGICAL;
              ruleId := "NOTIONAL_CONSISTENCY"; severity := MAJOR |} ]
    else [].
Proof.
  intros H1 H2.
  rewrite of_rule_notional, (holds_notional_valuation_inconsistent t H1 H2). reflexivity.
Qed.

(** C8 at a trade whose notional amount has no currency, and at the
    sample trade. *)
Lemma C8_notional_finding_witness :
  let t := set_valuation_currency None sample_trade in
  of_rule "NOTIONAL_CONSISTENCY" (logical_validator t)
  = [ {| recordId := uti t; fieldName := None; phase := LOGICAL;
         ruleId := "NOTIONAL_CONSISTENCY"; severity := MAJOR |} ]
  ∧ of_rule "NOTIONAL_CONSISTENCY" (logical_validator sample_trade) = [].
Proof.
  intros t. split.
  - apply (C8_notional_finding t); discriminate.
  - apply (C8_notional_finding sample_trade); discriminate.
Defined.

End LogicalFacts.

(** ** UTI uniqueness *)

Section FormatFacts.
Import Sql Trades Format.

(** The count of a group is the number of rows that carry its UTI. *)
Lemma uti_counts_lookup (rows : list Trade) (u : string) :
  uti_counts rows !! u
  = if decide (occurrences u rows = 0%nat) then None else Some (occurrences u rows).
Proof.
  unfold occurrences. induction rows as [| t rows IH ]; [ reflexivity |].
  cbn [uti_counts foldr]. fold (uti_counts rows).
  destruct (uti t) as [ k |] eqn:E.
  - destruct (decide (k = u)) as [ -> | Hne ].
    + rewrite lookup_insert_eq, filter_cons_True by exact E.
      rewrite IH. case_decide as H0; cbn [length]; [ rewrite H0 |]; reflexivity.
    + rewrite lookup_insert_ne by exact Hne.
      rewrite filter_cons_False by congruence. exact IH.
  - rewrite filter_cons_False by congruence. exact IH.
Qed.

(** The uniqueness check returns a UTI exactly when more than one row
    carries it, with the number of those rows. *)
Lemma uti_uniqueness_check_lookup (rows : list Trade) (u : string) (n : nat) :
  uti_uniqueness_check rows !! u = Some n ↔ occurrences u rows = n ∧ (1 < n)%nat.
Proof.
  unfold uti_uniqueness_check.
  rewrite map_lookup_filter_Some, uti_counts_lookup. cbn.
  case_decide; split; intros [H1 H2]; try (split; congruence); try lia.
Qed.








End FormatFacts.

(** ** The pipeline *)

Section PipelineFacts.
Import Pipeline.

Lemma stepb_step (s s' : State) : stepb s s' = true ↔ step s s'.
Proof. unfold stepb, step. apply bool_decide_eq_true. Qed.

(** The successors of the parallel state, case by case. *)
Lemma step_parallel (f l : BranchState) (s' : State) :
  step (FORMAT_AND_LOGICAL f l) s' ↔
    (s' = SCORING 0 ∧ f = Succeeded ∧ l = Succeeded)
    ∨ s' = FAILED
    ∨ (∃ f', s' = FORMAT_AND_LOGICAL f' l ∧ f' ∈ branch_next f)
    ∨ (∃ l', s' = FORMAT_AND_LOGICAL f l' ∧ l' ∈ branch_next l).
Proof.
  unfold step. cbn [next].
  rewrite !elem_of_app, !list_elem_of_fmap, list_elem_of_singleton.
  assert (H1 : s' ∈ (if succeeded f && succeeded l then [SCORING 0] else [])
               ↔ s' = SCORING 0 ∧ f = Succeeded ∧ l = Succeeded).
  { destruct f, l; cbn; rewrite ?list_elem_of_singleton, ?elem_of_nil;
      intuition congruence. }
  rewrite H1. reflexivity.
Qed.

(** A phase with retries goes on, is retried, or fails. *)
Lemma elem_of_phase_next (n : nat) (again : nat → State) (ok s' : State) :
  s' ∈ phase_next n again ok → s' = ok ∨ s' = again (S n) ∨ s' = FAILED.
Proof.
  unfold phase_next. destruct (n <? maxRetries)%nat; cbn [app];
    rewrite !elem_of_cons, ?elem_of_nil; tauto.
Qed.

(** The parallel state is entered from the completeness phase only, as
    the success of that phase. *)
Lemma step_into_validation (s : State) (f l : BranchState) :
  step s (FORMAT_AND_LOGICAL f l) →
  (∃ n, s = COMPLETENESS n) ∨ is_validation s = true.
Proof.
  destruct s as [ | n | f0 l0 | n | | ]; intros H.
  - unfold step in H. cbn in H. rewrite !elem_of_cons, elem_of_nil in H.
    destruct H as [ H | [ H | [] ] ]; discriminate.
  - left. exists n. reflexivity.
  - right. reflexivity.
  - apply elem_of_phase_next in H as [ H | [ H | H ] ]; discriminate.
  - apply elem_of_nil in H. contradiction.
  - apply elem_of_nil in H. contradiction.
Qed.

(** Scoring is entered from the barrier only. *)
Lemma step_into_scoring (s : State) (n : nat) :
  step s (SCORING n) → s = barrier ∨ ∃ m, s = SCORING m.
Proof.
  destruct s as [ | m | f l | m | | ]; intros H.
  - unfold step in H. cbn in H. rewrite !elem_of_cons, elem_of_nil in H.
    destruct H as [ H | [ H | [] ] ]; discriminate.
  - apply elem_of_phase_next in H as [ H | [ H | H ] ]; discriminate.
  - apply step_parallel in H.
    destruct H as [ (_ & -> & ->) | [ H | [ (? & H & _) | (? & H & _) ] ] ];
      [ left; reflexivity | discriminate.. ].
  - right. exists m. reflexivity.
  - apply elem_of_nil in H. contradiction.
  - apply elem_of_nil in H. contradiction.
Qed.

(** The run never returns to an earlier phase. *)
Lemma step_before_validation (s s' : State) :
  step s s' → before_validation s' = true → before_validation s = true.
Proof.
  destruct s as [ | m | f l | m | | ]; intros H Hb; try reflexivity.
  - apply step_parallel in H.
    destruct H as [ (-> & _) | [ -> | [ (? & -> & _) | (? & -> & _) ] ] ]; discriminate.
  - apply elem_of_phase_next in H as [ -> | [ -> | -> ] ]; discriminate.
  - apply elem_of_nil in H. contradiction.
  - apply elem_of_nil in H. contradiction.
Qed.

Lemma step_not_before_validation (s s' : State) :
  step s s' → before_validation s = false → before_validation s' = false.
Proof.
  intros H Hb. destruct (before_validation s') eqn:E; [| reflexivity ].
  rewrite (step_before_validation s s' H E) in Hb. discriminate.
Qed.

Lemma step_before_scoring (s s' : State) :
  step s s' → before_scoring s' = true → before_scoring s = true.
Proof.
  destruct s as [ | m | f l | m | | ]; intros H Hb; try reflexivity.
  - apply elem_of_phase_next in H as [ -> | [ -> | -> ] ]; discriminate.
  - apply elem_of_nil in H. contradiction.
  - apply elem_of_nil in H. contradiction.
Qed.

Lemma step_after_scoring (s s' : State) :
  step s s' → after_scoring s = true → after_scoring s' = true.
Proof.
  destruct s as [ | m | f l | m | | ]; intros H Ha; try discriminate.
  - apply elem_of_nil in H. contradiction.
  - apply elem_of_nil in H. contradiction.
Qed.

(** A branch that has used up its retries stays so: from a state with a
    failed branch the run reaches only such states and FAILED. *)
Lemma step_branch_failed (s s' : State) :
  step s s' → branch_failed s = true →
  s' = FAILED ∨ branch_failed s' = true.
Proof.
  destruct s as [ | m | f l | m | | ]; intros H Hb; try discriminate.
  apply step_parallel in H.
  destruct H as [ (_ & -> & ->) | [ -> | [ (f' & -> & Hf) | (l' & -> & Hl) ] ] ].
  - discriminate.
  - left. reflexivity.
  - right. cbn [branch_failed] in *. rewrite !orb_true_iff in *.
    destruct Hb as [ Hb | Hb ]; [| tauto ].
    destruct f; try discriminate. apply elem_of_nil in Hf. contradiction.
  - right. cbn [branch_failed] in *. rewrite !orb_true_iff in *.
    destruct Hb as [ Hb | Hb ]; [ tauto |].
    destruct l; try discriminate. apply elem_of_nil in Hl. contradiction.
Qed.

(** A state with a failed branch can go to FAILED. *)
Lemma branch_failed_step_failed (s : State) :
  branch_failed s = true → step s FAILED.
Proof.
  destruct s as [ | m | f l | m | | ]; intros Hb; try discriminate.
  apply step_parallel. right. left. reflexivity.
Qed.

Lemma chain_cons (s s' : State) (rest : list State) :
  chain s (s' :: rest) = true ↔ step s s' ∧ chain s' rest = true.
Proof. cbn [chain]. rewrite andb_true_iff, stepb_step. reflexivity. Qed.

(** A chain through [x] splits at [x]. *)
Lemma chain_app (s x : State) (l1 l2 : list State) :
  chain s (l1 ++ x :: l2) = true →
  chain s (l1 ++ [x]) = true ∧ chain x l2 = true.
Proof.
  revert s. induction l1 as [| y l1 IH ]; intros s; cbn [app].
  - rewrite !chain_cons. intros [H1 H2]. repeat split; assumption.
  - rewrite !chain_cons. intros [H1 H2]. apply IH in H2 as [H2 H3].
    repeat split; assumption.
Qed.

Lemma chain_after_scoring (s : State) (tr : list State) :
  after_scoring s = true → chain s tr = true →
  Forall (λ y, after_scoring y = true) tr.
Proof.
  revert s. induction tr as [| y tr IH ]; intros s Ha Hc; [ constructor |].
  apply chain_cons in Hc as [Hs Hc].
  pose proof (step_after_scoring s y Hs Ha) as Hy.
  constructor; [ exact Hy | exact (IH y Hy Hc) ].
Qed.

Lemma chain_not_before_validation (s : State) (tr : list State) :
  before_validation s = false → chain s tr = true →
  Forall (λ y, before_validation y = false) tr.
Proof.
  revert s. induction tr as [| y tr IH ]; intros s Hb Hc; [ constructor |].
  apply chain_cons in Hc as [Hs Hc].
  pose proof (step_not_before_validation s y Hs Hb) as Hy.
  constructor; [ exact Hy | exact (IH y Hy Hc) ].
Qed.

Lemma chain_branch_failed (s : State) (tr : list State) :
  s = FAILED ∨ branch_failed s = true → chain s tr = true →
  Forall (λ y, y = FAILED ∨ branch_failed y = true) tr.
Proof.
  revert s. induction tr as [| y tr IH ]; intros s Hf Hc; [ constructor |].
  apply chain_cons in Hc as [Hs Hc].
  assert (Hy : y = FAILED ∨ branch_failed y = true).
  { destruct Hf as [ -> | Hf ].
    - apply elem_of_nil in Hs. contradiction.
    - exact (step_branch_failed s y Hs Hf). }
  constructor; [ exact Hy | exact (IH y Hy Hc) ].
Qed.

(** Everything before a state of the parallel phase is of that phase or
    earlier. *)
Lemma chain_before_scoring (s x : State) (l : list State) :
  chain s (l ++ [x]) = true → before_scoring x = true →
  Forall (λ y, before_scoring y = true) (s :: l).
Proof.
  revert s. induction l as [| y l IH ]; intros s Hc Hx; cbn [app] in Hc.
  - apply chain_cons in Hc as [Hs _]. constructor; [| constructor ].
    exact (step_before_scoring s x Hs Hx).
  - apply chain_cons in Hc as [Hs Hc].
    pose proof (IH y Hc Hx) as Hall.
    constructor; [| exact Hall ].
    apply Forall_cons in Hall as [Hy _].
    exact (step_before_scoring s y Hs Hy).
Qed.

(** A chain that starts before the parallel state and reaches it has
    passed a state of the completeness phase just before entering it. *)
Lemma chain_reaches_validation (s : State) (l : list State) (f b : BranchState) :
  before_validation s = true → chain s (l ++ [FORMAT_AND_LOGICAL f b]) = true →
  ∃ n, COMPLETENESS n ∈ s :: l.
Proof.
  revert s. induction l as [| y l IH ]; intros s Hb Hc; cbn [app] in Hc.
  - apply chain_cons in Hc as [Hs _].
    apply step_into_validation in Hs as [ [n ->] | Hv ].
    + exists n. left.
    + destruct s; discriminate.
  - apply chain_cons in Hc as [Hs Hc].
    destruct (before_validation y) eqn:Hy.
    + destruct (IH y Hy Hc) as (n & Hn). exists n. right. exact Hn.
    + destruct s as [ | n | | | | ]; try discriminate.
      * unfold step in Hs. cbn in Hs. rewrite !elem_of_cons, elem_of_nil in Hs.
        destruct Hs as [ -> | [ -> | [] ] ]; [ discriminate |].
        apply chain_app in Hc as [Hc _].
        destruct l; cbn [app] in Hc; apply chain_cons in Hc as [Hs _];
          apply elem_of_nil in Hs; contradiction.
      * exists n. left.
Qed.

(** A chain that starts no later than the parallel state and reaches
    scoring has passed the barrier. *)
Lemma chain_reaches_scoring (s : State) (l : list State) (n : nat) :
  before_scoring s = true → chain s (l ++ [SCORING n]) = true →
  barrier ∈ s :: l.
Proof.
  revert s. induction l as [| y l IH ]; intros s Hb Hc; cbn [app] in Hc.
  - apply chain_cons in Hc as [Hs _].
    apply step_into_scoring in Hs as [ -> | [m ->] ]; [ left | discriminate ].
  - apply chain_cons in Hc as [Hs Hc].
    destruct (before_scoring y) eqn:Hy.
    + right. exact (IH y Hy Hc).
    + destruct (after_scoring y) eqn:Ha.
      * pose proof (chain_after_scoring y _ Ha Hc) as Hall.
        apply Forall_app in Hall as [_ Hall].
        apply Forall_cons in Hall as [Hbad _]. discriminate.
      * destruct y; try discriminate.
        apply step_into_scoring in Hs as [ -> | [m ->] ]; [ left | discriminate ].
Qed.

(** C3: in every run of the state machine of the specification, a
    state of the parallel phase comes after a state of the completeness
    phase and no completeness state comes after it; scoring is entered
    only after the barrier, the state in which both branches have
    reported success; and when a branch has failed with its retries used
    up, the run can go to FAILED, every later state is FAILED or a state
    with the failed branch, and no state of the run is a scoring
    state. *)
Theorem C3_scoring_only_after_both_branches_succeed :
  (∀ pre f l post,
     is_run (pre ++ FORMAT_AND_LOGICAL f l :: post) = true →
     (∃ n, COMPLETENESS n ∈ pre)
     ∧ Forall (λ y, is_completeness y = false) post)
  ∧ (∀ pre n post,
       is_run (pre ++ SCORING n :: post) = true → barrier ∈ pre)
  ∧ (∀ pre x post,
       is_run (pre ++ x :: post) = true → branch_failed x = true →
       step x FAILED
       ∧ Forall (λ y, y = FAILED ∨ (branch_failed y = true ∧ step y FAILED)) post
       ∧ Forall (λ y, is_scoring y = false) (pre ++ x :: post)).
Proof.
  split; [| split ].
  - intros [| s pre ] f l post Hrun; cbn [app is_run] in Hrun.
    + apply andb_true_iff in Hrun as [Hs _].
      apply bool_decide_eq_true in Hs. discriminate.
    + apply andb_true_iff in Hrun as [Hs Hc].
      apply bool_decide_eq_true in Hs. subst s.
      apply chain_app in Hc as [Hc1 Hc2]. split.
      * apply (chain_reaches_validation INITIATED pre f l); [ reflexivity | exact Hc1 ].
      * eapply Forall_impl;
          [ exact (chain_not_before_validation (FORMAT_AND_LOGICAL f l) post eq_refl Hc2) |].
        intros y Hy. destruct y; try discriminate; reflexivity.
  - intros [| s pre ] n post Hrun; cbn [app is_run] in Hrun.
    + apply andb_true_iff in Hrun as [Hs _].
      apply bool_decide_eq_true in Hs. discriminate.
    + apply andb_true_iff in Hrun as [Hs Hc].
      apply bool_decide_eq_true in Hs. subst s.
      apply chain_app in Hc as [Hc _].
      apply (chain_reaches_scoring INITIATED pre n); [ reflexivity | exact Hc ].
  - intros pre x post Hrun Hx.
    assert (Hbx : before_scoring x = true) by (destruct x; try discriminate; reflexivity).
    assert (Hpost : chain x post = true ∧ Forall (λ y, before_scoring y = true) pre).
    { destruct pre as [| s pre ]; cbn [app is_run] in Hrun;
        apply andb_true_iff in Hrun as [Hs Hc].
      - split; [ exact Hc | constructor ].
      - apply chain_app in Hc as [Hc1 Hc2].
        split; [ exact Hc2 | exact (chain_before_scoring s x pre Hc1 Hbx) ]. }
    destruct Hpost as [Hc Hpre].
    pose proof (chain_branch_failed x post (or_intror Hx) Hc) as Hall.
    split; [| split ].
    + exact (branch_failed_step_failed x Hx).
    + eapply Forall_impl; [ exact Hall |].
      intros y [ -> | Hy ]; [ left; reflexivity | right ].
      split; [ exact Hy | exact (branch_failed_step_failed y Hy) ].
    + apply Forall_app. split; [| constructor ].
      * eapply Forall_impl; [ exact Hpre |]. intros y Hy. destruct y; try discriminate; reflexivity.
      * destruct x; try discriminate; reflexivity.
      * eapply Forall_impl; [ exact Hall |].
        intros y [ -> | Hy ]; [ reflexivity | destruct y; try discriminate; reflexivity ].
Qed.

(** C3 at two runs: one that reaches scoring through the barrier after a
    retry of the logical branch, and one whose format branch fails four
    times. *)
Lemma C3_scoring_after_barrier_witness :
  barrier ∈ [ INITIATED; COMPLETENESS 0;
              FORMAT_AND_LOGICAL (Running 0) (Running 0);
              FORMAT_AND_LOGICAL Succeeded (Running 0);
              FORMAT_AND_LOGICAL Succeeded (Running 1);
              barrier ]
  ∧ Forall (λ y, is_scoring y = false)
      ([ INITIATED; COMPLETENESS 0; COMPLETENESS 1;
         FORMAT_AND_LOGICAL (Running 0) (Running 0);
         FORMAT_AND_LOGICAL (Running 1) (Running 0);
         FORMAT_AND_LOGICAL (Running 2) (Running 0);
         FORMAT_AND_LOGICAL (Running 3) (Running 0) ]
       ++ FORMAT_AND_LOGICAL Exhausted (Running 0)
          :: [ FORMAT_AND_LOGICAL Exhausted Succeeded; FAILED ]).
Proof.
  split.
  - apply (proj1 (proj2 C3_scoring_only_after_both_branches_succeed) _ 0%nat [ COMPLETED ]).
    vm_compute. reflexivity.
  - apply (proj2 (proj2 C3_scoring_only_after_both_branches_succeed)
             _ (FORMAT_AND_LOGICAL Exhausted (Running 0))
             [ FORMAT_AND_LOGICAL Exhausted Succeeded; FAILED ]).
    + vm_compute. reflexivity.
    + reflexivity.
Defined.

End PipelineFacts.

(** ** More on the overall score *)

Section ScoreExtras.
Import JS Scoring.

(** Comparing a rational with an integer, given its multiple. *)
Lemma scaled_compare (q : Q) (m z c : Z) :
  0 < m → (q * inject_Z m == inject_Z z)%Q →
  ((inject_Z c <= q)%Q ↔ c * m <= z) ∧ ((q <= inject_Z c)%Q ↔ z <= c * m).
Proof.
  intros Hm Hq.
  assert (HmQ : (0 < inject_Z m)%Q).
  { change 0%Q with (inject_Z 0). rewrite <- Zlt_Qlt. exact Hm. }
  split.
  - rewrite <- (Qmult_le_r _ _ _ HmQ), Hq, <- inject_Z_mult, <- Zle_Qle. reflexivity.
  - rewrite <- (Qmult_le_r _ _ _ HmQ), Hq, <- inject_Z_mult, <- Zle_Qle. reflexivity.
Qed.

(** X2: for an empty batch ([totalRecords = 0]) the score is NaN when no
    penalty was counted and 0 otherwise, and it is classified RED in both
    cases. *)
Theorem empty_batch_score vr :
  (penaltySum vr = 0 → calculateAccuracyScore vr 0 = NaN)
  ∧ (0 < penaltySum vr → calculateAccuracyScore vr 0 = Fin (inject_Z 0))
  ∧ status (getTrafficLightStatus (calculateAccuracyScore vr 0)) = "RED".
Proof.
  unfold calculateAccuracyScore.
  destruct (totalPenalty_fin vr) as (p & -> & Hp).
  pose proof (penaltySum_nonneg vr) as HP.
  set (P := penaltySum vr) in *.
  cbn [of_N of_Z mul sub neg add div Z.of_N].
  assert (E0 : Qeq_bool (inject_Z 0 * inject_Z 100) 0 = true) by reflexivity.
  rewrite E0.
  assert (Hs : (inject_Z 0 * inject_Z 100 + - p == - inject_Z P)%Q).
  { rewrite Hp. change (inject_Z 0) with 0%Q. ring. }
  unfold sign. rewrite (Qcompare_comp _ _ Hs 0%Q 0%Q (Qeq_refl 0%Q)).
  destruct (Z.eq_dec P 0) as [ E | E ].
  - rewrite E. cbn. repeat split; try reflexivity. lia.
  - assert (Hlt : (- inject_Z P < 0)%Q).
    { rewrite <- inject_Z_opp. change 0%Q with (inject_Z 0).
      rewrite <- Zlt_Qlt. lia. }
    rewrite (proj1 (Qlt_alt _ _) Hlt). cbn.
    repeat split; try reflexivity. lia.
Qed.

Lemma empty_batch_score_witness :
  calculateAccuracyScore [] 0 = NaN
  ∧ calculateAccuracyScore [ {| errorCount := 1; Scoring.severity := "MINOR" |} ] 0
    = Fin (inject_Z 0).
Proof.
  split.
  - apply (proj1 (empty_batch_score [])). reflexivity.
  - apply (proj1 (proj2 (empty_batch_score
                           [ {| errorCount := 1; Scoring.severity := "MINOR" |} ]))).
    reflexivity.
Defined.

(** X3: a result whose severity is none of the strings CRITICAL, MAJOR and
    MINOR (in capitals) is ignored: it changes neither the total penalty
    nor the score, wherever it stands in the list. *)
Theorem unknown_severity_is_ignored vr1 vr2 (r : ValidationResult) (totalRecords : N) :
  Scoring.severity r ∉ [ "CRITICAL"; "MAJOR"; "MINOR" ] →
  totalPenalty (vr1 ++ r :: vr2) = totalPenalty (vr1 ++ vr2)
  ∧ calculateAccuracyScore (vr1 ++ r :: vr2) totalRecords
    = calculateAccuracyScore (vr1 ++ vr2) totalRecords.
Proof.
  intros Hr.
  assert (Hskip : ∀ acc, applyPenalty acc r = acc).
  { intros acc. unfold applyPenalty.
    destruct (String.eqb_spec (Scoring.severity r) "CRITICAL") as [ E |_ ];
      [ exfalso; apply Hr; rewrite E; set_solver |].
    destruct (String.eqb_spec (Scoring.severity r) "MAJOR") as [ E |_ ];
      [ exfalso; apply Hr; rewrite E; set_solver |].
    destruct (String.eqb_spec (Scoring.severity r) "MINOR") as [ E |_ ];
      [ exfalso; apply Hr; rewrite E; set_solver |].
    reflexivity. }
  assert (Hp : totalPenalty (vr1 ++ r :: vr2) = totalPenalty (vr1 ++ vr2)).
  { unfold totalPenalty. rewrite !fold_left_app. cbn [fold_left].
    rewrite Hskip. reflexivity. }
  split; [ exact Hp |].
  unfold calculateAccuracyScore. rewrite Hp. reflexivity.
Qed.

Lemma unknown_severity_is_ignored_witness :
  calculateAccuracyScore
    ([ {| errorCount := 3; Scoring.severity := "MAJOR" |} ]
     ++ {| errorCount := 500; Scoring.severity := "critical" |} :: []) 100
  = calculateAccuracyScore
      ([ {| errorCount := 3; Scoring.severity := "MAJOR" |} ] ++ []) 100.
Proof.
  refine (proj2 (unknown_severity_is_ignored
                   [ {| errorCount := 3; Scoring.severity := "MAJOR" |} ] []
                   {| errorCount := 500; Scoring.severity := "critical" |} 100 _)).
  vm_compute. intros H.
  repeat (apply elem_of_cons in H as [ H | H ]; [ discriminate H |]).
  apply elem_of_nil in H. exact H.
Defined.

Lemma penaltySum_permutation vr vr' :
  vr ≡ₚ vr' → penaltySum vr = penaltySum vr'.
Proof.
  unfold penaltySum.
  induction 1 as [| r l l' _ IH | r1 r2 l | l1 l2 l3 _ IH1 _ IH2 ];
    cbn [foldr]; lia.
Qed.

End ScoreExtras.

(** ** Rounding to the nearest double *)

Section RoundingFacts.
Import Binary64.

Lemma pow2_pos (e : Z) : (0 < pow2 e)%Q.
Proof. apply Qpower_0_lt. reflexivity. Qed.

Lemma pow2_add (a b : Z) : (pow2 (a + b) == pow2 a * pow2 b)%Q.
Proof. apply Qpower_plus. discriminate. Qed.

Lemma pow2_le (a b : Z) : a <= b → (pow2 a <= pow2 b)%Q.
Proof. intros H. apply Qpower_le_compat_l; [ exact H | discriminate ]. Qed.

Lemma pow2_lt (a b : Z) : a < b → (pow2 a < pow2 b)%Q.
Proof. intros H. apply Qpower_lt_compat_l; [ exact H | reflexivity ]. Qed.

Lemma pow2_lt_inv (a b : Z) : (pow2 a < pow2 b)%Q → a < b.
Proof. intros H. apply (Qpower_lt_compat_l_inv 2); [ exact H | reflexivity ]. Qed.

Lemma pow2_inject (n : Z) : 0 <= n → (pow2 n == inject_Z (2 ^ n))%Q.
Proof. intros H. unfold pow2. rewrite Zpower_Qpower by exact H. reflexivity. Qed.

Lemma pow2_sub (a b : Z) : (pow2 (a - b) == pow2 a / pow2 b)%Q.
Proof.
  assert (H := pow2_add (a - b) b). replace (a - b + b) with a in H by ring.
  rewrite H. field. intros H0. pose proof (pow2_pos b) as Hp. rewrite H0 in Hp.
  revert Hp. apply Qlt_irrefl.
Qed.

(** Comparing two fractions of integers with positive denominators. *)
Lemma Qdiv_lt_cross (n d p q : Z) :
  0 < d → 0 < q →
  n * q < p * d → (inject_Z n / inject_Z d < inject_Z p / inject_Z q)%Q.
Proof.
  intros Hd Hq H.
  assert (HdQ : (0 < inject_Z d)%Q) by (change 0%Q with (inject_Z 0); rewrite <- Zlt_Qlt; exact Hd).
  assert (HqQ : (0 < inject_Z q)%Q) by (change 0%Q with (inject_Z 0); rewrite <- Zlt_Qlt; exact Hq).
  apply Qlt_shift_div_r; [ exact HdQ |].
  assert (E : (inject_Z p / inject_Z q * inject_Z d == inject_Z (p * d) / inject_Z q)%Q).
  { rewrite inject_Z_mult. field. intros H0. rewrite H0 in HqQ. revert HqQ. apply Qlt_irrefl. }
  rewrite E. apply Qlt_shift_div_l; [ exact HqQ |].
  rewrite <- inject_Z_mult, <- Zlt_Qlt. exact H.
Qed.

Lemma floor_log2_spec (x : Q) :
  (0 < x)%Q → (pow2 (floor_log2 x) <= x < pow2 (floor_log2 x + 1))%Q.
Proof.
  intros Hx. destruct x as [n d].
  assert (Hn : 0 < n).
  { unfold Qlt in Hx. cbn in Hx. lia. }
  unfold floor_log2. cbn [Qnum Qden].
  set (a := Z.log2 n). set (b := Z.log2 (Z.pos d)).
  assert (Ha : 2 ^ a <= n < 2 ^ (a + 1)).
  { pose proof (Z.log2_spec n Hn) as H. unfold Z.succ in H. exact H. }
  assert (Hb : 2 ^ b <= Z.pos d < 2 ^ (b + 1)).
  { pose proof (Z.log2_spec (Z.pos d) ltac:(lia)) as H. unfold Z.succ in H. exact H. }
  assert (Ha0 : 0 <= a) by apply Z.log2_nonneg.
  assert (Hb0 : 0 <= b) by apply Z.log2_nonneg.
  assert (Hx' : (n # d == inject_Z n / inject_Z (Z.pos d))%Q) by apply Qmake_Qdiv.
  assert (Hpa : 0 < 2 ^ a) by (apply Z.pow_pos_nonneg; lia).
  assert (Hpb : 0 < 2 ^ b) by (apply Z.pow_pos_nonneg; lia).
  assert (Hpa1 : 2 ^ (a + 1) = 2 * 2 ^ a) by (rewrite Z.pow_add_r by lia; lia).
  assert (Hpb1 : 2 ^ (b + 1) = 2 * 2 ^ b) by (rewrite Z.pow_add_r by lia; lia).
  (* the value lies strictly between 2^(a-b-1) and 2^(a-b+1) *)
  assert (Hup : (n # d < pow2 (a - b + 1))%Q).
  { replace (a - b + 1) with ((a + 1) - b) by ring.
    rewrite pow2_sub, (pow2_inject (a + 1)), (pow2_inject b), Hx' by lia.
    apply Qdiv_lt_cross; [ lia | lia | nia ]. }
  assert (Hlo : (pow2 (a - b - 1) < n # d)%Q).
  { replace (a - b - 1) with (a - (b + 1)) by ring.
    rewrite pow2_sub, (pow2_inject a), (pow2_inject (b + 1)), Hx' by lia.
    apply Qdiv_lt_cross; [ lia | lia | nia ]. }
  destruct (Qle_bool (pow2 (a - b)) (n # d)) eqn:E.
  - apply Qle_bool_iff in E. split; assumption.
  - split.
    + apply Qlt_le_weak. exact Hlo.
    + replace (a - b - 1 + 1) with (a - b) by ring.
      apply Qnot_le_lt. intros H. apply Qle_bool_iff in H. congruence.
Qed.

Lemma floor_log2_unique (x : Q) (k : Z) :
  (pow2 k <= x < pow2 (k + 1))%Q → floor_log2 x = k.
Proof.
  intros [H1 H2].
  assert (Hx : (0 < x)%Q) by (eapply Qlt_le_trans; [ apply (pow2_pos k) | exact H1 ]).
  destruct (floor_log2_spec x Hx) as [H3 H4].
  assert (k < floor_log2 x + 1).
  { apply pow2_lt_inv. eapply Qle_lt_trans; eassumption. }
  assert (floor_log2 x < k + 1).
  { apply pow2_lt_inv. eapply Qle_lt_trans; eassumption. }
  lia.
Qed.

Lemma floor_log2_mono (x y : Q) :
  (0 < x)%Q → (x <= y)%Q → floor_log2 x <= floor_log2 y.
Proof.
  intros Hx Hxy.
  assert (Hy : (0 < y)%Q) by (eapply Qlt_le_trans; eassumption).
  destruct (floor_log2_spec x Hx) as [H1 _].
  destruct (floor_log2_spec y Hy) as [_ H2].
  assert (floor_log2 x < floor_log2 y + 1); [| lia ].
  apply pow2_lt_inv. eapply Qle_lt_trans; [ exact H1 |].
  eapply Qle_lt_trans; eassumption.
Qed.

Lemma floor_log2_ext (x y : Q) :
  (0 < x)%Q → (x == y)%Q → floor_log2 x = floor_log2 y.
Proof.
  intros Hx E. symmetry. apply floor_log2_unique. rewrite <- E.
  apply floor_log2_spec, Hx.
Qed.


Lemma round_half_even_bounds (q : Q) :
  Qfloor q <= round_half_even q <= Qfloor q + 1.
Proof.
  unfold round_half_even.
  destruct (q - inject_Z (Qfloor q) ?= 1 # 2)%Q; [ destruct (Z.even _) | |]; lia.
Qed.

Lemma round_half_even_ext (x y : Q) :
  (x == y)%Q → round_half_even x = round_half_even y.
Proof.
  intros E. unfold round_half_even.
  assert (Hf : Qfloor x = Qfloor y) by (rewrite E; reflexivity).
  rewrite Hf.
  assert (Hc : (x - inject_Z (Qfloor y) ?= 1 # 2)%Q = (y - inject_Z (Qfloor y) ?= 1 # 2)%Q).
  { apply Qcompare_comp; [ rewrite E; reflexivity | reflexivity ]. }
  rewrite Hc. reflexivity.
Qed.

Lemma round_half_even_Z (z : Z) : round_half_even (inject_Z z) = z.
Proof.
  unfold round_half_even. rewrite Qfloor_Z.
  assert (H : (inject_Z z - inject_Z z ?= 1 # 2)%Q = Lt).
  { apply (proj1 (Qlt_alt _ _)). set (a := inject_Z z). clearbody a. lra. }
  rewrite H. reflexivity.
Qed.

Lemma round_half_even_mono (x y : Q) :
  (x <= y)%Q → round_half_even x <= round_half_even y.
Proof.
  intros Hxy.
  pose proof (Qfloor_resp_le x y Hxy) as Hf.
  pose proof (round_half_even_bounds x) as Bx.
  pose proof (round_half_even_bounds y) as By.
  destruct (Z.eq_dec (Qfloor x) (Qfloor y)) as [ E | E ]; [| lia ].
  unfold round_half_even in *. rewrite <- E in *.
  set (f := Qfloor x) in *.
  destruct (Qcompare_spec (x - inject_Z f) (1 # 2)) as [ Hx | Hx | Hx ];
    destruct (Qcompare_spec (y - inject_Z f) (1 # 2)) as [ Hy | Hy | Hy ];
    try destruct (Z.even f); try lia; exfalso; clearbody f; lra.
Qed.

Lemma round_half_even_nonneg (q : Q) : (0 <= q)%Q → 0 <= round_half_even q.
Proof.
  intros H. rewrite <- (round_half_even_Z 0). apply round_half_even_mono. exact H.
Qed.

(** *** Rounding a positive value *)

Lemma round_pos_nonneg (x : Q) : (0 < x)%Q → (0 <= round_pos x)%Q.
Proof.
  intros Hx. unfold round_pos.
  apply Qmult_le_0_compat; [| apply Qlt_le_weak, pow2_pos ].
  change 0%Q with (inject_Z 0). rewrite <- Zle_Qle.
  apply round_half_even_nonneg.
  apply Qle_shift_div_l; [ apply pow2_pos |]. rewrite Qmult_0_l.
  apply Qlt_le_weak, Hx.
Qed.

Lemma quantum_mono (x y : Q) : (0 < x)%Q → (x <= y)%Q → quantum x <= quantum y.
Proof.
  intros Hx Hxy. unfold quantum.
  pose proof (floor_log2_mono x y Hx Hxy). lia.
Qed.

(** A value below a multiple [m * 2^e] of its quantum rounds to at most
    that multiple, and a value above one to at least that. *)
Lemma round_pos_le_multiple (x : Q) (m : Z) :
  (x <= inject_Z m * pow2 (quantum x))%Q →
  (round_pos x <= inject_Z m * pow2 (quantum x))%Q.
Proof.
  intros H. unfold round_pos.
  apply Qmult_le_compat_r; [| apply Qlt_le_weak, pow2_pos ].
  rewrite <- Zle_Qle. rewrite <- (round_half_even_Z m).
  apply round_half_even_mono.
  apply Qle_shift_div_r; [ apply pow2_pos | exact H ].
Qed.

Lemma round_pos_ge_multiple (x : Q) (m : Z) :
  (inject_Z m * pow2 (quantum x) <= x)%Q →
  (inject_Z m * pow2 (quantum x) <= round_pos x)%Q.
Proof.
  intros H. unfold round_pos.
  apply Qmult_le_compat_r; [| apply Qlt_le_weak, pow2_pos ].
  rewrite <- Zle_Qle. rewrite <- (round_half_even_Z m) at 1.
  apply round_half_even_mono.
  apply Qle_shift_div_l; [ apply pow2_pos | exact H ].
Qed.

Lemma pow2_multiple (k e : Z) :
  e <= k → (pow2 k == inject_Z (2 ^ (k - e)) * pow2 e)%Q.
Proof.
  intros H. rewrite <- pow2_inject by lia. rewrite <- pow2_add.
  replace (k - e + e) with k by ring. reflexivity.
Qed.

Lemma round_pos_mono (x y : Q) :
  (0 < x)%Q → (x <= y)%Q → (round_pos x <= round_pos y)%Q.
Proof.
  intros Hx Hxy.
  assert (Hy : (0 < y)%Q) by (eapply Qlt_le_trans; eassumption).
  pose proof (quantum_mono x y Hx Hxy) as Hq.
  destruct (Z.eq_dec (quantum x) (quantum y)) as [ E | E ].
  - unfold round_pos. rewrite E.
    apply Qmult_le_compat_r; [| apply Qlt_le_weak, pow2_pos ].
    rewrite <- Zle_Qle. apply round_half_even_mono.
    apply Qmult_le_compat_r; [ exact Hxy |].
    apply Qlt_le_weak, Qinv_lt_0_compat, pow2_pos.
  - (* the quantum grows: the power of two at the start of the binade of
       [y] lies between the two rounded values *)
    assert (Hlt : quantum x < quantum y) by lia.
    set (ky := floor_log2 y).
    assert (Hey : quantum y = ky - 52) by (unfold quantum in *; lia).
    assert (Hkx : floor_log2 x + 1 <= ky) by (unfold quantum in *; lia).
    destruct (floor_log2_spec x Hx) as [_ Hx2].
    destruct (floor_log2_spec y Hy) as [Hy1 _]. fold ky in Hy1.
    apply Qle_trans with (pow2 ky).
    + rewrite (pow2_multiple ky (quantum x)) by lia.
      apply round_pos_le_multiple.
      rewrite <- (pow2_multiple ky (quantum x)) by lia.
      apply Qlt_le_weak. eapply Qlt_le_trans; [ exact Hx2 |].
      apply pow2_le. exact Hkx.
    + rewrite (pow2_multiple ky (quantum y)) by lia.
      apply round_pos_ge_multiple.
      rewrite <- (pow2_multiple ky (quantum y)) by lia.
      exact Hy1.
Qed.

Lemma round_pos_ext (x y : Q) :
  (0 < x)%Q → (x == y)%Q → round_pos x = round_pos y.
Proof.
  intros Hx E. unfold round_pos, quantum.
  rewrite (floor_log2_ext x y Hx E).
  set (e := Z.max (floor_log2 y - 52) emin).
  assert (Hr : round_half_even (x / pow2 e) = round_half_even (y / pow2 e)).
  { apply round_half_even_ext. rewrite E. reflexivity. }
  rewrite Hr. reflexivity.
Qed.

(** A multiple [m * 2^e] of a quantum that the format has, with less than
    53 bits in [m], is not changed. *)
Lemma round_pos_representable (m e : Z) :
  0 < m < 2 ^ 53 → emin <= e →
  (round_pos (inject_Z m * pow2 e) == inject_Z m * pow2 e)%Q.
Proof.
  intros Hm He.
  set (x := (inject_Z m * pow2 e)%Q).
  assert (Hl : 2 ^ Z.log2 m <= m < 2 ^ (Z.log2 m + 1)).
  { pose proof (Z.log2_spec m ltac:(lia)) as H. unfold Z.succ in H. exact H. }
  assert (Hl0 : 0 <= Z.log2 m) by apply Z.log2_nonneg.
  assert (Hl53 : Z.log2 m < 53).
  { apply Z.log2_lt_pow2; lia. }
  assert (Hk : floor_log2 x = Z.log2 m + e).
  { apply floor_log2_unique. subst x.
    replace (Z.log2 m + e + 1) with ((Z.log2 m + 1) + e) by ring.
    rewrite (pow2_add (Z.log2 m + 1) e), (pow2_add (Z.log2 m) e),
      (pow2_inject (Z.log2 m + 1)), (pow2_inject (Z.log2 m)) by lia. split.
    - apply Qmult_le_compat_r; [| apply Qlt_le_weak, pow2_pos ].
      rewrite <- Zle_Qle. lia.
    - apply Qmult_lt_compat_r; [ apply pow2_pos |].
      rewrite <- Zlt_Qlt. lia. }
  assert (Hq : quantum x <= e) by (unfold quantum; lia).
  unfold round_pos.
  set (q := quantum x) in *.
  assert (Hd : (x / pow2 q == inject_Z (m * 2 ^ (e - q)))%Q).
  { subst x. rewrite (pow2_multiple e q) by lia. rewrite inject_Z_mult.
    field. intros H0. pose proof (pow2_pos q) as Hp. rewrite H0 in Hp.
    revert Hp. apply Qlt_irrefl. }
  rewrite (round_half_even_ext _ _ Hd), round_half_even_Z.
  subst x. rewrite (pow2_multiple e q) by lia. rewrite inject_Z_mult. ring.
Qed.

(** *** Rounding *)

Lemma round_0 : round 0 = 0%Q.
Proof. reflexivity. Qed.

Lemma round_pos_case (x : Q) : (0 < x)%Q → round x = round_pos x.
Proof.
  intros H. unfold round. rewrite (proj1 (Qgt_alt _ _) H). reflexivity.
Qed.

Lemma round_neg_case (x : Q) : (x < 0)%Q → round x = (- round_pos (- x))%Q.
Proof.
  intros H. unfold round. rewrite (proj1 (Qlt_alt _ _) H). reflexivity.
Qed.

Lemma round_zero_case (x : Q) : (x == 0)%Q → round x = 0%Q.
Proof.
  intros H. unfold round. rewrite (proj1 (Qeq_alt _ _) H). reflexivity.
Qed.

Lemma round_nonneg (x : Q) : (0 <= x)%Q → (0 <= round x)%Q.
Proof.
  intros H. destruct (Qlt_le_dec 0 x) as [ Hp | Hn ].
  - rewrite (round_pos_case x Hp). apply round_pos_nonneg, Hp.
  - rewrite round_zero_case; [ apply Qle_refl | apply Qle_antisym; assumption ].
Qed.

Lemma round_nonpos (x : Q) : (x <= 0)%Q → (round x <= 0)%Q.
Proof.
  intros H. destruct (Qlt_le_dec x 0) as [ Hn | Hp ].
  - rewrite (round_neg_case x Hn).
    assert (Hx : (0 < - x)%Q) by lra.
    pose proof (round_pos_nonneg (- x) Hx). lra.
  - rewrite round_zero_case; [ apply Qle_refl | apply Qle_antisym; assumption ].
Qed.

(** Rounding is monotone. *)
Lemma round_le (x y : Q) : (x <= y)%Q → (round x <= round y)%Q.
Proof.
  intros Hxy.
  destruct (Qlt_le_dec 0 x) as [ Hx | Hx ].
  - assert (Hy : (0 < y)%Q) by lra.
    rewrite (round_pos_case x Hx), (round_pos_case y Hy).
    apply round_pos_mono; assumption.
  - destruct (Qlt_le_dec y 0) as [ Hy | Hy ].
    + assert (Hxn : (x < 0)%Q) by lra.
      rewrite (round_neg_case x Hxn), (round_neg_case y Hy).
      apply Qopp_le_compat. apply round_pos_mono; lra.
    + apply Qle_trans with 0%Q; [ apply round_nonpos | apply round_nonneg ]; assumption.
Qed.

(** Rounding depends on the value only, not on the fraction that
    represents it. *)
Lemma round_ext (x y : Q) : (x == y)%Q → round x = round y.
Proof.
  intros E.
  destruct (Qlt_le_dec 0 x) as [ Hx | Hx ].
  - assert (Hy : (0 < y)%Q) by lra.
    rewrite (round_pos_case x Hx), (round_pos_case y Hy).
    apply round_pos_ext; assumption.
  - destruct (Qlt_le_dec x 0) as [ Hn | Hz ].
    + assert (Hy : (y < 0)%Q) by lra.
      rewrite (round_neg_case x Hn), (round_neg_case y Hy).
      f_equal. apply round_pos_ext; [ lra | rewrite E; reflexivity ].
    + assert (Hx0 : (x == 0)%Q) by lra.
      assert (Hy0 : (y == 0)%Q) by lra.
      rewrite (round_zero_case x Hx0), (round_zero_case y Hy0). reflexivity.
Qed.

(** The integers below [2^53] in magnitude, scaled by a power of two that
    the format has, are not changed. *)
Lemma round_representable (m e : Z) :
  Z.abs m < 2 ^ 53 → emin <= e →
  (round (inject_Z m * pow2 e) == inject_Z m * pow2 e)%Q.
Proof.
  intros Hm He.
  pose proof (pow2_pos e) as Hp.
  destruct (Z.lt_trichotomy m 0) as [ Hn | [ -> | Hpos ] ].
  - assert (Hx : (inject_Z m * pow2 e < 0)%Q).
    { assert (inject_Z m < 0)%Q by (change 0%Q with (inject_Z 0); rewrite <- Zlt_Qlt; lia).
      set (a := inject_Z m) in *. set (b := pow2 e) in *. clearbody a b. nra. }
    rewrite (round_neg_case _ Hx).
    assert (E : (- (inject_Z m * pow2 e) == inject_Z (- m) * pow2 e)%Q).
    { rewrite inject_Z_opp. ring. }
    assert (Hx' : (0 < - (inject_Z m * pow2 e))%Q).
    { set (c := (inject_Z m * pow2 e)%Q) in *. clearbody c. lra. }
    rewrite (round_pos_ext _ _ Hx' E).
    rewrite round_pos_representable by lia.
    rewrite inject_Z_opp. ring.
  - rewrite round_zero_case; [ ring | ring ].
  - assert (Hx : (0 < inject_Z m * pow2 e)%Q).
    { assert (0 < inject_Z m)%Q by (change 0%Q with (inject_Z 0); rewrite <- Zlt_Qlt; lia).
      set (a := inject_Z m) in *. set (b := pow2 e) in *. clearbody a b. nra. }
    rewrite (round_pos_case _ Hx). apply round_pos_representable; lia.
Qed.

Lemma round_Z (z : Z) : Z.abs z < 2 ^ 53 → (round (inject_Z z) == inject_Z z)%Q.
Proof.
  intros H.
  assert (E : (inject_Z z == inject_Z z * pow2 0)%Q) by (change (pow2 0) with 1%Q; ring).
  rewrite (round_ext _ _ E), round_representable; [| exact H | discriminate ].
  symmetry. exact E.
Qed.

End RoundingFacts.

(** ** The overall score in binary64 arithmetic *)

Section Binary64Scoring.
Import JS Scoring Binary64.

Lemma Qdiv_le_cross (n d p q : Z) :
  0 < d → 0 < q →
  n * q <= p * d → (inject_Z n / inject_Z d <= inject_Z p / inject_Z q)%Q.
Proof.
  intros Hd Hq H.
  assert (HdQ : (0 < inject_Z d)%Q) by (change 0%Q with (inject_Z 0); rewrite <- Zlt_Qlt; exact Hd).
  assert (HqQ : (0 < inject_Z q)%Q) by (change 0%Q with (inject_Z 0); rewrite <- Zlt_Qlt; exact Hq).
  apply Qle_shift_div_r; [ exact HdQ |].
  assert (E : (inject_Z p / inject_Z q * inject_Z d == inject_Z (p * d) / inject_Z q)%Q).
  { rewrite inject_Z_mult. field. intros H0. rewrite H0 in HqQ. revert HqQ. apply Qlt_irrefl. }
  rewrite E. apply Qle_shift_div_l; [ exact HqQ |].
  rewrite <- inject_Z_mult, <- Zle_Qle. exact H.
Qed.

Lemma round_pow2 (e : Z) : emin <= e → (round (pow2 e) == pow2 e)%Q.
Proof.
  intros He.
  assert (E : (pow2 e == inject_Z 1 * pow2 e)%Q) by (change (inject_Z 1) with 1%Q; ring).
  rewrite (round_ext _ _ E), round_representable; [| reflexivity | exact He ].
  symmetry. exact E.
Qed.

Lemma round_opp_pow2 (e : Z) : emin <= e → (round (- pow2 e) == - pow2 e)%Q.
Proof.
  intros He.
  assert (E : (- pow2 e == inject_Z (-1) * pow2 e)%Q) by (change (inject_Z (-1)) with (-1)%Q; ring).
  rewrite (round_ext _ _ E), round_representable; [| reflexivity | exact He ].
  symmetry. exact E.
Qed.

(** Rounding keeps a value within a power of two. *)
Lemma round_within_pow2 (x : Q) (e : Z) :
  emin <= e → (- pow2 e <= x <= pow2 e)%Q → (- pow2 e <= round x <= pow2 e)%Q.
Proof.
  intros He [H1 H2]. split.
  - rewrite <- (round_opp_pow2 e He). apply round_le, H1.
  - rewrite <- (round_pow2 e He). apply round_le, H2.
Qed.

(** A result within [2^60] in magnitude does not overflow. *)
Lemma to_number_bounded (x : Q) :
  (- pow2 60 <= x <= pow2 60)%Q → to_number x = Fin (round x).
Proof.
  intros H. apply (round_within_pow2 x 60 ltac:(discriminate)) in H as [H1 H2].
  unfold to_number.
  assert (Hlt : (pow2 60 < pow2 emax)%Q) by (apply pow2_lt; reflexivity).
  destruct (Qle_bool (pow2 emax) (round x)) eqn:E1.
  { apply Qle_bool_iff in E1. exfalso.
    set (r := round x) in *. set (a := pow2 60) in *. set (b := pow2 emax) in *.
    clearbody r a b. lra. }
  destruct (Qle_bool (round x) (- pow2 emax)) eqn:E2.
  { apply Qle_bool_iff in E2. exfalso.
    set (r := round x) in *. set (a := pow2 60) in *. set (b := pow2 emax) in *.
    clearbody r a b. lra. }
  reflexivity.
Qed.

Lemma inject_Z_within (z : Z) (e : Z) :
  0 <= e → Z.abs z <= 2 ^ e → (- pow2 e <= inject_Z z <= pow2 e)%Q.
Proof.
  intros He Hz. rewrite (pow2_inject e He), <- inject_Z_opp, <- !Zle_Qle. lia.
Qed.

(** An integer result below [2^53] in magnitude is stored as it is. *)
Lemma to_number_exact (x : Q) (z : Z) :
  (x == inject_Z z)%Q → Z.abs z < 2 ^ 53 →
  ∃ q, to_number x = Fin q ∧ (q == inject_Z z)%Q.
Proof.
  intros E Hz. exists (round x). split.
  - apply to_number_bounded. rewrite E. apply inject_Z_within; [ lia |].
    change (2 ^ 53) with 9007199254740992 in Hz.
    change (2 ^ 60) with 1152921504606846976. lia.
  - rewrite (round_ext _ _ E). apply round_Z, Hz.
Qed.

(** One turn of the loop adds the weighted error count, without
    rounding as long as the sum stays below [2^53]. *)
Lemma applyPenalty64_exact (a : Q) (s : Z) (r : ValidationResult) :
  (a == inject_Z s)%Q → 0 <= s →
  s + Z.of_N (errorCount r) * weight (Scoring.severity r) < 2 ^ 53 →
  ∃ q, Scoring64.applyPenalty (Fin a) r = Fin q
       ∧ (q == inject_Z (s + Z.of_N (errorCount r) * weight (Scoring.severity r)))%Q.
Proof.
  intros Ha Hs Hb. unfold Scoring64.applyPenalty, weight in *.
  set (c := Z.of_N (errorCount r)) in *.
  assert (Hc : 0 <= c) by (subst c; lia).
  assert (Hstep : ∀ w, 2 <= w → s + c * w < 2 ^ 53 →
            ∃ q, Binary64.add (Fin a) (Binary64.mul (Binary64.of_N (errorCount r)) (JS.of_Z w)) = Fin q
                 ∧ (q == inject_Z (s + c * w))%Q).
  { intros w Hw Hbw.
    destruct (to_number_exact (inject_Z c) c (Qeq_refl _) ltac:(nia)) as (qc & Eqc & Hqc).
    unfold Binary64.of_N, Binary64.of_Z. fold c. rewrite Eqc.
    cbn [Binary64.mul JS.of_Z].
    destruct (to_number_exact (qc * inject_Z w) (c * w)) as (qm & Eqm & Hqm).
    { rewrite Hqc, inject_Z_mult. reflexivity. } { nia. }
    rewrite Eqm. cbn [Binary64.add].
    destruct (to_number_exact (a + qm) (s + c * w)) as (q & Eq & Hq).
    { rewrite Ha, Hqm, inject_Z_plus. reflexivity. } { nia. }
    exists q. split; assumption. }
  destruct (String.eqb (Scoring.severity r) "CRITICAL"); [ apply Hstep; lia |].
  destruct (String.eqb (Scoring.severity r) "MAJOR"); [ apply Hstep; lia |].
  destruct (String.eqb (Scoring.severity r) "MINOR"); [ apply Hstep; lia |].
  exists a. split; [ reflexivity |]. rewrite Ha. replace (s + c * 0) with s by ring. reflexivity.
Qed.

Lemma fold_applyPenalty64_exact vr : ∀ (a : Q) (s : Z),
  (a == inject_Z s)%Q → 0 <= s → s + penaltySum vr < 2 ^ 53 →
  ∃ q, fold_left Scoring64.applyPenalty vr (Fin a) = Fin q
       ∧ (q == inject_Z (s + penaltySum vr))%Q.
Proof.
  induction vr as [| r vr IH ]; intros a s Ha Hs Hb; cbn [fold_left penaltySum foldr] in *.
  - exists a. split; [ reflexivity |]. rewrite Ha. replace (s + 0) with s by ring. reflexivity.
  - fold (penaltySum vr) in *.
    pose proof (penaltySum_nonneg vr) as Hnn.
    pose proof (weight_nonneg (Scoring.severity r)) as Hw.
    set (d := Z.of_N (errorCount r) * weight (Scoring.severity r)) in *.
    assert (Hd : 0 <= d) by (subst d; nia).
    destruct (applyPenalty64_exact a s r Ha Hs ltac:(fold d; lia)) as (q1 & -> & H1).
    fold d in H1.
    destruct (IH q1 (s + d) H1 ltac:(lia) ltac:(lia)) as (q2 & -> & H2).
    exists q2. split; [ reflexivity |]. rewrite H2.
    replace (s + d + penaltySum vr) with (s + (d + penaltySum vr)) by ring. reflexivity.
Qed.

(** Below [2^53] the loop computes the weighted sum of the error counts
    without rounding. *)
Lemma totalPenalty64_exact vr :
  penaltySum vr < 2 ^ 53 →
  ∃ p, Scoring64.totalPenalty vr = Fin p ∧ (p == inject_Z (penaltySum vr))%Q.
Proof.
  intros Hb.
  destruct (fold_applyPenalty64_exact vr (inject_Z 0) 0 (Qeq_refl _) ltac:(lia) ltac:(lia))
    as (p & Hp & Heq).
  exists p. split; [ exact Hp | exact Heq ].
Qed.

Lemma rounded_score_le (x y : Q) :
  (x <= y)%Q → (Scoring64.rounded_score x <= Scoring64.rounded_score y)%Q.
Proof.
  intros H. unfold Scoring64.rounded_score. apply round_le.
  apply Qmult_le_compat_r; [ apply round_le, H | discriminate ].
Qed.

Lemma rounded_score_ext (x y : Q) :
  (x == y)%Q → Scoring64.rounded_score x = Scoring64.rounded_score y.
Proof.
  intros H. unfold Scoring64.rounded_score. rewrite (round_ext x y H). reflexivity.
Qed.

(** For a batch that is not empty, with [100 * totalRecords] and the
    penalty below [2^53], only the quotient and its product with 100 are
    rounded. *)
Lemma calculateAccuracyScore64_shape vr (n : N) :
  (0 < n)%N → 100 * Z.of_N n < 2 ^ 53 → penaltySum vr < 2 ^ 53 →
  ∃ x, (x == inject_Z (100 * Z.of_N n - penaltySum vr) / inject_Z (100 * Z.of_N n))%Q
       ∧ Scoring64.calculateAccuracyScore vr n
         = Math_max (Fin 0) (Fin (Scoring64.rounded_score x)).
Proof.
  intros Hn HM HP.
  pose proof (penaltySum_nonneg vr) as Hnn.
  set (P := penaltySum vr) in *. set (m := Z.of_N n) in *.
  assert (Hm : 0 < m) by (subst m; lia).
  change (2 ^ 53) with 9007199254740992 in *.
  unfold Scoring64.calculateAccuracyScore.
  destruct (totalPenalty64_exact vr HP) as (p & -> & Hp). fold P in Hp.
  destruct (to_number_exact (inject_Z m) m (Qeq_refl _)) as (qn & Eqn & Hqn).
  { change (2 ^ 53) with 9007199254740992. lia. }
  unfold Binary64.of_N, Binary64.of_Z. fold m. rewrite Eqn.
  cbn [Binary64.mul JS.of_Z].
  destruct (to_number_exact (qn * inject_Z 100) (100 * m)) as (qM & EqM & HqM).
  { rewrite Hqn, <- inject_Z_mult. replace (m * 100) with (100 * m) by ring. reflexivity. }
  { change (2 ^ 53) with 9007199254740992. lia. }
  rewrite EqM. cbn [Binary64.sub].
  destruct (to_number_exact (qM - p) (100 * m - P)) as (a & Ea & Ha).
  { rewrite HqM, Hp. unfold Zminus. rewrite inject_Z_plus, inject_Z_opp. reflexivity. }
  { change (2 ^ 53) with 9007199254740992. lia. }
  rewrite Ea. cbn [Binary64.div].
  assert (HMpos : (0 < qM)%Q).
  { rewrite HqM. change 0%Q with (inject_Z 0). rewrite <- Zlt_Qlt. lia. }
  assert (HM1 : (1 <= qM)%Q).
  { rewrite HqM. change 1%Q with (inject_Z 1). rewrite <- Zle_Qle. lia. }
  assert (E0 : Qeq_bool qM 0 = false).
  { destruct (Qeq_bool qM 0) eqn:E; [| reflexivity ].
    apply Qeq_bool_iff in E. rewrite E in HMpos. discriminate HMpos. }
  rewrite E0.
  (* the quotient is at most [2^53] in magnitude *)
  assert (Ha53 : (- pow2 53 <= a <= pow2 53)%Q).
  { rewrite Ha. apply inject_Z_within; [ lia |].
    change (2 ^ 53) with 9007199254740992. lia. }
  assert (Hx53 : (- pow2 53 <= a / qM <= pow2 53)%Q).
  { assert (Hinv : (0 < / qM <= 1)%Q).
    { split; [ apply Qinv_lt_0_compat, HMpos |].
      apply Qle_shift_inv_r; [ exact HMpos |]. rewrite Qmult_1_l. exact HM1. }
    unfold Qdiv. set (i := (/ qM)%Q) in *. set (b := pow2 53) in *.
    assert (Hb : (0 < b)%Q) by apply pow2_pos.
    clearbody i b. destruct Ha53, Hinv. split; nra. }
  assert (H5360 : (pow2 53 <= pow2 60)%Q) by (apply pow2_le; lia).
  rewrite (to_number_bounded (a / qM)).
  2:{ set (b := pow2 53) in *. set (c := pow2 60) in *. set (x := (a / qM)%Q) in *.
      clearbody b c x. lra. }
  cbn [Binary64.mul JS.of_Z].
  pose proof (round_within_pow2 (a / qM) 53 ltac:(discriminate) Hx53) as Hr53.
  rewrite (to_number_bounded (round (a / qM) * inject_Z 100)).
  2:{ assert (H100 : (pow2 53 * inject_Z 100 <= pow2 60)%Q) by (vm_compute; discriminate).
      change (inject_Z 100) with 100%Q in *.
      set (b := pow2 53) in *. set (c := pow2 60) in *. set (r := round (a / qM)) in *.
      clearbody b c r. lra. }
  exists (a / qM)%Q. split; [| reflexivity ].
  rewrite Ha, HqM. reflexivity.
Qed.

Lemma Math_max_0 (y : Q) :
  ∃ q, Math_max (Fin 0) (Fin y) = Fin q ∧ (q == Qmax 0 y)%Q.
Proof.
  cbn [Math_max leb].
  destruct (Qle_bool 0 y) eqn:E; eexists; (split; [ reflexivity |]).
  - apply Qle_bool_iff in E. symmetry. apply Q.max_r. exact E.
  - apply Qle_bool_false in E. symmetry. apply Q.max_l. apply Qlt_le_weak, E.
Qed.

(** The rounded score at the values that decide the classification. *)
Lemma rounded_score_constants :
  (Scoring64.rounded_score 0 == 0)%Q
  ∧ (0 < Scoring64.rounded_score (pow2 (-53)))%Q
  ∧ (Scoring64.rounded_score 1 == 100)%Q
  ∧ (Scoring64.rounded_score (1 - pow2 (-53)) < 100)%Q
  ∧ (95 <= Scoring64.rounded_score (19 # 20))%Q
  ∧ (Scoring64.rounded_score ((19 # 20) - pow2 (-53)) < 95)%Q
  ∧ (85 <= Scoring64.rounded_score (17 # 20))%Q
  ∧ (Scoring64.rounded_score ((17 # 20) - pow2 (-53)) < 85)%Q.
Proof.
  repeat split; vm_compute; try reflexivity; discriminate.
Qed.

(** The quotient against the constants, for integers. *)
Lemma quotient_bounds (M P : Z) :
  0 < M < 2 ^ 53 → 0 <= P →
  let x := (inject_Z (M - P) / inject_Z M)%Q in
  (P = 0 → (x == 1)%Q)
  ∧ (0 < P → (x <= 1 - pow2 (-53))%Q)
  ∧ (M <= P → (x <= 0)%Q)
  ∧ (P < M → (pow2 (-53) <= x)%Q)
  ∧ (x <= 1)%Q
  ∧ (20 * P <= M → ((19 # 20) <= x)%Q)
  ∧ (M + 20 <= 20 * P → (x <= (19 # 20) - pow2 (-53))%Q)
  ∧ (20 * P <= 3 * M → ((17 # 20) <= x)%Q)
  ∧ (3 * M + 20 <= 20 * P → (x <= (17 # 20) - pow2 (-53))%Q).
Proof.
  change (2 ^ 53) with 9007199254740992.
  intros HM HP x. subst x.
  assert (E1 : (1 == inject_Z 1 / inject_Z 1)%Q) by reflexivity.
  assert (E0 : (0 == inject_Z 0 / inject_Z 1)%Q) by reflexivity.
  assert (Ea : (1 - pow2 (-53) == inject_Z 9007199254740991 / inject_Z 9007199254740992)%Q)
    by (vm_compute; reflexivity).
  assert (Eb : (pow2 (-53) == inject_Z 1 / inject_Z 9007199254740992)%Q)
    by (vm_compute; reflexivity).
  assert (Ec : ((19 # 20) == inject_Z 19 / inject_Z 20)%Q) by reflexivity.
  assert (Ed : ((19 # 20) - pow2 (-53)
                == inject_Z (19 * 9007199254740992 - 20) / inject_Z (20 * 9007199254740992))%Q)
    by (vm_compute; reflexivity).
  assert (Ee : ((17 # 20) == inject_Z 17 / inject_Z 20)%Q) by reflexivity.
  assert (Ef : ((17 # 20) - pow2 (-53)
                == inject_Z (17 * 9007199254740992 - 20) / inject_Z (20 * 9007199254740992))%Q)
    by (vm_compute; reflexivity).
  repeat split.
  - intros ->. replace (M - 0) with M by ring. field.
    intros H0. assert (H : (0 < inject_Z M)%Q)
      by (change 0%Q with (inject_Z 0); rewrite <- Zlt_Qlt; lia).
    rewrite H0 in H. discriminate H.
  - intros H. rewrite Ea. apply Qdiv_le_cross; lia.
  - intros H. rewrite E0. apply Qdiv_le_cross; lia.
  - intros H. rewrite Eb. apply Qdiv_le_cross; lia.
  - rewrite E1. apply Qdiv_le_cross; lia.
  - intros H. rewrite Ec. apply Qdiv_le_cross; lia.
  - intros H. rewrite Ed. apply Qdiv_le_cross; lia.
  - intros H. rewrite Ee. apply Qdiv_le_cross; lia.
  - intros H. rewrite Ef. apply Qdiv_le_cross; lia.
Qed.

(** C2: in the arithmetic of doubles, for 1,000,000 records with 1,250
    critical, 5,230 major and 12,340 minor errors the total penalty is
    63,330 and the overall score is the double
    7032417965197629 / 2^46 = 99.936670000000006..., less than 2^-46 away
    from the value of the specification's formula: 99.9367 to the four
    decimals of the claim, and classified GREEN. *)
Theorem C2_overall_score_example :
  let vr := [ {| errorCount := 1250; Scoring.severity := "CRITICAL" |};
              {| errorCount := 5230; Scoring.severity := "MAJOR" |};
              {| errorCount := 12340; Scoring.severity := "MINOR" |} ] in
  ∃ p q,
    Scoring64.totalPenalty vr = Fin p ∧ (p == inject_Z 63330)%Q
    ∧ Scoring64.calculateAccuracyScore vr 1000000 = Fin q
    ∧ (q == 7032417965197629 # 70368744177664)%Q
    ∧ (Qabs (q - overall_score_formula 63330 1000000) <= pow2 (-46))%Q
    ∧ ((999367 # 10000) - (5 # 100000) <= q < (999367 # 10000) + (5 # 100000))%Q
    ∧ status (getTrafficLightStatus (Fin q)) = "GREEN".
Proof.
  intros vr. eexists. eexists.
  split; [ vm_compute; reflexivity |].
  split; [ vm_compute; reflexivity |].
  split; [ vm_compute; reflexivity |].
  split; [ vm_compute; reflexivity |].
  split; [ vm_compute; discriminate |].
  split; [ split; [ vm_compute; discriminate | vm_compute; reflexivity ] |].
  vm_compute. reflexivity.
Qed.

(** X1: for a batch that is not empty, with [100 * totalRecords] and the
    total penalty below [2^53], the overall score computed in doubles is
    a finite number between 0 and 100; it is 100 exactly when no penalty
    was counted, and 0 exactly when the penalty reaches 100 points per
    record. *)
Theorem score_between_0_and_100 vr (totalRecords : N) :
  (0 < totalRecords)%N →
  100 * Z.of_N totalRecords < 2 ^ 53 →
  penaltySum vr < 2 ^ 53 →
  ∃ q, Scoring64.calculateAccuracyScore vr totalRecords = Fin q
       ∧ (0 <= q <= 100)%Q
       ∧ ((q == 100)%Q ↔ penaltySum vr = 0)
       ∧ ((q == 0)%Q ↔ 100 * Z.of_N totalRecords <= penaltySum vr).
Proof.
  intros Hn HM HP.
  destruct (calculateAccuracyScore64_shape vr totalRecords Hn HM HP) as (x & Hx & ->).
  destruct (Math_max_0 (Scoring64.rounded_score x)) as (q & -> & Hq).
  exists q. split; [ reflexivity |].
  pose proof (penaltySum_nonneg vr) as Hnn.
  set (P := penaltySum vr) in *. set (M := 100 * Z.of_N totalRecords) in *.
  assert (HM0 : 0 < M < 2 ^ 53) by (subst M; lia).
  destruct (quotient_bounds M P HM0 Hnn) as (B1 & B2 & B3 & B4 & B5 & _).
  destruct rounded_score_constants as (C0 & C1 & C2 & C3 & _).
  rewrite (rounded_score_ext x _ Hx) in Hq.
  set (y := (inject_Z (M - P) / inject_Z M)%Q) in *.
  pose proof (rounded_score_le y 1 B5) as L5.
  pose proof (Q.max_spec 0 (Scoring64.rounded_score y)) as Hmax.
  set (s := Scoring64.rounded_score y) in *.
  set (s1 := Scoring64.rounded_score 1) in *.
  assert (Hs100 : (s <= 100)%Q) by (clearbody s s1; lra).
  split; [| split ].
  - set (mx := Qmax 0 s) in *. clearbody mx s s1. lra.
  - split.
    + intros He. destruct (Z.eq_dec P 0) as [ E | E ]; [ exact E | exfalso ].
      pose proof (rounded_score_le y _ (B2 ltac:(lia))) as L2. fold s in L2.
      set (s2 := Scoring64.rounded_score (1 - pow2 (-53))) in *.
      set (mx := Qmax 0 s) in *. clearbody mx s s1 s2. lra.
    + intros E. pose proof (rounded_score_ext y 1 (B1 E)) as L1. fold s s1 in L1.
      rewrite L1 in *. set (mx := Qmax 0 s1) in *. clearbody mx s1. lra.
  - split.
    + intros He. destruct (Z_le_gt_dec M P) as [ E | E ]; [ exact E | exfalso ].
      pose proof (rounded_score_le _ y (B4 ltac:(lia))) as L4. fold s in L4.
      set (s4 := Scoring64.rounded_score (pow2 (-53))) in *.
      set (mx := Qmax 0 s) in *. clearbody mx s s1 s4. lra.
    + intros E. pose proof (rounded_score_le y 0 (B3 E)) as L3. fold s in L3.
      set (s0 := Scoring64.rounded_score 0) in *.
      set (mx := Qmax 0 s) in *. clearbody mx s s1 s0. lra.
Qed.

Lemma score_between_0_and_100_witness :
  ∃ q, Scoring64.calculateAccuracyScore
         [ {| errorCount := 40; Scoring.severity := "CRITICAL" |} ] 10 = Fin q
       ∧ (0 <= q <= 100)%Q
       ∧ ((q == 100)%Q ↔ 400 = 0)
       ∧ ((q == 0)%Q ↔ 100 * 10 <= 400).
Proof.
  assert (H1 : (0 < 10)%N) by reflexivity.
  assert (H2 : 100 * Z.of_N 10 < 2 ^ 53) by reflexivity.
  assert (H3 : penaltySum [ {| errorCount := 40; Scoring.severity := "CRITICAL" |} ] < 2 ^ 53)
    by reflexivity.
  exact (score_between_0_and_100
           [ {| errorCount := 40; Scoring.severity := "CRITICAL" |} ] 10 H1 H2 H3).
Defined.

(** X4: for a batch that is not empty, with [100 * totalRecords] and the
    total penalty below [2^53], the traffic light of the overall score
    computed in doubles depends on the penalty per record only: GREEN up
    to 5 points per record, AMBER above 5 and up to 15, RED above 15. *)
Theorem traffic_light_of_score vr (totalRecords : N) :
  (0 < totalRecords)%N →
  100 * Z.of_N totalRecords < 2 ^ 53 →
  penaltySum vr < 2 ^ 53 →
  status (getTrafficLightStatus (Scoring64.calculateAccuracyScore vr totalRecords))
  = if bool_decide (penaltySum vr <= 5 * Z.of_N totalRecords) then "GREEN"
    else if bool_decide (penaltySum vr <= 15 * Z.of_N totalRecords) then "AMBER"
    else "RED".
Proof.
  intros Hn HM HP.
  destruct (calculateAccuracyScore64_shape vr totalRecords Hn HM HP) as (x & Hx & ->).
  destruct (Math_max_0 (Scoring64.rounded_score x)) as (q & -> & Hq).
  pose proof (penaltySum_nonneg vr) as Hnn.
  set (P := penaltySum vr) in *. set (m := Z.of_N totalRecords) in *.
  set (M := 100 * m) in *.
  assert (HM0 : 0 < M < 2 ^ 53) by (subst M m; lia).
  destruct (quotient_bounds M P HM0 Hnn) as (_ & _ & _ & _ & _ & B6 & B7 & B8 & B9).
  destruct rounded_score_constants as (_ & _ & _ & _ & C4 & C5 & C6 & C7).
  rewrite (rounded_score_ext x _ Hx) in Hq.
  set (y := (inject_Z (M - P) / inject_Z M)%Q) in *.
  pose proof (Q.max_spec 0 (Scoring64.rounded_score y)) as Hmax.
  set (s := Scoring64.rounded_score y) in *.
  unfold getTrafficLightStatus, geb, leb, JS.of_Z.
  change (inject_Z 95) with 95%Q. change (inject_Z 85) with 85%Q.
  destruct (Z_le_gt_dec P (5 * m)) as [ H5 | H5 ].
  - rewrite bool_decide_true by exact H5.
    pose proof (rounded_score_le _ y (B6 ltac:(subst M; lia))) as L. fold s in L.
    assert (Hge : (95 <= q)%Q).
    { set (c := Scoring64.rounded_score (19 # 20)) in *.
      set (mx := Qmax 0 s) in *. clearbody mx s c. lra. }
    apply Qle_bool_iff in Hge. rewrite Hge. reflexivity.
  - rewrite bool_decide_false by lia.
    pose proof (rounded_score_le y _ (B7 ltac:(subst M; lia))) as L. fold s in L.
    assert (Hlt : (q < 95)%Q).
    { set (c := Scoring64.rounded_score ((19 # 20) - pow2 (-53))) in *.
      set (mx := Qmax 0 s) in *. clearbody mx s c. lra. }
    apply Qle_bool_false in Hlt. rewrite Hlt.
    destruct (Z_le_gt_dec P (15 * m)) as [ H15 | H15 ].
    + rewrite bool_decide_true by exact H15.
      pose proof (rounded_score_le _ y (B8 ltac:(subst M; lia))) as L'. fold s in L'.
      assert (Hge : (85 <= q)%Q).
      { set (c := Scoring64.rounded_score (17 # 20)) in *.
        set (mx := Qmax 0 s) in *. clearbody mx s c. lra. }
      apply Qle_bool_iff in Hge. rewrite Hge. reflexivity.
    + rewrite bool_decide_false by lia.
      pose proof (rounded_score_le y _ (B9 ltac:(subst M; lia))) as L'. fold s in L'.
      assert (Hlt' : (q < 85)%Q).
      { set (c := Scoring64.rounded_score ((17 # 20) - pow2 (-53))) in *.
        set (mx := Qmax 0 s) in *. clearbody mx s c. lra. }
      apply Qle_bool_false in Hlt'. rewrite Hlt'. reflexivity.
Qed.

Lemma traffic_light_of_score_witness :
  status (getTrafficLightStatus
            (Scoring64.calculateAccuracyScore
               [ {| errorCount := 50; Scoring.severity := "CRITICAL" |} ] 100))
  = "GREEN"
  ∧ status (getTrafficLightStatus
              (Scoring64.calculateAccuracyScore
                 [ {| errorCount := 150; Scoring.severity := "CRITICAL" |} ] 100))
    = "AMBER".
Proof.
  assert (H1 : (0 < 100)%N) by reflexivity.
  assert (H2 : 100 * Z.of_N 100 < 2 ^ 53) by reflexivity.
  split.
  - refine (traffic_light_of_score
              [ {| errorCount := 50; Scoring.severity := "CRITICAL" |} ] 100 H1 H2 _).
    reflexivity.
  - refine (traffic_light_of_score
              [ {| errorCount := 150; Scoring.severity := "CRITICAL" |} ] 100 H1 H2 _).
    reflexivity.
Defined.

Lemma to_number_ext (x y : Q) : (x == y)%Q → to_number x = to_number y.
Proof. intros E. unfold to_number. rewrite (round_ext x y E). reflexivity. Qed.

(** X5: as long as the total penalty stays below [2^53], the score
    computed in doubles does not depend on the order of the validation
    results: two lists with the same entries in a different order give
    the same number, for every batch size. *)
Theorem score_order_independent vr vr' (totalRecords : N) :
  vr ≡ₚ vr' → penaltySum vr < 2 ^ 53 →
  Scoring64.calculateAccuracyScore vr totalRecords
  = Scoring64.calculateAccuracyScore vr' totalRecords.
Proof.
  intros Hp Hb.
  pose proof (penaltySum_permutation vr vr' Hp) as HP.
  destruct (totalPenalty64_exact vr Hb) as (p & E & Hq).
  destruct (totalPenalty64_exact vr' ltac:(rewrite <- HP; exact Hb)) as (p' & E' & Hq').
  unfold Scoring64.calculateAccuracyScore. rewrite E, E'.
  assert (Hpp : (p == p')%Q) by (rewrite Hq, Hq', HP; reflexivity).
  destruct (Binary64.mul (Binary64.of_N totalRecords) (JS.of_Z 100)) as [ m | | | ];
    try reflexivity.
  cbn [Binary64.sub].
  assert (Hs : to_number (m - p) = to_number (m - p')).
  { apply to_number_ext. rewrite Hpp. reflexivity. }
  rewrite Hs. reflexivity.
Qed.

Lemma score_order_independent_witness :
  Scoring64.calculateAccuracyScore
    [ {| errorCount := 3; Scoring.severity := "MAJOR" |};
      {| errorCount := 1; Scoring.severity := "MINOR" |} ] 0
  = Scoring64.calculateAccuracyScore
      [ {| errorCount := 1; Scoring.severity := "MINOR" |};
        {| errorCount := 3; Scoring.severity := "MAJOR" |} ] 0.
Proof.
  refine (score_order_independent _ _ 0 _ _).
  - apply perm_swap.
  - reflexivity.
Defined.

End Binary64Scoring.

(** ** Format queries *)

Section FormatCheckFacts.
Import Sql Regex FormatChecks.

Lemma append_cons (c : Ascii.ascii) (a b : string) :
  String c a +:+ b = String c (a +:+ b).
Proof. reflexivity. Qed.

Lemma append_empty (b : string) : EmptyString +:+ b = b.
Proof. reflexivity. Qed.

(** On a string of exactly [n] characters, [c{n}] matches when all
    characters are of the class, and leaves nothing. *)
Lemma match_chars_exact (k : CharClass) (n : nat) (s : string) :
  String.length s = n →
  match_chars k n s = if all_in_class k s then Some EmptyString else None.
Proof.
  unfold all_in_class.
  revert s. induction n as [| n IH ]; intros [| c s ];
    cbn [String.length match_chars String.list_ascii_of_string forallb];
    try discriminate.
  - reflexivity.
  - intros [= Hl].
    destruct (in_class k c); cbn [andb]; [ apply IH, Hl | reflexivity ].
Qed.

(** [c{n}] consumes a prefix of [n] characters of the class. *)
Lemma match_chars_app (k : CharClass) (pre rest : string) :
  all_in_class k pre = true →
  match_chars k (String.length pre) (pre +:+ rest) = Some rest.
Proof.
  unfold all_in_class.
  induction pre as [| c pre IH ];
    cbn [String.length match_chars String.list_ascii_of_string forallb];
    [ reflexivity |].
  intros [Hc Hp]%andb_prop. rewrite append_cons, Hc. apply IH, Hp.
Qed.

(** A match is kept when the input is extended. *)
Lemma match_chars_extend (k : CharClass) (n : nat) (s rest suffix : string) :
  match_chars k n s = Some rest →
  match_chars k n (s +:+ suffix) = Some (rest +:+ suffix).
Proof.
  revert s. induction n as [| n IH ]; intros s; cbn [match_chars].
  - intros [= ->]. reflexivity.
  - destruct s as [| c s ]; [ discriminate |]. rewrite append_cons.
    destruct (in_class k c); [ apply IH | discriminate ].
Qed.

Lemma match_items_extend (its : list (CharClass * nat)) (s rest suffix : string) :
  match_items its s = Some rest →
  match_items its (s +:+ suffix) = Some (rest +:+ suffix).
Proof.
  revert s. induction its as [| [k n] its IH ]; intros s; cbn [match_items].
  - intros [= ->]. reflexivity.
  - destruct (match_chars k n s) as [ r |] eqn:E; [| discriminate ].
    rewrite (match_chars_extend k n s r suffix E). apply IH.
Qed.

Lemma match_items_class (k : CharClass) (n : nat) its (pre rest : string) :
  String.length pre = n → all_in_class k pre = true →
  match_items ((k, n) :: its) (pre +:+ rest) = match_items its rest.
Proof.
  intros <- H. cbn [match_items]. rewrite (match_chars_app k pre rest H).
  reflexivity.
Qed.

Lemma match_items_literal (c : Ascii.ascii) its (rest : string) :
  match_items ((Literal c, 1%nat) :: its) (String c rest) = match_items its rest.
Proof.
  cbn [match_items match_chars in_class]. rewrite Ascii.eqb_refl. reflexivity.
Qed.

(** A pattern [^c{n}$] on a string of [n] characters. *)
Lemma regexp_like_exact (k : CharClass) (n : nat) (s : string) :
  String.length s = n →
  regexp_like s {| items := [ (k, n) ]; dollar := true |} = all_in_class k s.
Proof.
  intros Hl. unfold regexp_like. cbn [items dollar match_items].
  rewrite (match_chars_exact k n s Hl).
  destruct (all_in_class k s); reflexivity.
Qed.

(** X6: the LEI query flags a value exactly when it is present and is not
    a string of 20 characters, each a capital letter or a digit.  A NULL
    is never flagged; the empty string is, and the completeness query
    counts it as missing as well. *)
Theorem lei_format_error_iff (lei : option string) :
  holds (lei_format_error lei)
  = match lei with
    | None => false
    | Some s => negb ((String.length s =? 20)%nat && all_in_class UpperOrDigit s)
    end
  ∧ holds (lei_format_error (Some "")) = true
  ∧ holds (Completeness.missing (Some "")) = true.
Proof.
  split; [| split; reflexivity ].
  destruct lei as [ s |]; [| reflexivity ].
  unfold lei_format_error, neq, LENGTH, REGEXP_LIKE, lei_pattern.
  cbn [fmap option_fmap option_map is_not_null cmp not3].
  destruct (Nat.eqb_spec (String.length s) 20) as [ Hl | Hl ].
  - rewrite (regexp_like_exact UpperOrDigit 20 s Hl), Hl.
    destruct (all_in_class UpperOrDigit s); reflexivity.
  - replace (Z.of_nat (String.length s) =? 20) with false
      by (symmetry; apply Z.eqb_neq; lia).
    match goal with
    | |- context [ regexp_like ?a ?b ] => destruct (regexp_like a b)
    end; reflexivity.
Qed.

Lemma substring_app (n m : nat) (a b : string) :
  (n + m <= String.length a)%nat →
  String.substring n m (a +:+ b) = String.substring n m a.
Proof.
  revert n m. induction a as [| c a IH ]; intros n m; cbn [String.length].
  - intros H. assert (n = 0%nat ∧ m = 0%nat) as [-> ->] by lia.
    rewrite append_empty. destruct b; reflexivity.
  - intros H. rewrite append_cons. destruct n as [| n ].
    + destruct m as [| m ]; [ reflexivity |].
      cbn [String.substring]. f_equal. apply IH. lia.
    + cbn [String.substring]. apply IH. lia.
Qed.

Lemma length_append (a b : string) :
  String.length (a +:+ b) = (String.length a + String.length b)%nat.
Proof.
  induction a as [| c a IH ]; [ reflexivity |].
  rewrite append_cons. cbn [String.length]. rewrite IH. reflexivity.
Qed.

(** X7: the ISIN query never looks at the twelfth character: two values
    of twelve characters that agree on the first eleven are both flagged
    or both passed. *)
Theorem isin_check_ignores_last_character (body : string) (c c' : Ascii.ascii) :
  String.length body = 11%nat →
  holds (isin_format_error (Some (body +:+ String c EmptyString)))
  = holds (isin_format_error (Some (body +:+ String c' EmptyString))).
Proof.
  intros Hl.
  unfold isin_format_error, neq, LENGTH, REGEXP_LIKE, SUBSTR.
  cbn [fmap option_fmap option_map is_not_null cmp not3 Nat.sub].
  rewrite !length_append, Hl.
  rewrite !(substring_app _ _ body) by (rewrite Hl; cbn; lia).
  reflexivity.
Qed.

Lemma isin_check_ignores_last_character_witness :
  holds (isin_format_error (Some ("DE000A1EWWW" +:+ String "0"%char EmptyString)))
  = holds (isin_format_error (Some ("DE000A1EWWW" +:+ String "?"%char EmptyString))).
Proof.
  apply (isin_check_ignores_last_character "DE000A1EWWW" "0"%char "?"%char).
  reflexivity.
Defined.

(** X8: when every code of the reference list is made of three capital
    letters, the currency query flags exactly the present values that are
    not in the list: the length and pattern tests add nothing. *)
Theorem currency_format_error_iff (codes : list string) (currency : option string) :
  Forall (λ code, String.length code = 3%nat ∧ all_in_class Upper code = true) codes →
  holds (currency_format_error codes currency)
  = match currency with
    | None => false
    | Some s => negb (bool_decide (s ∈ codes))
    end.
Proof.
  intros Hcodes. destruct currency as [ s |]; [| reflexivity ].
  unfold currency_format_error, neq, LENGTH, REGEXP_LIKE, not_in, currency_pattern.
  cbn [fmap option_fmap option_map is_not_null cmp not3].
  destruct (bool_decide (s ∈ codes)) eqn:E.
  - apply bool_decide_eq_true in E.
    rewrite Forall_forall in Hcodes. destruct (Hcodes s E) as [Hl Hu].
    rewrite (regexp_like_exact Upper 3 s Hl), Hu, Hl. reflexivity.
  - match goal with
    | |- context [ regexp_like ?a ?b ] => destruct (regexp_like a b)
    end; destruct (Z.of_nat (String.length s) =? 3); reflexivity.
Qed.

Lemma currency_format_error_iff_witness :
  holds (currency_format_error [ "USD"; "EUR"; "GBP"; "JPY" ] (Some "EUR")) = false
  ∧ holds (currency_format_error [ "USD"; "EUR"; "GBP"; "JPY" ] (Some "XXX")) = true.
Proof.
  assert (H : Forall (λ code, String.length code = 3%nat
                              ∧ all_in_class Upper code = true)
                     [ "USD"; "EUR"; "GBP"; "JPY" ]).
  { repeat constructor. }
  split.
  - exact (currency_format_error_iff _ (Some "EUR") H).
  - exact (currency_format_error_iff _ (Some "XXX") H).
Defined.

Lemma date_pattern_shape (y m d : string) :
  String.length y = 4%nat → String.length m = 2%nat → String.length d = 2%nat →
  all_in_class Digit y = true → all_in_class Digit m = true →
  all_in_class Digit d = true →
  regexp_like (y +:+ "-" +:+ m +:+ "-" +:+ d) date_pattern = true.
Proof.
  intros Hy Hm Hd Ay Am Ad.
  unfold regexp_like, date_pattern. cbn [items dollar].
  rewrite (match_items_class Digit 4 _ y _ Hy Ay).
  rewrite append_cons, append_empty, match_items_literal.
  rewrite (match_items_class Digit 2 _ m _ Hm Am).
  rewrite append_cons, append_empty, match_items_literal.
  cbn [match_items].
  rewrite (match_chars_exact Digit 2 d Hd), Ad. reflexivity.
Qed.

Lemma timestamp_pattern_prefix (ts suffix : string) :
  regexp_like ts timestamp_pattern = true →
  regexp_like (ts +:+ suffix) timestamp_pattern = true.
Proof.
  unfold regexp_like. cbn [dollar].
  destruct (match_items (items timestamp_pattern) ts) as [ rest |] eqn:E;
    [| discriminate ].
  intros _. rewrite (match_items_extend _ ts rest suffix E). reflexivity.
Qed.

(** X9: the date format query tests the shape of the text only.  A row is
    not counted when its effective date is any digits in the shape
    dddd-dd-dd, whatever month and day they spell, and its execution
    timestamp begins with a well-shaped timestamp, whatever follows. *)
Theorem date_format_check_is_shape_only (y m d ts suffix : string) :
  String.length y = 4%nat → String.length m = 2%nat → String.length d = 2%nat →
  all_in_class Digit y = true → all_in_class Digit m = true →
  all_in_class Digit d = true →
  regexp_like ts timestamp_pattern = true →
  holds (date_format_error (Some (ts +:+ suffix))
                           (Some (y +:+ "-" +:+ m +:+ "-" +:+ d))) = false.
Proof.
  intros Hy Hm Hd Ay Am Ad Hts.
  unfold date_format_error, REGEXP_LIKE.
  cbn [fmap option_fmap option_map not3].
  rewrite (date_pattern_shape y m d Hy Hm Hd Ay Am Ad).
  rewrite (timestamp_pattern_prefix ts suffix Hts). reflexivity.
Qed.

Lemma date_format_check_is_shape_only_witness :
  holds (date_format_error (Some ("2025-09-25T10:30:00" +:+ " and more"))
                           (Some ("2025" +:+ "-" +:+ "99" +:+ "-" +:+ "99"))) = false.
Proof.
  apply (date_format_check_is_shape_only "2025" "99" "99"
           "2025-09-25T10:30:00" " and more"); reflexivity.
Defined.

End FormatCheckFacts.

(** ** Clearing and derivative queries *)

Section LogicalExtras.
Import Sql Trades Logical Derivatives.

(** X10: the clearing query flags a cleared trade exactly when its central
    counterparty is NULL or empty or its clearing timestamp is NULL, and
    an uncleared trade exactly when it is under the clearing obligation;
    a trade whose cleared flag is NULL is never flagged. *)
Theorem clearing_logic_error_iff (t : Trade) :
  holds (clearing_logic_error t)
  = match cleared t with
    | Some true =>
        match central_counterparty t with
        | None => true
        | Some ccp => String.eqb ccp ""
        end
        || negb (present (clearing_timestamp t))
    | Some false => bool_decide (clearing_obligation t = Some true)
    | None => false
    end.
Proof.
  unfold clearing_logic_error, present.
  destruct (cleared t) as [ [] |], (central_counterparty t) as [ ccp |],
    (clearing_timestamp t), (clearing_obligation t) as [ [] |];
    cbn -[String.eqb]; try destruct (String.eqb ccp ""); reflexivity.
Qed.

(** X11: the options query flags a row exactly when its asset class is
    OPTION and some, but not all, of option type, option style and strike
    price are populated. *)
Theorem option_incomplete_data_iff (t : DerivativeRow) :
  holds (option_incomplete_data t)
  = bool_decide (asset_class t = Some "OPTION")
    && (populated (option_type t) || populated (option_style t)
        || populated (strike_price t))
    && negb (populated (option_type t) && populated (option_style t)
             && populated (strike_price t)).
Proof.
  unfold option_incomplete_data, populated.
  destruct (asset_class t) as [ a |]; cbn -[String.eqb].
  - destruct (String.eqb_spec a "OPTION") as [ -> | Hne ].
    + rewrite bool_decide_true by reflexivity.
      destruct (option_type t), (option_style t), (strike_price t); reflexivity.
    + rewrite bool_decide_false by congruence.
      destruct (option_type t), (option_style t), (strike_price t); reflexivity.
  - destruct (option_type t), (option_style t), (strike_price t); reflexivity.
Qed.

(** X12: the swaps query passes a row of asset class SWAP exactly when
    each leg has one of fixed and floating rate populated and not the
    other; rows of another asset class, or of none, are never flagged. *)
Theorem swap_rate_inconsistent_iff (t : DerivativeRow) :
  holds (swap_rate_inconsistent t)
  = bool_decide (asset_class t = Some "SWAP")
    && negb (xorb (populated (leg1_fixed_rate t)) (populated (leg1_floating_rate t))
             && xorb (populated (leg2_fixed_rate t)) (populated (leg2_floating_rate t))).
Proof.
  unfold swap_rate_inconsistent, populated.
  destruct (asset_class t) as [ a |]; cbn -[String.eqb].
  - destruct (String.eqb_spec a "SWAP") as [ -> | Hne ].
    + rewrite bool_decide_true by reflexivity.
      destruct (leg1_fixed_rate t), (leg1_floating_rate t),
        (leg2_fixed_rate t), (leg2_floating_rate t); reflexivity.
    + rewrite bool_decide_false by congruence.
      destruct (leg1_fixed_rate t), (leg1_floating_rate t),
        (leg2_fixed_rate t), (leg2_floating_rate t); reflexivity.
  - destruct (leg1_fixed_rate t), (leg1_floating_rate t),
      (leg2_fixed_rate t), (leg2_floating_rate t); reflexivity.
Qed.

(** X13: the schema documents five values for [asset_class], and neither
    OPTION nor SWAP is one of them: a row whose asset class is one of
    the documented values is flagged by neither derivative query,
    whatever its option and rate columns hold. *)
Theorem documented_asset_classes_never_flagged (t : DerivativeRow) (a : string) :
  asset_class t = Some a → a ∈ documented_asset_classes →
  holds (option_incomplete_data t) = false
  ∧ holds (swap_rate_inconsistent t) = false
  ∧ {| GlueCatalog.name := "asset_class"; GlueCatalog.type := "string";
       GlueCatalog.comment := Some "EQUITY, COMMODITY, FX, INTEREST_RATE, CREDIT" |}
    ∈ GlueCatalog.getEmirFieldSchema.
Proof.
  intros Ha Hin.
  rewrite option_incomplete_data_iff, swap_rate_inconsistent_iff, Ha.
  assert (Ho : a ≠ "OPTION" ∧ a ≠ "SWAP").
  { unfold documented_asset_classes in Hin.
    repeat (apply elem_of_cons in Hin as [ -> | Hin ];
            [ split; discriminate |]).
    apply elem_of_nil in Hin. contradiction. }
  destruct Ho as [Ho Hs].
  rewrite !bool_decide_false by congruence.
  split; [ reflexivity | split; [ reflexivity |] ].
  apply list_elem_of_In. vm_compute. tauto.
Qed.

Lemma documented_asset_classes_never_flagged_witness :
  holds (option_incomplete_data
           {| asset_class := Some "EQUITY"; option_type := Some "CALL";
              option_style := None; strike_price := None;
              leg1_fixed_rate := None; leg1_floating_rate := None;
              leg2_fixed_rate := None; leg2_floating_rate := None |}) = false.
Proof.
  refine (proj1 (documented_asset_classes_never_flagged _ "EQUITY" _ _)).
  - reflexivity.
  - left.
Defined.

End LogicalExtras.

(** ** Counts, category scores and the join *)

Section AggregateFacts.
Import Sql Trades Format Aggregates RecordScores.

(** The sum of a 0/100 indicator lies between 0 and 100 per row, and
    reaches a bound exactly when all rows agree. *)
Lemma indicator_sum (c : Trade → tv) (rows : list Trade) :
  let s := foldr Z.add 0 (map (λ t, case_when (c t) 100 0) rows) in
  0 <= s <= 100 * Z.of_nat (length rows)
  ∧ (s = 100 * Z.of_nat (length rows) ↔ Forall (λ t, holds (c t) = true) rows)
  ∧ (s = 0 ↔ Forall (λ t, holds (c t) = false) rows).
Proof.
  induction rows as [| t rows IH ]; cbn [map foldr length].
  - cbn. repeat split; try lia; constructor.
  - cbn zeta in IH. destruct IH as (Hb & H100 & H0).
    set (s := foldr Z.add 0 (map (λ t, case_when (c t) 100 0) rows)) in *.
    rewrite !Forall_cons, <- H100, <- H0. unfold case_when.
    clearbody s. clear H100 H0.
    destruct (holds (c t)); intuition (try discriminate; try lia).
Qed.

(** X14: the category score of the critical identifiers is NULL exactly
    when the partition has no rows; otherwise it lies between 0 and 100,
    is 100 exactly when every row has both [uti] and [counterparty_1]
    non-NULL (an empty string counts as present), and is 0 exactly when
    no row has. *)
Theorem critical_identifiers_score_bounds (rows : list Trade) :
  (critical_identifiers_score rows = None ↔ rows = [])
  ∧ ∀ q, critical_identifiers_score rows = Some q →
      (0 <= q <= 100)%Q
      ∧ ((q == 100)%Q ↔ Forall (λ t, uti t ≠ None ∧ counterparty_1 t ≠ None) rows)
      ∧ ((q == 0)%Q ↔ Forall (λ t, uti t = None ∨ counterparty_1 t = None) rows).
Proof.
  unfold critical_identifiers_score, AVG.
  destruct rows as [| t0 rows0 ]; [ split; [ tauto | discriminate ] |].
  set (rows := t0 :: rows0).
  change (map _ (t0 :: rows0)) with (map (λ t, case_when (identifiers_valid t) 100 0) rows).
  destruct (map (λ t, case_when (identifiers_valid t) 100 0) rows) as [| z zs ] eqn:E;
    [ discriminate E |].
  rewrite <- E. clear E z zs.
  split; [ split; discriminate |].
  intros q [= <-].
  destruct (indicator_sum identifiers_valid rows) as (Hb & H100 & H0).
  cbn zeta in Hb, H100, H0.
  set (s := foldr Z.add 0 (map (λ t, case_when (identifiers_valid t) 100 0) rows)) in *.
  rewrite length_map.
  set (n := Z.of_nat (length rows)) in *.
  assert (Hn : 0 < n).
  { subst n. unfold rows. rewrite length_cons. lia. }
  assert (Hs : (inject_Z s / inject_Z n * inject_Z n == inject_Z s)%Q).
  { field. intros Hz. change 0%Q with (inject_Z 0) in Hz.
    rewrite inject_Z_injective in Hz. lia. }
  destruct (scaled_compare _ n s 0 Hn Hs) as [L0 R0].
  destruct (scaled_compare _ n s 100 Hn Hs) as [L100 R100].
  change (inject_Z 0) with 0%Q in *. change (inject_Z 100) with 100%Q in *.
  assert (Hge : (0 <= inject_Z s / inject_Z n)%Q) by (apply L0; lia).
  assert (Hle : (inject_Z s / inject_Z n <= 100)%Q) by (apply R100; lia).
  assert (Hv : ∀ t, holds (identifiers_valid t) = true
                    ↔ uti t ≠ None ∧ counterparty_1 t ≠ None).
  { intros t. unfold identifiers_valid.
    destruct (uti t), (counterparty_1 t); cbn; intuition congruence. }
  assert (Hi : ∀ t, holds (identifiers_valid t) = false
                    ↔ uti t = None ∨ counterparty_1 t = None).
  { intros t. unfold identifiers_valid.
    destruct (uti t), (counterparty_1 t); cbn; intuition congruence. }
  assert (Fv : Forall (λ t, holds (identifiers_valid t) = true) rows
               ↔ Forall (λ t, uti t ≠ None ∧ counterparty_1 t ≠ None) rows)
    by (apply Forall_iff; exact Hv).
  assert (Fi : Forall (λ t, holds (identifiers_valid t) = false) rows
               ↔ Forall (λ t, uti t = None ∨ counterparty_1 t = None) rows)
    by (apply Forall_iff; exact Hi).
  split; [ split; assumption |]. split.
  - rewrite <- Fv, <- H100. split.
    + intros He.
      assert (Hl : (100 <= inject_Z s / inject_Z n)%Q)
        by (apply Qle_lteq; right; symmetry; exact He).
      apply L100 in Hl. lia.
    + intros He. apply Qle_antisym; [ exact Hle |]. apply L100. lia.
  - rewrite <- Fi, <- H0. split.
    + intros He.
      assert (Hl : (inject_Z s / inject_Z n <= 0)%Q)
        by (apply Qle_lteq; right; exact He).
      apply R0 in Hl. lia.
    + intros He. apply Qle_antisym; [| exact Hge ]. apply R0. lia.
Qed.

Lemma critical_identifiers_score_witness :
  ∃ q, critical_identifiers_score [ sample_trade; set_uti None sample_trade ] = Some q
       ∧ (0 <= q <= 100)%Q.
Proof.
  eexists. split; [ reflexivity |].
  exact (proj1 (proj2 (critical_identifiers_score_bounds
                         [ sample_trade; set_uti None sample_trade ]) _ eq_refl)).
Defined.

Lemma occurrences_omap (u : string) (rows : list Trade) :
  occurrences u rows = length (filter (λ k, k = u) (omap uti rows)).
Proof.
  unfold occurrences. induction rows as [| t rows IH ]; [ reflexivity |].
  cbn [omap list_omap]. destruct (uti t) as [ k |] eqn:E; cbn beta iota.
  - destruct (decide (k = u)) as [ -> | Hne ].
    + rewrite filter_cons_True by exact E.
      rewrite (filter_cons_True (λ k, k = u)) by reflexivity.
      cbn [length]. rewrite IH. reflexivity.
    + rewrite filter_cons_False by congruence.
      rewrite (filter_cons_False (λ k, k = u)) by exact Hne. exact IH.
  - rewrite filter_cons_False by congruence. exact IH.
Qed.

Lemma filter_eq_length_pos (u : string) (l : list string) :
  (0 < length (filter (λ k, k = u) l))%nat ↔ u ∈ l.
Proof.
  split.
  - destruct (filter (λ k, k = u) l) as [| x f ] eqn:E; cbn [length]; [ lia |].
    intros _. assert (Hx : x ∈ filter (λ k, k = u) l) by (rewrite E; left).
    apply list_elem_of_filter in Hx as [-> Hx]. exact Hx.
  - intros Hu. assert (Hx : u ∈ filter (λ k, k = u) l)
      by (apply list_elem_of_filter; split; [ reflexivity | exact Hu ]).
    destruct (filter (λ k, k = u) l); [ apply elem_of_nil in Hx; contradiction |].
    cbn [length]. lia.
Qed.

Lemma NoDup_filter_length (l : list string) :
  NoDup l ↔ ∀ u, (length (filter (λ k, k = u) l) <= 1)%nat.
Proof.
  induction l as [| k l IH ].
  - split; [ intros _ u; cbn; lia | constructor ].
  - rewrite NoDup_cons, IH. split.
    + intros [Hk Hl] u. destruct (decide (k = u)) as [ -> | Hne ].
      * rewrite filter_cons_True by reflexivity. cbn [length].
        pose proof (filter_eq_length_pos u l) as Hpos.
        destruct (length (filter (λ k, k = u) l)); [ lia |].
        exfalso. apply Hk, Hpos. lia.
      * rewrite filter_cons_False by exact Hne. apply Hl.
    + intros H. split.
      * intros Hk. specialize (H k).
        rewrite filter_cons_True in H by reflexivity. cbn [length] in H.
        apply filter_eq_length_pos in Hk. lia.
      * intros u. specialize (H u).
        destruct (decide (k = u)) as [ -> | Hne ].
        -- rewrite filter_cons_True in H by reflexivity. cbn [length] in H. lia.
        -- rewrite filter_cons_False in H by exact Hne. exact H.
Qed.

Lemma remove_dups_length_le (l : list string) :
  (length (remove_dups l) <= length l)%nat
  ∧ (length (remove_dups l) = length l ↔ NoDup l).
Proof.
  induction l as [| x l [IH1 IH2] ]; cbn [remove_dups length].
  - split; [ lia |]. split; [ constructor | reflexivity ].
  - rewrite NoDup_cons. destruct (decide_rel elem_of x l) as [ Hx | Hx ]; cbn [length].
    + split; [ lia |]. split; [ lia | tauto ].
    + split; [ lia |]. rewrite <- IH2. split; [ intros H; split; [ exact Hx | lia ] |].
      intros [_ H]. lia.
Qed.

Lemma length_omap_uti (rows : list Trade) :
  (length (omap uti rows) <= length rows)%nat
  ∧ (length (omap uti rows) = length rows ↔ Forall (λ t, uti t ≠ None) rows).
Proof.
  induction rows as [| t rows [IH1 IH2] ]; cbn [omap list_omap length].
  - split; [ lia |]. split; [ constructor | reflexivity ].
  - rewrite Forall_cons. destruct (uti t) as [ k |]; cbn [length].
    + split; [ lia |]. rewrite <- IH2. split.
      * intros H. split; [ discriminate | lia ].
      * intros [_ H]. lia.
    + split; [ lia |]. split; [ lia |]. intros [H _]. contradiction.
Qed.

Lemma uti_uniqueness_check_empty (rows : list Trade) :
  uti_uniqueness_check rows = ∅ ↔ NoDup (omap uti rows).
Proof.
  rewrite NoDup_filter_length. split.
  - intros He u. rewrite <- occurrences_omap.
    destruct (decide (occurrences u rows <= 1)%nat) as [ H | H ]; [ exact H |].
    assert (Hl : uti_uniqueness_check rows !! u = Some (occurrences u rows)).
    { apply uti_uniqueness_check_lookup. split; [ reflexivity | lia ]. }
    rewrite He, lookup_empty in Hl. discriminate.
  - intros H. apply map_empty. intros u.
    destruct (uti_uniqueness_check rows !! u) as [ n |] eqn:E; [| reflexivity ].
    apply uti_uniqueness_check_lookup in E as [E1 E2].
    specialize (H u). rewrite <- occurrences_omap in H. lia.
Qed.

(** X15: in the Phase 1 counts the number of distinct UTIs never exceeds
    the number of records, and the two are equal exactly when no record
    has a NULL [uti] and the uniqueness check of Phase 3 returns no
    row. *)
Theorem unique_utis_le_total_records (rows : list Trade) :
  (unique_utis rows <= total_records rows)%nat
  ∧ (unique_utis rows = total_records rows
     ↔ Forall (λ t, uti t ≠ None) rows ∧ uti_uniqueness_check rows = ∅).
Proof.
  unfold unique_utis, total_records.
  destruct (remove_dups_length_le (omap uti rows)) as [Hd1 Hd2].
  destruct (length_omap_uti rows) as [Ho1 Ho2].
  split; [ lia |].
  rewrite uti_uniqueness_check_empty, <- Hd2, <- Ho2. lia.
Qed.

Lemma length_filter_split (P : Trade → Prop) `{!∀ t, Decision (P t)} (rows : list Trade) :
  (length (filter P rows) + length (filter (λ t, ¬ P t) rows))%nat = length rows.
Proof.
  induction rows as [| t rows IH ]; [ reflexivity |].
  destruct (decide (P t)) as [ HP | HP ].
  - rewrite filter_cons_True by exact HP.
    rewrite (filter_cons_False (λ t, ¬ P t)) by tauto. cbn [length]. lia.
  - rewrite filter_cons_False by exact HP.
    rewrite (filter_cons_True (λ t, ¬ P t)) by exact HP. cbn [length]. lia.
Qed.

Lemma occurrences_filter_other (k u : string) (rows : list Trade) :
  k ≠ u →
  occurrences u (filter (λ t, ¬ uti t = Some k) rows) = occurrences u rows.
Proof.
  intros Hne. unfold occurrences. induction rows as [| t rows IH ]; [ reflexivity |].
  destruct (decide (uti t = Some k)) as [ Hk | Hk ].
  - rewrite (filter_cons_False (λ t, ¬ uti t = Some k)) by tauto.
    rewrite (filter_cons_False (λ t, uti t = Some u)) by congruence. exact IH.
  - rewrite (filter_cons_True (λ t, ¬ uti t = Some k)) by exact Hk.
    destruct (decide (uti t = Some u)) as [ Hu | Hu ].
    + rewrite !(filter_cons_True (λ t, uti t = Some u)) by exact Hu.
      cbn [length]. rewrite IH. reflexivity.
    + rewrite !(filter_cons_False (λ t, uti t = Some u)) by exact Hu. exact IH.
Qed.

(** Keys that each occur twice need two rows each. *)
Lemma repeated_keys_bound (ks : list string) : ∀ rows : list Trade,
  NoDup ks → (∀ k, k ∈ ks → (2 <= occurrences k rows)%nat) →
  (2 * length ks <= length rows)%nat.
Proof.
  induction ks as [| k ks IH ]; intros rows Hnd Hocc; [ cbn; lia |].
  apply NoDup_cons in Hnd as [Hk Hnd].
  pose proof (length_filter_split (λ t, uti t = Some k) rows) as Hsplit.
  pose proof (Hocc k (list_elem_of_here _ _)) as H2. unfold occurrences in H2.
  assert (IH' : (2 * length ks <= length (filter (λ t, ¬ uti t = Some k) rows))%nat).
  { apply IH; [ exact Hnd |]. intros u Hu.
    rewrite occurrences_filter_other.
    - apply Hocc. right. exact Hu.
    - intros ->. exact (Hk Hu). }
  cbn [length]. lia.
Qed.

(** X16: the uniqueness check returns a UTI with the count [n] exactly
    when [n] rows carry it and [n] is at least 2; rows with a NULL [uti]
    are never grouped; and the result has at most half as many rows as
    the batch. *)
Theorem uti_uniqueness_check_spec (rows : list Trade) :
  (∀ u n, uti_uniqueness_check rows !! u = Some n
          ↔ occurrences u rows = n ∧ (2 <= n)%nat)
  ∧ (2 * size (uti_uniqueness_check rows) <= length rows)%nat
  ∧ (Forall (λ t, uti t = None) rows → uti_uniqueness_check rows = ∅).
Proof.
  split; [| split ].
  - intros u n. rewrite uti_uniqueness_check_lookup. lia.
  - rewrite <- length_map_to_list.
    rewrite <- (length_fmap fst (map_to_list (uti_uniqueness_check rows))).
    apply repeated_keys_bound; [ apply NoDup_fst_map_to_list |].
    intros k Hk. apply list_elem_of_fmap in Hk as ([k' n] & -> & Hin).
    apply elem_of_map_to_list, uti_uniqueness_check_lookup in Hin as [<- Hn].
    cbn. lia.
  - intros Hall. apply uti_uniqueness_check_empty.
    assert (He : omap uti rows = []); [| rewrite He; constructor ].
    induction Hall as [| t rows Ht _ IH ]; [ reflexivity |].
    cbn [omap list_omap]. rewrite Ht. exact IH.
Qed.

Lemma uti_uniqueness_check_spec_witness :
  uti_uniqueness_check [ set_uti None sample_trade; set_uti None sample_trade ] = ∅.
Proof.
  apply (proj2 (proj2 (uti_uniqueness_check_spec
                         [ set_uti None sample_trade; set_uti None sample_trade ]))).
  repeat constructor.
Defined.

(** X17: a row whose [uti] is NULL joins no row of the format and logical
    error tables: whatever the tables hold, its penalty is 10 points plus
    10 for a NULL [counterparty_1] and 10 for a NULL [action_type], and
    its score is 70, 80 or 90. *)
Theorem null_uti_joins_no_errors (fmt log : gmap string Z) (t : Trade) :
  uti t = None →
  total_penalty (record_score fmt log t)
  = 10 + null_penalty (counterparty_1 t) + null_penalty (action_type t)
  ∧ accuracy_score (record_score fmt log t) = 100 - total_penalty (record_score fmt log t)
  ∧ accuracy_score (record_score fmt log t) ∈ [ 70; 80; 90 ].
Proof.
  intros Hu. unfold record_score, joined_penalty_points, greatest.
  cbn [total_penalty accuracy_score]. rewrite Hu.
  destruct (counterparty_1 t), (action_type t); cbn;
    (split; [ reflexivity | split; [ reflexivity | set_solver ] ]).
Qed.

Lemma null_uti_joins_no_errors_witness :
  accuracy_score (record_score {[ "UTI2025092500000001" := 25 ]} ∅
                    (set_uti None sample_trade)) ∈ [ 70; 80; 90 ].
Proof.
  apply (null_uti_joins_no_errors _ _ (set_uti None sample_trade)).
  reflexivity.
Defined.

End AggregateFacts.


(** ** Naming and configuration *)

Section NamingFacts.
Import JSString Config.

Lemma split_free (sep : Ascii.ascii) (a : string) :
  free_of sep a = true → split sep a = [ a ].
Proof.
  unfold free_of. induction a as [| c a IH ]; [ reflexivity |].
  cbn [String.list_ascii_of_string forallb split].
  intros [Hc Ha]%andb_prop. apply negb_true_iff in Hc. rewrite Hc, (IH Ha).
  reflexivity.
Qed.

Lemma split_app (sep : Ascii.ascii) (a rest : string) :
  free_of sep a = true →
  split sep (a +:+ String sep rest) = a :: split sep rest.
Proof.
  unfold free_of. induction a as [| c a IH ].
  - intros _. rewrite append_empty. cbn [split]. rewrite Ascii.eqb_refl. reflexivity.
  - cbn [String.list_ascii_of_string forallb].
    intros [Hc Ha]%andb_prop. apply negb_true_iff in Hc.
    rewrite append_cons. cbn [split]. rewrite Hc, (IH Ha). reflexivity.
Qed.

(** The table of region prefixes maps every key to itself. *)
Lemma regionMap_identity (p : string) : or_else (regionMap !! p) p = p.
Proof.
  destruct (regionMap !! p) as [ v |] eqn:E; [| reflexivity ].
  apply elem_of_list_to_map_2 in E.
  repeat (apply elem_of_cons in E as [ [= -> ->] | E ]; [ reflexivity |]).
  apply elem_of_nil in E. contradiction.
Qed.

(** X22: [getRegionCode] returns a region that does not have exactly
    three parts between hyphens unchanged; for a region [p-d-n] it
    returns [p], the code of the direction [d] (its table entry, or its
    first letter) and [n], joined: the table of prefixes changes
    nothing. *)
Theorem getRegionCode_spec :
  (∀ region, length (split "-" region) ≠ 3%nat → getRegionCode region = region)
  ∧ (∀ p d n,
       free_of "-" p = true → free_of "-" d = true → free_of "-" n = true →
       p ∉ inherited_keys → d ∉ inherited_keys →
       getRegionCode (p +:+ "-" +:+ d +:+ "-" +:+ n) = p +:+ direction_code d +:+ n).
Proof.
  split.
  - intros region Hl. unfold getRegionCode.
    destruct (split "-" region) as [| a [| b [| c [| e l ] ] ] ];
      try reflexivity. contradiction Hl. reflexivity.
  - intros p d n Hp Hd Hn _ _. unfold getRegionCode, direction_code.
    rewrite !append_cons, !append_empty.
    rewrite (split_app _ p _ Hp), (split_app _ d _ Hd), (split_free _ n Hn).
    rewrite regionMap_identity. reflexivity.
Qed.

Lemma getRegionCode_spec_witness :
  getRegionCode "us-gov-west-1" = "us-gov-west-1"
  ∧ getRegionCode ("eu" +:+ "-" +:+ "central" +:+ "-" +:+ "1")
    = "eu" +:+ direction_code "central" +:+ "1".
Proof.
  split.
  - apply (proj1 getRegionCode_spec "us-gov-west-1"). vm_compute. discriminate.
  - apply (proj2 getRegionCode_spec "eu" "central" "1"); try reflexivity.
    + vm_compute. intros H.
      repeat (apply elem_of_cons in H as [ H | H ]; [ discriminate H |]).
      apply elem_of_nil in H. exact H.
    + vm_compute. intros H.
      repeat (apply elem_of_cons in H as [ H | H ]; [ discriminate H |]).
      apply elem_of_nil in H. exact H.
Defined.

(** The examples that the source gives for the naming helper. *)
Lemma naming_examples :
  let nm := createNaming (getEmirConfig "us-east-1" "194561596031" "dev") in
  getRegionCode "us-east-1" = "use1"
  ∧ getRegionCode "eu-west-1" = "euw1"
  ∧ bucket nm "raw-data" = "emir-raw-data-dev-us-east-1-194561596031"
  ∧ table nm "ReportRuns" = "EmirReportRuns-Dev-USE1"
  ∧ lambda nm "data-loader" = "emir-data-loader-dev-us-east-1".
Proof. vm_compute. repeat split. Qed.

Ltac names_differ :=
  let H := fresh in
  intros H; unfold bucket, table in H;
  repeat rewrite ?append_cons, ?append_empty in H; discriminate H.

(** X23: for every configuration the three bucket names of the storage
    construct are pairwise distinct. *)
Theorem bucket_names_distinct (nm : EmirNaming) :
  NoDup [ bucket nm "raw-data"; bucket nm "reports"; bucket nm "athena-results" ].
Proof.
  repeat (apply NoDup_cons; split);
    rewrite ?not_elem_of_cons; repeat split;
    try apply not_elem_of_nil; try apply NoDup_nil_2; names_differ.
Qed.

End NamingFacts.

(** ** Storage, database and stack *)

Section InfrastructureFacts.
Import JSString Config Storage Database Stack.

Lemma is_dev_spec (cfg : EmirConfig) : is_dev cfg = true ↔ environment cfg = "dev".
Proof. unfold is_dev. apply String.eqb_eq. Qed.

Lemma is_prod_spec (cfg : EmirConfig) : is_prod cfg = true ↔ environment cfg = "prod".
Proof. unfold is_prod. apply String.eqb_eq. Qed.

(** X24: in every configuration a bucket is emptied on removal only when
    its removal policy is DESTROY; outside the dev environment the
    raw-data and reports buckets are retained and never emptied, while
    the bucket of Athena results is always destroyed with its objects. *)
Theorem bucket_removal_policy (cfg : EmirConfig) (naming : EmirNaming) :
  let st := new_EmirStorage cfg naming in
  Forall (λ b, autoDeleteObjects b = true → Storage.removalPolicy b = DESTROY) (buckets st)
  ∧ (environment cfg ≠ "dev" →
     Storage.removalPolicy (rawDataBucket st) = RETAIN
     ∧ autoDeleteObjects (rawDataBucket st) = false
     ∧ Storage.removalPolicy (reportsBucket st) = RETAIN
     ∧ autoDeleteObjects (reportsBucket st) = false)
  ∧ Storage.removalPolicy (athenaResultsBucket st) = DESTROY
  ∧ autoDeleteObjects (athenaResultsBucket st) = true.
Proof.
  cbn zeta. unfold buckets, new_EmirStorage.
  cbn [rawDataBucket reportsBucket athenaResultsBucket Storage.removalPolicy autoDeleteObjects].
  destruct (is_dev cfg) eqn:E.
  - split; [ repeat constructor |]. split; [| split; reflexivity ].
    intros Hne. apply is_dev_spec in E. contradiction.
  - split; [ repeat constructor; discriminate |].
    split; [| split; reflexivity ]. intros _. repeat split.
Qed.

Lemma bucket_removal_policy_witness :
  let cfg := getEmirConfig "eu-central-1" "194561596031" "prod" in
  let st := new_EmirStorage cfg (createNaming cfg) in
  Storage.removalPolicy (rawDataBucket st) = RETAIN
  ∧ autoDeleteObjects (rawDataBucket st) = false
  ∧ Storage.removalPolicy (reportsBucket st) = RETAIN
  ∧ autoDeleteObjects (reportsBucket st) = false.
Proof.
  intros cfg st.
  apply (proj1 (proj2 (bucket_removal_policy cfg (createNaming cfg)))).
  vm_compute. discriminate.
Defined.

(** X25: in every configuration each lifecycle rule of the raw-data
    bucket is enabled and expires objects, after any transition it
    makes; the rule without prefix, which applies to all objects,
    expires them after 730 days in the prod environment and after 90
    days in any other. *)
Theorem raw_data_lifecycle (cfg : EmirConfig) :
  Forall (λ r, rule_well_formed r = true) (getRawDataLifecycleRules cfg)
  ∧ days_of <$> (expiration <$> List.filter (λ r, negb (Logical.present (prefix r)))
                                   (getRawDataLifecycleRules cfg))
    = [ Some (if is_prod cfg then 730%N else 90%N) ].
Proof.
  unfold getRawDataLifecycleRules. destruct (is_prod cfg);
    (split; [ repeat constructor | reflexivity ]).
Qed.

(** The scan limit among the properties of the workgroup is the value of
    that expression. *)
Lemma workgroup_scan_cutoff (cfg : EmirConfig) (naming : EmirNaming) :
  bytesScannedCutoffPerQuery (athenaWorkgroupProps (new_EmirStorage cfg naming))
  = scanCutoffBytes cfg.
Proof. reflexivity. Qed.

(** X26: the scan limit [athenaDataScanLimitGB * 1024 * 1024 * 1024] of the
    configuration of the application's environment.  Without an
    environment in the context, or with an empty one, the configuration
    is that of dev and the limit is 100 GiB; staging and prod give 200
    and 500 GiB; for any other environment name [getEmirConfig] returns
    a configuration without settings, for which the expression is
    NaN. *)
Theorem scan_cutoff_by_environment (region account : string) (context_env : option string) :
  let cfg := getEmirConfig region account (app_environment context_env) in
  (context_env ∈ [ None; Some ""; Some "dev" ] →
   environment cfg = "dev"
   ∧ JS.eqb (scanCutoffBytes cfg) (JS.of_Z (100 * 1024 * 1024 * 1024)) = true)
  ∧ (context_env = Some "staging" →
     JS.eqb (scanCutoffBytes cfg) (JS.of_Z (200 * 1024 * 1024 * 1024)) = true)
  ∧ (context_env = Some "prod" →
     JS.eqb (scanCutoffBytes cfg) (JS.of_Z (500 * 1024 * 1024 * 1024)) = true)
  ∧ (∀ e, context_env = Some e → e ∉ [ ""; "dev"; "staging"; "prod" ] →
          environment cfg = e ∧ settings cfg = None ∧ scanCutoffBytes cfg = JS.NaN).
Proof.
  cbn zeta. split; [| split; [| split ] ].
  - intros H.
    repeat (apply elem_of_cons in H as [ -> | H ]; [ split; vm_compute; reflexivity |]).
    apply elem_of_nil in H. contradiction.
  - intros ->. vm_compute. reflexivity.
  - intros ->. vm_compute. reflexivity.
  - intros e -> He.
    assert (Henv : app_environment (Some e) = e).
    { destruct e; [| reflexivity ]. exfalso. apply He. left. }
    rewrite Henv.
    assert (Hl : ENVIRONMENT_CONFIGS !! e = None).
    { apply not_elem_of_list_to_map_1. cbn. intros H. apply He.
      right. exact H. }
    unfold scanCutoffBytes, getEmirConfig. cbn [settings environment].
    rewrite Hl. repeat split.
Qed.

Lemma scan_cutoff_by_environment_witness :
  JS.eqb (scanCutoffBytes (getEmirConfig "eu-central-1" "194561596031" (app_environment None)))
         (JS.of_Z (100 * 1024 * 1024 * 1024)) = true
  ∧ scanCutoffBytes (getEmirConfig "eu-central-1" "194561596031"
                       (app_environment (Some "test"))) = JS.NaN.
Proof.
  split.
  - apply (proj1 (scan_cutoff_by_environment "eu-central-1" "194561596031" None)). left.
  - apply (proj2 (proj2 (proj2
             (scan_cutoff_by_environment "eu-central-1" "194561596031" (Some "test"))))
             "test"); [ reflexivity |].
    intros H.
    repeat (apply elem_of_cons in H as [ H | H ]; [ discriminate H |]).
    apply elem_of_nil in H. exact H.
Defined.

Lemma NoDup_by_compute {A} `{EqDecision A} (l : list A) :
  bool_decide (NoDup l) = true → NoDup l.
Proof. apply bool_decide_eq_true. Qed.

Lemma table_names_differ (nm : EmirNaming) :
  NoDup [ table nm "ReportRuns"; table nm "ValidationResults";
          table nm "AccuracyScores"; table nm "RecordScores" ].
Proof.
  repeat (apply NoDup_cons; split);
    rewrite ?not_elem_of_cons; repeat split;
    try apply not_elem_of_nil; try apply NoDup_nil_2;
    (let H := fresh in
     intros H; unfold table in H;
     repeat rewrite ?append_cons, ?append_empty in H; discriminate H).
Qed.

(** X28: in every configuration the four tables have pairwise distinct
    names; in each table the index names are pairwise distinct and no
    attribute is declared with two types; point-in-time recovery is on
    exactly in the prod environment, and a table is destroyed with the
    stack exactly in the dev environment. *)
Theorem database_tables_well_formed (cfg : EmirConfig) (naming : EmirNaming) :
  let db := new_EmirDatabase cfg naming in
  NoDup (Database.tableName <$> tables db)
  ∧ Forall (λ t, NoDup (indexName <$> globalSecondaryIndexes t)
                 ∧ types_consistent (key_attributes t) = true
                 ∧ (pointInTimeRecovery t = true ↔ environment cfg = "prod")
                 ∧ (Database.removalPolicy t = DESTROY ↔ environment cfg = "dev"))
           (tables db).
Proof.
  cbn zeta. split; [ exact (table_names_differ naming) |].
  assert (Hr : (if is_dev cfg then DESTROY else RETAIN) = DESTROY
               ↔ environment cfg = "dev").
  { rewrite <- is_dev_spec. destruct (is_dev cfg); split; congruence. }
  unfold tables, new_EmirDatabase, new_Table.
  cbn [reportRunsTable validationResultsTable accuracyScoresTable recordScoresTable].
  apply List.Forall_cons; [| apply List.Forall_cons; [| apply List.Forall_cons;
    [| apply List.Forall_cons; [| apply List.Forall_nil ] ] ] ];
    cbn [globalSecondaryIndexes pointInTimeRecovery Database.removalPolicy];
    (split; [ apply NoDup_by_compute; vm_compute; reflexivity |
      split; [ vm_compute; reflexivity |
        split; [ apply is_prod_spec | exact Hr ] ] ]).
Qed.

Lemma append_inj_l (a b c : string) : a +:+ b = a +:+ c → b = c.
Proof.
  induction a as [| x a IH ]; [ rewrite !append_empty; tauto |].
  rewrite !append_cons. intros [= H]. exact (IH H).
Qed.

(** X29: for every stack name the CloudFormation outputs of the stack
    have pairwise distinct identifiers, and the nine export names are
    pairwise distinct. *)
Theorem stack_outputs_distinct (stackName : string) (st : EmirStorage)
    (db : EmirDatabase) (glueDb glueTbl : string) :
  let outs := createOutputs stackName st db glueDb glueTbl in
  NoDup (output_id <$> outs)
  ∧ NoDup (omap exportName outs)
  ∧ length (omap exportName outs) = 9%nat.
Proof.
  cbn zeta. split; [| split; [| reflexivity ] ].
  - apply NoDup_by_compute. vm_compute. reflexivity.
  - change (omap exportName (createOutputs stackName st db glueDb glueTbl))
      with ((λ suffix, stackName +:+ "-" +:+ suffix)
              <$> [ "RawDataBucket"; "ReportsBucket"; "AthenaResultsBucket";
                    "ReportRunsTable"; "ValidationResultsTable";
                    "AccuracyScoresTable"; "GlueDatabase"; "GlueTable";
                    "AthenaWorkgroup" ]).
    apply NoDup_fmap_2.
    + intros x y H. apply append_inj_l in H. apply append_inj_l in H. exact H.
    + apply NoDup_by_compute. vm_compute. reflexivity.
Qed.

(** X30: for every configuration the names of the columns and of the
    partition keys of the trades table are pairwise distinct, so no
    partition key repeats a column, and none of them is [report_date]. *)
Theorem trades_table_columns (account dbName tblName bucketName : string) :
  let t := GlueCatalog.tradesTable account dbName tblName bucketName in
  NoDup (QueryColumns.declared_columns t).*1
  ∧ "report_date" ∉ (QueryColumns.declared_columns t).*1.
Proof.
  cbn zeta.
  change (QueryColumns.declared_columns
            (GlueCatalog.tradesTable account dbName tblName bucketName))
    with (QueryColumns.declared_columns (GlueCatalog.tradesTable "" "" "" "")).
  split.
  - apply NoDup_by_compute. vm_compute. reflexivity.
  - apply (bool_decide_unpack _). vm_compute. exact I.
Qed.

End InfrastructureFacts.

(** ** The time to live of a record *)

Section TimeToLive.
Import JS Binary64 Database.

Lemma Qfloor_between (r : Q) (k : Z) :
  (inject_Z k <= r)%Q → (r < inject_Z (k + 1))%Q → Qfloor r = k.
Proof.
  intros H1 H2.
  pose proof (Qfloor_resp_le _ _ H1) as Hlo. rewrite Qfloor_Z in Hlo.
  pose proof (Qfloor_le r) as Hle.
  assert (Hhi : (inject_Z (Qfloor r) < inject_Z (k + 1))%Q) by (eapply Qle_lt_trans; eassumption).
  rewrite <- Zlt_Qlt in Hhi. lia.
Qed.

(** Dividing a time in milliseconds by 1000 and rounding the quotient to
    a double does not reach the next whole second. *)
Lemma floor_of_rounded_seconds (now : Z) :
  0 <= now < 2 ^ 52 →
  Qfloor (round (inject_Z now / inject_Z 1000)) = now / 1000.
Proof.
  change (2 ^ 52) with 4503599627370496. intros Hnow.
  set (k := now / 1000).
  pose proof (Z.div_mod now 1000 ltac:(lia)) as Hd.
  pose proof (Z.mod_pos_bound now 1000 ltac:(lia)) as Hm.
  fold k in Hd.
  assert (Hk : 0 <= k < 4503599627371) by lia.
  set (x := (inject_Z now / inject_Z 1000)%Q).
  assert (Hlo : (inject_Z k <= x)%Q).
  { assert (E : (inject_Z k == inject_Z k / inject_Z 1)%Q) by (field; discriminate).
    rewrite E. apply Qdiv_le_cross; lia. }
  set (y := (inject_Z (1024 * (k + 1) - 1) * pow2 (-10))%Q).
  assert (Ey : (y == inject_Z (1024 * (k + 1) - 1) / inject_Z 1024)%Q).
  { subst y. change (pow2 (-10)) with (/ inject_Z 1024)%Q. reflexivity. }
  assert (Hhi : (x <= y)%Q).
  { rewrite Ey. apply Qdiv_le_cross; lia. }
  assert (Hy : (y < inject_Z (k + 1))%Q).
  { rewrite Ey. assert (E : (inject_Z (k + 1) == inject_Z (k + 1) / inject_Z 1)%Q)
      by (field; discriminate).
    rewrite E. apply Qdiv_lt_cross; lia. }
  apply Qfloor_between.
  - rewrite <- (round_Z k) by (change (2 ^ 53) with 9007199254740992; lia).
    apply round_le, Hlo.
  - eapply Qle_lt_trans; [| exact Hy ].
    assert (Hr : (round y == y)%Q).
    { apply round_representable; [| discriminate ].
      change (2 ^ 53) with 9007199254740992. lia. }
    rewrite <- Hr. apply round_le, Hhi.
Qed.

(** X27: for a time [date_now] in whole milliseconds below [2^52] and a
    whole number of [days] below [2^36] in magnitude, [calculateTTL]
    computes in doubles, without any rounding error, the whole second
    of [date_now] plus [days] days in seconds; in milliseconds the
    result is at most the current time plus the days, and less than a
    second below it. *)
Theorem calculateTTL_spec (date_now days : Z) :
  0 <= date_now < 2 ^ 52 → Z.abs days < 2 ^ 36 →
  let ttl := date_now / 1000 + days * 86400 in
  (∃ q, calculateTTL (JS.of_Z date_now) (JS.of_Z days) = Fin q
        ∧ (q == inject_Z ttl)%Q)
  ∧ ttl * 1000 <= date_now + days * 86400000 < ttl * 1000 + 1000.
Proof.
  intros Hnow Hdays ttl.
  pose proof (Z.div_mod date_now 1000 ltac:(lia)) as Hd.
  pose proof (Z.mod_pos_bound date_now 1000 ltac:(lia)) as Hm.
  change (2 ^ 52) with 4503599627370496 in Hnow.
  change (2 ^ 36) with 68719476736 in Hdays.
  split; [| subst ttl; lia ].
  set (k := date_now / 1000) in *.
  assert (Hk : 0 <= k < 4503599627371) by lia.
  unfold calculateTTL, JS.of_Z. cbn [Binary64.div].
  assert (E0 : Qeq_bool (inject_Z 1000) 0 = false) by reflexivity.
  rewrite E0.
  rewrite (to_number_bounded (inject_Z date_now / inject_Z 1000)).
  2:{ assert (E1 : (pow2 60 == inject_Z (2 ^ 60) / inject_Z 1)%Q) by (vm_compute; reflexivity).
      assert (E2 : (- pow2 60 == inject_Z (- 2 ^ 60) / inject_Z 1)%Q) by (vm_compute; reflexivity).
      rewrite E1, E2. change (2 ^ 60) with 1152921504606846976.
      split; apply Qdiv_le_cross; lia. }
  cbn [Math_floor].
  rewrite (floor_of_rounded_seconds date_now)
    by (change (2 ^ 52) with 4503599627370496; lia).
  fold k.
  cbn [Binary64.mul].
  destruct (to_number_exact (inject_Z days * inject_Z 24) (days * 24)) as (q1 & -> & H1).
  { rewrite inject_Z_mult. reflexivity. }
  { change (2 ^ 53) with 9007199254740992. lia. }
  cbn [Binary64.mul].
  destruct (to_number_exact (q1 * inject_Z 60) (days * 24 * 60)) as (q2 & -> & H2).
  { rewrite H1, <- inject_Z_mult. reflexivity. }
  { change (2 ^ 53) with 9007199254740992. lia. }
  cbn [Binary64.mul].
  destruct (to_number_exact (q2 * inject_Z 60) (days * 24 * 60 * 60)) as (q3 & -> & H3).
  { rewrite H2, <- inject_Z_mult. reflexivity. }
  { change (2 ^ 53) with 9007199254740992. lia. }
  cbn [Binary64.add].
  destruct (to_number_exact (inject_Z k + q3) ttl) as (q & -> & Hq).
  { rewrite H3, <- inject_Z_plus. subst ttl.
    replace (k + days * 24 * 60 * 60) with (k + days * 86400) by ring. reflexivity. }
  { change (2 ^ 53) with 9007199254740992. subst ttl. lia. }
  exists q. split; [ reflexivity | exact Hq ].
Qed.

Lemma calculateTTL_spec_witness :
  ∃ q, calculateTTL (JS.of_Z 1762041600123) (JS.of_Z 90) = Fin q
       ∧ (q == inject_Z (1762041600123 / 1000 + 90 * 86400))%Q.
Proof.
  refine (proj1 (calculateTTL_spec 1762041600123 90 _ _)).
  - split; [ discriminate | reflexivity ].
  - reflexivity.
Defined.

End TimeToLive.
